(** * IMU preintegration node of SC-LIO-SAM: a shallow embedding

    Source: [src/SC-LIO-SAM/src/imuPreintegration.cpp], class
    [IMUPreintegration] (the lidar-pose handler [odometryHandler], the
    inertial handler [imuHandler], [failureDetection], [resetParams],
    [resetOptimization] and the member initialisers) and class
    [TransformFusion] ([odom2affine], [lidarOdometryHandler] and
    [imuOdometryHandler]).

    Conventions of the embedding.
    - A C++ [double] is an exact rational [Q]: the rounding of double
      arithmetic is not modelled.  A [float] is the rational it denotes, and
      the conversion of a double to [float] rounds to the nearest float
      ([float_of_double]).  Comparisons are the boolean tests the code
      performs.
    - The handlers run under one mutex, so each is a function from the state
      of the object to an outcome: it returns, or an exception leaves it.
    - GTSAM objects are kept as the history of the calls made on them: a
      preintegrator is its reference bias and the measurements integrated
      since the last reset, the smoother is the list of its updates.  What
      GTSAM computes from them ([predict], the estimate, the marginals) is a
      method of the class [Gtsam] below.
    - Of the GTSAM calls only [integrateMeasurement] is taken to throw (on a
      [dt] that is not positive); the others are total here.
    - The norm that Eigen computes on an [Eigen::Vector3f] is the method of
      the class [Eigen].
    - Configuration read from [ParamServer] (declared in utility.h) is the
      class [ParamServer].
    - [TransformFusion], the display node of the same file, is modelled
      after the preintegration node, with the transforms of Eigen, pcl and
      tf as the methods of the class [Transforms]. *)

From Stdlib Require Import ZArith QArith Qround Qabs Qpower Qreals Reals Lra Lqa Lia.
From Stdlib Require Import List Sorted Bool String.
From Stdlib Require Import Setoid Morphisms.
Import ListNotations.

Local Open Scope Q_scope.

(** ** Numbers *)

(** [a < b] on doubles, as a boolean. *)
Definition Qltb (a b : Q) : bool := negb (Qle_bool b a).

Infix "<?" := Qltb (at level 70, no associativity) : Q_scope.

(** [(int) d]: conversion of a double to [int] truncates toward zero. *)
Definition int_of_double (d : Q) : Z := Z.quot (Qnum d) (Zpos (Qden d)).

(** ** Single precision *)

(** The integer nearest to [q], the even one on a tie. *)
Definition round_half_even (q : Q) : Z :=
  let f := Qfloor q in
  match Qcompare (q - inject_Z f) (1 # 2) with
  | Lt => f
  | Eq => if Z.even f then f else (f + 1)%Z
  | Gt => (f + 1)%Z
  end.

(** [floor (log2 |q|)], for [q] other than 0. *)
Definition binary_exponent (q : Q) : Z :=
  let a := Qabs q in
  let e := (Z.log2 (Qnum a) - Z.log2 (Zpos (Qden a)))%Z in
  if Qle_bool (2 ^ e) a then e else (e - 1)%Z.

(** The spacing of the floats around [q]: a significand of 24 bits, and
    [2^-149] below the least normal float [2^-126]. *)
Definition float_quantum (q : Q) : Q := 2 ^ (Z.max (binary_exponent q) (-126) - 23).

(** [(float) d], as in [float p_x = odomMsg->pose.pose.position.x] and in the
    constructor of [Eigen::Vector3f] from doubles: the nearest float, the one
    with the even significand on a tie (IEEE 754 binary32, rounding to
    nearest).  A magnitude beyond the largest float, which the conversion
    turns into an infinity, is rounded like the others here. *)
Definition float_of_double (d : Q) : Q :=
  if Qeq_bool d 0 then 0
  else Qred (inject_Z (round_half_even (d / float_quantum d)) * float_quantum d).

(** ** Geometry (Eigen and GTSAM value types) *)

Record Vector3 : Type := mkVector3 { vx : Q; vy : Q; vz : Q }.

(** [gtsam::Point3] is a 3-vector. *)
Definition Point3 : Type := Vector3.

Definition Vector3_zero : Vector3 := mkVector3 0 0 0.

Definition Vector3_add (a b : Vector3) : Vector3 :=
  mkVector3 (vx a + vx b) (vy a + vy b) (vz a + vz b).

Definition Vector3_dot (a b : Vector3) : Q :=
  vx a * vx b + vy a * vy b + vz a * vz b.

Definition squaredNorm (v : Vector3) : Q := Vector3_dot v v.

(** The Euclidean norm of [v] exceeds [c], for [c >= 0], decided on the
    squares (lemma [norm_exceeds_sqrt]). *)
Definition norm_exceeds (v : Vector3) (c : Q) : bool := c * c <? squaredNorm v.

(** [Eigen::Vector3f v(x, y, z)] from three doubles: each is converted to
    [float]. *)
Definition Vector3f (x y z : Q) : Vector3 :=
  mkVector3 (float_of_double x) (float_of_double y) (float_of_double z).

Record Quaternion : Type := mkQuaternion { q_w : Q; q_x : Q; q_y : Q; q_z : Q }.

(** A rotation matrix, by rows. *)
Record Rot3 : Type := mkRot3 { row1 : Vector3; row2 : Vector3; row3 : Vector3 }.

Definition Rot3_identity : Rot3 :=
  mkRot3 (mkVector3 1 0 0) (mkVector3 0 1 0) (mkVector3 0 0 1).

(** [gtsam::Rot3(w, x, y, z)] and [Rot3::Quaternion(w, x, y, z)]: the matrix
    of the quaternion, by Eigen's [toRotationMatrix]. *)
Definition Rot3_Quaternion (w x y z : Q) : Rot3 :=
  let tx := 2 * x in let ty := 2 * y in let tz := 2 * z in
  let twx := tx * w in let twy := ty * w in let twz := tz * w in
  let txx := tx * x in let txy := ty * x in let txz := tz * x in
  let tyy := ty * y in let tyz := tz * y in let tzz := tz * z in
  mkRot3 (mkVector3 (1 - (tyy + tzz)) (txy - twz) (txz + twy))
         (mkVector3 (txy + twz) (1 - (txx + tzz)) (tyz - twx))
         (mkVector3 (txz - twy) (tyz + twx) (1 - (txx + tyy))).

Definition Rot3_of_quaternion (q : Quaternion) : Rot3 :=
  Rot3_Quaternion (q_w q) (q_x q) (q_y q) (q_z q).

(** [R * p]. *)
Definition Rot3_rotate (R : Rot3) (p : Point3) : Point3 :=
  mkVector3 (Vector3_dot (row1 R) p) (Vector3_dot (row2 R) p) (Vector3_dot (row3 R) p).

Definition Rot3_column (R : Rot3) (i : nat) : Vector3 :=
  match i with
  | O => mkVector3 (vx (row1 R)) (vx (row2 R)) (vx (row3 R))
  | S O => mkVector3 (vy (row1 R)) (vy (row2 R)) (vy (row3 R))
  | _ => mkVector3 (vz (row1 R)) (vz (row2 R)) (vz (row3 R))
  end.

(** [R1 * R2]. *)
Definition Rot3_compose (R1 R2 : Rot3) : Rot3 :=
  let r (a : Vector3) :=
    mkVector3 (Vector3_dot a (Rot3_column R2 0)) (Vector3_dot a (Rot3_column R2 1))
              (Vector3_dot a (Rot3_column R2 2)) in
  mkRot3 (r (row1 R1)) (r (row2 R1)) (r (row3 R1)).

Record Pose3 : Type := mkPose3 { rotation : Rot3; translation : Point3 }.

(** [T1.compose(T2)]: rotation [R1 * R2], translation [t1 + R1 * t2]. *)
Definition Pose3_compose (T1 T2 : Pose3) : Pose3 :=
  mkPose3 (Rot3_compose (rotation T1) (rotation T2))
          (Vector3_add (translation T1) (Rot3_rotate (rotation T1) (translation T2))).

(** [gtsam::NavState(pose, velocity)]. *)
Record NavState : Type := mkNavState { pose : Pose3; velocity : Vector3 }.

Definition position (s : NavState) : Point3 := translation (pose s).

Record ConstantBias : Type := mkConstantBias { accelerometer : Vector3; gyroscope : Vector3 }.

(** [gtsam::imuBias::ConstantBias()]. *)
Definition ConstantBias_zero : ConstantBias := mkConstantBias Vector3_zero Vector3_zero.

(** Equality of values up to the equality of rationals. *)
Definition Vector3_eq (a b : Vector3) : Prop :=
  vx a == vx b /\ vy a == vy b /\ vz a == vz b.

Definition Rot3_eq (a b : Rot3) : Prop :=
  Vector3_eq (row1 a) (row1 b) /\ Vector3_eq (row2 a) (row2 b) /\ Vector3_eq (row3 a) (row3 b).

Definition Pose3_eq (a b : Pose3) : Prop :=
  Rot3_eq (rotation a) (rotation b) /\ Vector3_eq (translation a) (translation b).

(** ** Messages *)

(** [sensor_msgs::Imu]: the stamp in seconds ([header.stamp.toSec()]) and the
    two readings the handlers use. *)
Record Imu : Type := mkImu {
  imu_stamp : Q;
  linear_acceleration : Vector3;
  angular_velocity : Vector3
}.

(** [nav_msgs::Odometry]: [covariance0] is [pose.covariance[0]]. *)
Record Odometry : Type := mkOdometry {
  odom_stamp : Q;
  frame_id : string;
  child_frame_id : string;
  pose_position : Vector3;
  pose_orientation : Quaternion;
  covariance0 : Q;
  twist_linear : Vector3;
  twist_angular : Vector3
}.

(** ** GTSAM objects *)

(** [gtsam::PreintegratedImuMeasurements]: the bias of the last reset and
    the measurements (acceleration, angular velocity, dt) integrated since,
    oldest first.  The shared [PreintegrationParams] never change and are
    left out. *)
Record PreintegratedImuMeasurements : Type := mkPreintegrated {
  biasHat : ConstantBias;
  measurements : list (Vector3 * Vector3 * Q)
}.

Definition resetIntegrationAndSetBias (b : ConstantBias)
  (p : PreintegratedImuMeasurements) : PreintegratedImuMeasurements :=
  mkPreintegrated b [].

(** Modelled from the spec: [integrateMeasurement] is GTSAM code, absent from
    the repository; section 4.1 gives its contract: "integrate with dt <= 0
    fails with InvalidTimestepping".  [None] is that failure (a C++
    exception); otherwise the measurement is accumulated. *)
Definition integrateMeasurement (acc gyr : Vector3) (dt : Q)
  (p : PreintegratedImuMeasurements) : option PreintegratedImuMeasurements :=
  if Qle_bool dt 0 then None
  else Some (mkPreintegrated (biasHat p) (measurements p ++ [(acc, gyr, dt)])).

(** [deltaTij()]: the integration interval, the sum of the dt's. *)
Definition deltaTij (p : PreintegratedImuMeasurements) : Q :=
  fold_left (fun s m => s + snd m) (measurements p) 0.

Inductive Key : Type := X (i : Z) | V (i : Z) | B (i : Z).

Definition Matrix : Type := list (list Q).

Inductive NoiseModel : Type :=
| Diagonal_Sigmas (sigmas : list Q)
| Isotropic_Sigma (dim : Z) (sigma : Q)
| Gaussian_Covariance (m : Matrix).

Inductive Value : Type :=
| Value_Pose3 (p : Pose3)
| Value_Vector3 (v : Vector3)
| Value_Bias (b : ConstantBias).

Inductive Factor : Type :=
| PriorFactor (k : Key) (prior : Value) (noise : NoiseModel)
| ImuFactor (pose_i vel_i pose_j vel_j bias_i : Key) (pim : PreintegratedImuMeasurements)
| BetweenFactor (k1 k2 : Key) (measured : ConstantBias) (noise : NoiseModel).

Definition NonlinearFactorGraph : Type := list Factor.
Definition Values : Type := list (Key * Value).

Record ISAM2Params : Type := mkISAM2Params {
  relinearizeThreshold : Q;
  relinearizeSkip : Z
}.

(** [gtsam::ISAM2]: its parameters and the updates it has received, oldest
    first. *)
Record ISAM2 : Type := mkISAM2 {
  isam_params : ISAM2Params;
  isam_updates : list (NonlinearFactorGraph * Values)
}.

(** [gtsam::ISAM2(params)]. *)
Definition ISAM2_new (p : ISAM2Params) : ISAM2 := mkISAM2 p [].

(** [optimizer.update(factors, values)]; [optimizer.update()] is
    [ISAM2_update [] []]. *)
Definition ISAM2_update (f : NonlinearFactorGraph) (v : Values) (o : ISAM2) : ISAM2 :=
  mkISAM2 (isam_params o) (isam_updates o ++ [(f, v)]).

(** What Eigen computes in single precision; not code of the repository. *)
Class Eigen : Type := {
  (** [v.norm()] on an [Eigen::Vector3f] *)
  Vector3f_norm : Vector3 -> Q
}.

(** What GTSAM and libm compute; none of it is code of the repository. *)
Class Gtsam : Type := {
  (** [pim.predict(state, bias)] *)
  predict : PreintegratedImuMeasurements -> NavState -> ConstantBias -> NavState;
  (** [optimizer.marginalCovariance(key)] *)
  marginalCovariance : ISAM2 -> Key -> Matrix;
  (** [optimizer.calculateEstimate().at<T>(key)] for the three value types *)
  estimate_Pose3 : ISAM2 -> Key -> Pose3;
  estimate_Vector3 : ISAM2 -> Key -> Vector3;
  estimate_Bias : ISAM2 -> Key -> ConstantBias;
  (** [rot.toQuaternion()] *)
  toQuaternion : Rot3 -> Quaternion;
  (** [sqrt] on doubles *)
  sqrt_double : Q -> Q
}.

(** The members of [ParamServer] (utility.h) the node reads. *)
Class ParamServer : Type := {
  extTrans : Vector3;
  imuAccBiasN : Q;
  imuGyrBiasN : Q;
  odometryFrame : string;
  (** [imuConverter]: rotates a raw sample by the extrinsic rotation *)
  imuConverter : Imu -> Imu
}.

(** ** The state of [IMUPreintegration] *)

(** The mutable members of the class, and [rosout], the warnings logged
    with [ROS_WARN], oldest first. *)
Record State : Type := mkState {
  systemInitialized : bool;
  imuIntegratorOpt_ : PreintegratedImuMeasurements;
  imuIntegratorImu_ : PreintegratedImuMeasurements;
  imuQueOpt : list Imu;
  imuQueImu : list Imu;
  prevPose_ : Pose3;
  prevVel_ : Vector3;
  prevState_ : NavState;
  prevBias_ : ConstantBias;
  prevStateOdom : NavState;
  prevBiasOdom : ConstantBias;
  doneFirstOpt : bool;
  lastImuT_imu : Q;
  lastImuT_opt : Q;
  optimizer : ISAM2;
  graphFactors : NonlinearFactorGraph;
  graphValues : Values;
  key : Z;
  rosout : list string
}.

(** Assignment to one member. *)
Definition set_systemInitialized (v : bool) (st : State) : State :=
  mkState v (imuIntegratorOpt_ st) (imuIntegratorImu_ st) (imuQueOpt st) (imuQueImu st)
    (prevPose_ st) (prevVel_ st) (prevState_ st) (prevBias_ st) (prevStateOdom st)
    (prevBiasOdom st) (doneFirstOpt st) (lastImuT_imu st) (lastImuT_opt st)
    (optimizer st) (graphFactors st) (graphValues st) (key st) (rosout st).

Definition set_imuIntegratorOpt_ (v : PreintegratedImuMeasurements) (st : State) : State :=
  mkState (systemInitialized st) v (imuIntegratorImu_ st) (imuQueOpt st) (imuQueImu st)
    (prevPose_ st) (prevVel_ st) (prevState_ st) (prevBias_ st) (prevStateOdom st)
    (prevBiasOdom st) (doneFirstOpt st) (lastImuT_imu st) (lastImuT_opt st)
    (optimizer st) (graphFactors st) (graphValues st) (key st) (rosout st).

Definition set_imuIntegratorImu_ (v : PreintegratedImuMeasurements) (st : State) : State :=
  mkState (systemInitialized st) (imuIntegratorOpt_ st) v (imuQueOpt st) (imuQueImu st)
    (prevPose_ st) (prevVel_ st) (prevState_ st) (prevBias_ st) (prevStateOdom st)
    (prevBiasOdom st) (doneFirstOpt st) (lastImuT_imu st) (lastImuT_opt st)
    (optimizer st) (graphFactors st) (graphValues st) (key st) (rosout st).

Definition set_imuQueOpt (v : list Imu) (st : State) : State :=
  mkState (systemInitialized st) (imuIntegratorOpt_ st) (imuIntegratorImu_ st) v
    (imuQueImu st) (prevPose_ st) (prevVel_ st) (prevState_ st) (prevBias_ st)
    (prevStateOdom st) (prevBiasOdom st) (doneFirstOpt st) (lastImuT_imu st)
    (lastImuT_opt st) (optimizer st) (graphFactors st) (graphValues st) (key st)
    (rosout st).

Definition set_imuQueImu (v : list Imu) (st : State) : State :=
  mkState (systemInitialized st) (imuIntegratorOpt_ st) (imuIntegratorImu_ st)
    (imuQueOpt st) v (prevPose_ st) (prevVel_ st) (prevState_ st) (prevBias_ st)
    (prevStateOdom st) (prevBiasOdom st) (doneFirstOpt st) (lastImuT_imu st)
    (lastImuT_opt st) (optimizer st) (graphFactors st) (graphValues st) (key st)
    (rosout st).

Definition set_prevPose_ (v : Pose3) (st : State) : State :=
  mkState (systemInitialized st) (imuIntegratorOpt_ st) (imuIntegratorImu_ st)
    (imuQueOpt st) (imuQueImu st) v (prevVel_ st) (prevState_ st) (prevBias_ st)
    (prevStateOdom st) (prevBiasOdom st) (doneFirstOpt st) (lastImuT_imu st)
    (lastImuT_opt st) (optimizer st) (graphFactors st) (graphValues st) (key st)
    (rosout st).

Definition set_prevVel_ (v : Vector3) (st : State) : State :=
  mkState (systemInitialized st) (imuIntegratorOpt_ st) (imuIntegratorImu_ st)
    (imuQueOpt st) (imuQueImu st) (prevPose_ st) v (prevState_ st) (prevBias_ st)
    (prevStateOdom st) (prevBiasOdom st) (doneFirstOpt st) (lastImuT_imu st)
    (lastImuT_opt st) (optimizer st) (graphFactors st) (graphValues st) (key st)
    (rosout st).

Definition set_prevState_ (v : NavState) (st : State) : State :=
  mkState (systemInitialized st) (imuIntegratorOpt_ st) (imuIntegratorImu_ st)
    (imuQueOpt st) (imuQueImu st) (prevPose_ st) (prevVel_ st) v (prevBias_ st)
    (prevStateOdom st) (prevBiasOdom st) (doneFirstOpt st) (lastImuT_imu st)
    (lastImuT_opt st) (optimizer st) (graphFactors st) (graphValues st) (key st)
    (rosout st).

Definition set_prevBias_ (v : ConstantBias) (st : State) : State :=
  mkState (systemInitialized st) (imuIntegratorOpt_ st) (imuIntegratorImu_ st)
    (imuQueOpt st) (imuQueImu st) (prevPose_ st) (prevVel_ st) (prevState_ st) v
    (prevStateOdom st) (prevBiasOdom st) (doneFirstOpt st) (lastImuT_imu st)
    (lastImuT_opt st) (optimizer st) (graphFactors st) (graphValues st) (key st)
    (rosout st).

Definition set_prevStateOdom (v : NavState) (st : State) : State :=
  mkState (systemInitialized st) (imuIntegratorOpt_ st) (imuIntegratorImu_ st)
    (imuQueOpt st) (imuQueImu st) (prevPose_ st) (prevVel_ st) (prevState_ st)
    (prevBias_ st) v (prevBiasOdom st) (doneFirstOpt st) (lastImuT_imu st)
    (lastImuT_opt st) (optimizer st) (graphFactors st) (graphValues st) (key st)
    (rosout st).

Definition set_prevBiasOdom (v : ConstantBias) (st : State) : State :=
  mkState (systemInitialized st) (imuIntegratorOpt_ st) (imuIntegratorImu_ st)
    (imuQueOpt st) (imuQueImu st) (prevPose_ st) (prevVel_ st) (prevState_ st)
    (prevBias_ st) (prevStateOdom st) v (doneFirstOpt st) (lastImuT_imu st)
    (lastImuT_opt st) (optimizer st) (graphFactors st) (graphValues st) (key st)
    (rosout st).

Definition set_doneFirstOpt (v : bool) (st : State) : State :=
  mkState (systemInitialized st) (imuIntegratorOpt_ st) (imuIntegratorImu_ st)
    (imuQueOpt st) (imuQueImu st) (prevPose_ st) (prevVel_ st) (prevState_ st)
    (prevBias_ st) (prevStateOdom st) (prevBiasOdom st) v (lastImuT_imu st)
    (lastImuT_opt st) (optimizer st) (graphFactors st) (graphValues st) (key st)
    (rosout st).

Definition set_lastImuT_imu (v : Q) (st : State) : State :=
  mkState (systemInitialized st) (imuIntegratorOpt_ st) (imuIntegratorImu_ st)
    (imuQueOpt st) (imuQueImu st) (prevPose_ st) (prevVel_ st) (prevState_ st)
    (prevBias_ st) (prevStateOdom st) (prevBiasOdom st) (doneFirstOpt st) v
    (lastImuT_opt st) (optimizer st) (graphFactors st) (graphValues st) (key st)
    (rosout st).

Definition set_lastImuT_opt (v : Q) (st : State) : State :=
  mkState (systemInitialized st) (imuIntegratorOpt_ st) (imuIntegratorImu_ st)
    (imuQueOpt st) (imuQueImu st) (prevPose_ st) (prevVel_ st) (prevState_ st)
    (prevBias_ st) (prevStateOdom st) (prevBiasOdom st) (doneFirstOpt st)
    (lastImuT_imu st) v (optimizer st) (graphFactors st) (graphValues st) (key st)
    (rosout st).

Definition set_optimizer (v : ISAM2) (st : State) : State :=
  mkState (systemInitialized st) (imuIntegratorOpt_ st) (imuIntegratorImu_ st)
    (imuQueOpt st) (imuQueImu st) (prevPose_ st) (prevVel_ st) (prevState_ st)
    (prevBias_ st) (prevStateOdom st) (prevBiasOdom st) (doneFirstOpt st)
    (lastImuT_imu st) (lastImuT_opt st) v (graphFactors st) (graphValues st) (key st)
    (rosout st).

Definition set_graphFactors (v : NonlinearFactorGraph) (st : State) : State :=
  mkState (systemInitialized st) (imuIntegratorOpt_ st) (imuIntegratorImu_ st)
    (imuQueOpt st) (imuQueImu st) (prevPose_ st) (prevVel_ st) (prevState_ st)
    (prevBias_ st) (prevStateOdom st) (prevBiasOdom st) (doneFirstOpt st)
    (lastImuT_imu st) (lastImuT_opt st) (optimizer st) v (graphValues st) (key st)
    (rosout st).

Definition set_graphValues (v : Values) (st : State) : State :=
  mkState (systemInitialized st) (imuIntegratorOpt_ st) (imuIntegratorImu_ st)
    (imuQueOpt st) (imuQueImu st) (prevPose_ st) (prevVel_ st) (prevState_ st)
    (prevBias_ st) (prevStateOdom st) (prevBiasOdom st) (doneFirstOpt st)
    (lastImuT_imu st) (lastImuT_opt st) (optimizer st) (graphFactors st) v (key st)
    (rosout st).

Definition set_key (v : Z) (st : State) : State :=
  mkState (systemInitialized st) (imuIntegratorOpt_ st) (imuIntegratorImu_ st)
    (imuQueOpt st) (imuQueImu st) (prevPose_ st) (prevVel_ st) (prevState_ st)
    (prevBias_ st) (prevStateOdom st) (prevBiasOdom st) (doneFirstOpt st)
    (lastImuT_imu st) (lastImuT_opt st) (optimizer st) (graphFactors st)
    (graphValues st) v (rosout st).

Definition set_rosout (v : list string) (st : State) : State :=
  mkState (systemInitialized st) (imuIntegratorOpt_ st) (imuIntegratorImu_ st)
    (imuQueOpt st) (imuQueImu st) (prevPose_ st) (prevVel_ st) (prevState_ st)
    (prevBias_ st) (prevStateOdom st) (prevBiasOdom st) (doneFirstOpt st)
    (lastImuT_imu st) (lastImuT_opt st) (optimizer st) (graphFactors st)
    (graphValues st) (key st) v.

(** ** Handlers as state transformers that may throw *)

Inductive Exception : Type :=
| InvalidTimestepping.

(** How a handler ends: by a [return], or by an exception that nothing in
    the class catches; either way the members keep what was assigned so far. *)
Inductive Outcome (A : Type) : Type :=
| Returned (a : A) (st : State)
| Thrown (e : Exception) (st : State).

Arguments Returned {A} a st.
Arguments Thrown {A} e st.

Definition M (A : Type) : Type := State -> Outcome A.

Definition ret {A : Type} (a : A) : M A := fun st => Returned a st.

Definition bind {A B : Type} (m : M A) (k : A -> M B) : M B :=
  fun st =>
    match m st with
    | Returned a st' => k a st'
    | Thrown e st' => Thrown e st'
    end.

Definition gets {A : Type} (f : State -> A) : M A := fun st => Returned (f st) st.

Definition modify (f : State -> State) : M unit := fun st => Returned tt (f st).

Definition throw {A : Type} (e : Exception) : M A := fun st => Thrown e st.

Declare Scope monad_scope.
Delimit Scope monad_scope with monad.

Notation "x <- c ;; k" := (bind c (fun x => k))
  (at level 61, c at next level, right associativity) : monad_scope.
Notation "c ;; k" := (bind c (fun _ => k))
  (at level 61, right associativity) : monad_scope.

Local Open Scope monad_scope.

(** The state a handler leaves behind. *)
Definition final_state {A : Type} (o : Outcome A) : State :=
  match o with
  | Returned _ st => st
  | Thrown _ st => st
  end.

(** [ROS_TIME(msg)]: [msg->header.stamp.toSec()], for any stamped message. *)
Class Stamped (T : Type) : Type := ROS_TIME : T -> Q.

#[global] Instance Stamped_Imu : Stamped Imu := imu_stamp.
#[global] Instance Stamped_Odometry : Stamped Odometry := odom_stamp.

(** The [return] through which [odometryHandler] leaves. *)
Inductive Branch : Type :=
| Dropped      (* line 295: no inertial sample queued *)
| Initialized  (* line 349: end of "0. initialize system" *)
| Failed       (* line 434: failureDetection fired *)
| Optimized.   (* line 467: end of the handler *)

Definition ROS_WARN (s : string) : M unit :=
  modify (fun st => set_rosout (rosout st ++ [s]) st).

Definition graphFactors_add (f : Factor) : M unit :=
  modify (fun st => set_graphFactors (graphFactors st ++ [f]) st).

Definition graphValues_insert (k : Key) (v : Value) : M unit :=
  modify (fun st => set_graphValues (graphValues st ++ [(k, v)]) st).

Definition optimizer_update (f : NonlinearFactorGraph) (v : Values) : M unit :=
  modify (fun st => set_optimizer (ISAM2_update f v (optimizer st)) st).

(** [imuIntegratorOpt_->integrateMeasurement(acc, gyr, dt)]. *)
Definition integrateMeasurement_Opt (acc gyr : Vector3) (dt : Q) : M unit :=
  fun st =>
    match integrateMeasurement acc gyr dt (imuIntegratorOpt_ st) with
    | Some p => Returned tt (set_imuIntegratorOpt_ p st)
    | None => Thrown InvalidTimestepping st
    end.

(** [imuIntegratorImu_->integrateMeasurement(acc, gyr, dt)]. *)
Definition integrateMeasurement_Imu (acc gyr : Vector3) (dt : Q) : M unit :=
  fun st =>
    match integrateMeasurement acc gyr dt (imuIntegratorImu_ st) with
    | Some p => Returned tt (set_imuIntegratorImu_ p st)
    | None => Thrown InvalidTimestepping st
    end.

(** ** Constants of the class (lines 222-253) *)

Definition delta_t : Q := 0.

Definition priorPoseNoise : NoiseModel :=
  Diagonal_Sigmas [1 # 100; 1 # 100; 1 # 100; 1 # 100; 1 # 100; 1 # 100].
Definition priorVelNoise : NoiseModel := Isotropic_Sigma 3 10000.
Definition priorBiasNoise : NoiseModel := Isotropic_Sigma 6 (1 # 1000).
Definition correctionNoise : NoiseModel :=
  Diagonal_Sigmas [5 # 100; 5 # 100; 5 # 100; 1 # 10; 1 # 10; 1 # 10].
Definition correctionNoise2 : NoiseModel := Diagonal_Sigmas [1; 1; 1; 1; 1; 1].

(** [dt] of a sample stamped [imuTime] after one stamped [last]; a negative
    [last] means "none yet" and gives the bootstrap [1/500]
    (lines 390, 457 and 506). *)
Definition dt_since (last imuTime : Q) : Q :=
  if last <? 0 then 1 / 500 else imuTime - last.

Section Node.

Context {params : ParamServer} {gtsam : Gtsam} {eigen : Eigen}.

Definition noiseModelBetweenBias : list Q :=
  [imuAccBiasN; imuAccBiasN; imuAccBiasN; imuGyrBiasN; imuGyrBiasN; imuGyrBiasN].

(** Line 226. *)
Definition imu2Lidar : Pose3 :=
  mkPose3 (Rot3_Quaternion 1 0 0 0)
          (mkVector3 (- vx extTrans) (- vy extTrans) (- vz extTrans)).

(** Line 228. *)
Definition lidar2Imu : Pose3 :=
  mkPose3 (Rot3_Quaternion 1 0 0 0)
          (mkVector3 (vx extTrans) (vy extTrans) (vz extTrans)).

(** The object after its constructor (lines 190-259).  [prevVel_], which C++
    leaves uninitialised, is zero here. *)
Definition IMUPreintegration_new : State :=
  let prior_imu_bias := mkConstantBias (mkVector3 0 0 0) (mkVector3 0 0 0) in
  let identity := mkPose3 Rot3_identity Vector3_zero in
  {| systemInitialized := false;
     imuIntegratorOpt_ := mkPreintegrated prior_imu_bias [];
     imuIntegratorImu_ := mkPreintegrated prior_imu_bias [];
     imuQueOpt := [];
     imuQueImu := [];
     prevPose_ := identity;
     prevVel_ := Vector3_zero;
     prevState_ := mkNavState identity Vector3_zero;
     prevBias_ := ConstantBias_zero;
     prevStateOdom := mkNavState identity Vector3_zero;
     prevBiasOdom := ConstantBias_zero;
     doneFirstOpt := false;
     lastImuT_imu := -1;
     lastImuT_opt := -1;
     optimizer := ISAM2_new (mkISAM2Params (1 # 10) 10);
     graphFactors := [];
     graphValues := [];
     key := 1%Z;
     rosout := [] |}.

(** Lines 261-273. *)
Definition resetOptimization : M unit :=
  let optParameters := mkISAM2Params (1 # 10) 1 in
  modify (set_optimizer (ISAM2_new optParameters)) ;;
  modify (set_graphFactors []) ;;
  modify (set_graphValues []).

(** Lines 275-280. *)
Definition resetParams : M unit :=
  modify (set_lastImuT_imu (-1)) ;;
  modify (set_doneFirstOpt false) ;;
  modify (set_systemInitialized false).

(** Lines 469-487. *)
Definition failureDetection (velCur : Vector3) (biasCur : ConstantBias) : M bool :=
  let vel := Vector3f (vx velCur) (vy velCur) (vz velCur) in
  if 30 <? Vector3f_norm vel then
    ROS_WARN "Large velocity, reset IMU-preintegration!" ;;
    ret true
  else
    let ba := Vector3f (vx (accelerometer biasCur)) (vy (accelerometer biasCur))
                       (vz (accelerometer biasCur)) in
    let bg := Vector3f (vx (gyroscope biasCur)) (vy (gyroscope biasCur))
                       (vz (gyroscope biasCur)) in
    if (1 <? Vector3f_norm ba) || (1 <? Vector3f_norm bg) then
      ROS_WARN "Large bias, reset IMU-preintegration!" ;;
      ret true
    else ret false.

(** Lines 313-322: pop the samples older than the correction; [q] is the
    queue [imuQueOpt] as the loop sees it. *)
Fixpoint popOldImuOpt (currentCorrectionTime : Q) (q : list Imu) : M unit :=
  match q with
  | [] => ret tt
  | front :: q' =>
      if ROS_TIME front <? currentCorrectionTime - delta_t then
        modify (set_lastImuT_opt (ROS_TIME front)) ;;
        modify (set_imuQueOpt q') ;;
        popOldImuOpt currentCorrectionTime q'
      else ret tt
  end.

(** Lines 308-348, "0. initialize system". *)
Definition initializeSystem (currentCorrectionTime : Q) (lidarPose : Pose3) : M unit :=
  resetOptimization ;;
  q <- gets imuQueOpt ;;
  popOldImuOpt currentCorrectionTime q ;;
  modify (set_prevPose_ (Pose3_compose lidarPose lidar2Imu)) ;;
  prevPose <- gets prevPose_ ;;
  graphFactors_add (PriorFactor (X 0) (Value_Pose3 prevPose) priorPoseNoise) ;;
  modify (set_prevVel_ (mkVector3 0 0 0)) ;;
  prevVel <- gets prevVel_ ;;
  graphFactors_add (PriorFactor (V 0) (Value_Vector3 prevVel) priorVelNoise) ;;
  modify (set_prevBias_ ConstantBias_zero) ;;
  prevBias <- gets prevBias_ ;;
  graphFactors_add (PriorFactor (B 0) (Value_Bias prevBias) priorBiasNoise) ;;
  graphValues_insert (X 0) (Value_Pose3 prevPose) ;;
  graphValues_insert (V 0) (Value_Vector3 prevVel) ;;
  graphValues_insert (B 0) (Value_Bias prevBias) ;;
  f <- gets graphFactors ;;
  v <- gets graphValues ;;
  optimizer_update f v ;;
  modify (set_graphFactors []) ;;
  modify (set_graphValues []) ;;
  modify (fun st => set_imuIntegratorImu_
                      (resetIntegrationAndSetBias prevBias (imuIntegratorImu_ st)) st) ;;
  modify (fun st => set_imuIntegratorOpt_
                      (resetIntegrationAndSetBias prevBias (imuIntegratorOpt_ st)) st) ;;
  modify (set_key 1%Z) ;;
  modify (set_systemInitialized true).

(** Lines 355-379, the body of [if (key == 100)], "reset graph for speed". *)
Definition resetGraph : M unit :=
  o <- gets optimizer ;;
  k <- gets key ;;
  let updatedPoseNoise := Gaussian_Covariance (marginalCovariance o (X (k - 1))) in
  let updatedVelNoise := Gaussian_Covariance (marginalCovariance o (V (k - 1))) in
  let updatedBiasNoise := Gaussian_Covariance (marginalCovariance o (B (k - 1))) in
  resetOptimization ;;
  prevPose <- gets prevPose_ ;;
  graphFactors_add (PriorFactor (X 0) (Value_Pose3 prevPose) updatedPoseNoise) ;;
  prevVel <- gets prevVel_ ;;
  graphFactors_add (PriorFactor (V 0) (Value_Vector3 prevVel) updatedVelNoise) ;;
  prevBias <- gets prevBias_ ;;
  graphFactors_add (PriorFactor (B 0) (Value_Bias prevBias) updatedBiasNoise) ;;
  graphValues_insert (X 0) (Value_Pose3 prevPose) ;;
  graphValues_insert (V 0) (Value_Vector3 prevVel) ;;
  graphValues_insert (B 0) (Value_Bias prevBias) ;;
  f <- gets graphFactors ;;
  v <- gets graphValues ;;
  optimizer_update f v ;;
  modify (set_graphFactors []) ;;
  modify (set_graphValues []) ;;
  modify (set_key 1%Z).

(** Lines 383-400: integrate and pop the samples older than the correction;
    [q] is the queue [imuQueOpt] as the loop sees it. *)
Fixpoint integrateImuOpt (currentCorrectionTime : Q) (q : list Imu) : M unit :=
  match q with
  | [] => ret tt
  | thisImu :: q' =>
      let imuTime := ROS_TIME thisImu in
      if imuTime <? currentCorrectionTime - delta_t then
        lastImuT <- gets lastImuT_opt ;;
        let dt := dt_since lastImuT imuTime in
        integrateMeasurement_Opt (linear_acceleration thisImu) (angular_velocity thisImu) dt ;;
        modify (set_lastImuT_opt imuTime) ;;
        modify (set_imuQueOpt q') ;;
        integrateImuOpt currentCorrectionTime q'
      else ret tt
  end.

(** Lines 401-429: the three factors, the predicted values, the two updates,
    the read-back of the estimate and the reset of the optimization
    preintegrator. *)
Definition optimize (lidarPose : Pose3) (degenerate : bool) : M unit :=
  preint_imu <- gets imuIntegratorOpt_ ;;
  k <- gets key ;;
  graphFactors_add
    (ImuFactor (X (k - 1)) (V (k - 1)) (X k) (V k) (B (k - 1)) preint_imu) ;;
  graphFactors_add
    (BetweenFactor (B (k - 1)) (B k) ConstantBias_zero
       (Diagonal_Sigmas
          (map (Qmult (sqrt_double (deltaTij preint_imu))) noiseModelBetweenBias))) ;;
  let curPose := Pose3_compose lidarPose lidar2Imu in
  graphFactors_add
    (PriorFactor (X k) (Value_Pose3 curPose)
       (if degenerate then correctionNoise2 else correctionNoise)) ;;
  prevState <- gets prevState_ ;;
  prevBias <- gets prevBias_ ;;
  let propState_ := predict preint_imu prevState prevBias in
  graphValues_insert (X k) (Value_Pose3 (pose propState_)) ;;
  graphValues_insert (V k) (Value_Vector3 (velocity propState_)) ;;
  graphValues_insert (B k) (Value_Bias prevBias) ;;
  f <- gets graphFactors ;;
  v <- gets graphValues ;;
  optimizer_update f v ;;
  optimizer_update [] [] ;;
  modify (set_graphFactors []) ;;
  modify (set_graphValues []) ;;
  result <- gets optimizer ;;
  modify (set_prevPose_ (estimate_Pose3 result (X k))) ;;
  modify (set_prevVel_ (estimate_Vector3 result (V k))) ;;
  modify (fun st => set_prevState_ (mkNavState (prevPose_ st) (prevVel_ st)) st) ;;
  modify (set_prevBias_ (estimate_Bias result (B k))) ;;
  modify (fun st => set_imuIntegratorOpt_
                      (resetIntegrationAndSetBias (prevBias_ st) (imuIntegratorOpt_ st)) st).

(** Lines 441-446: pop from [imuQueImu] the samples older than the
    correction; the result is [lastImuQT]. *)
Fixpoint popOldImuImu (currentCorrectionTime : Q) (q : list Imu) (lastImuQT : Q) : M Q :=
  match q with
  | [] => ret lastImuQT
  | front :: q' =>
      if ROS_TIME front <? currentCorrectionTime - delta_t then
        modify (set_imuQueImu q') ;;
        popOldImuImu currentCorrectionTime q' (ROS_TIME front)
      else ret lastImuQT
  end.

(** Lines 453-462: the [for] loop over [imuQueImu[i]]; the queue is read,
    not popped. *)
Fixpoint reintegrate (q : list Imu) (lastImuQT : Q) : M unit :=
  match q with
  | [] => ret tt
  | thisImu :: q' =>
      let imuTime := ROS_TIME thisImu in
      let dt := dt_since lastImuQT imuTime in
      integrateMeasurement_Imu (linear_acceleration thisImu) (angular_velocity thisImu) dt ;;
      reintegrate q' imuTime
  end.

(** Lines 437-466, "2. after optimization, re-propagate imu odometry
    preintegration". *)
Definition repropagate (currentCorrectionTime : Q) : M unit :=
  modify (fun st => set_prevStateOdom (prevState_ st) st) ;;
  modify (fun st => set_prevBiasOdom (prevBias_ st) st) ;;
  q <- gets imuQueImu ;;
  lastImuQT <- popOldImuImu currentCorrectionTime q (-1) ;;
  q <- gets imuQueImu ;;
  match q with
  | [] => ret tt
  | _ :: _ =>
      modify (fun st => set_imuIntegratorImu_
                          (resetIntegrationAndSetBias (prevBiasOdom st)
                             (imuIntegratorImu_ st)) st) ;;
      reintegrate q lastImuQT
  end ;;
  modify (fun st => set_key (key st + 1)%Z st) ;;
  modify (set_doneFirstOpt true).

(** Lines 382-429, "1. integrate imu data and optimize". *)
Definition integrateAndOptimize (currentCorrectionTime : Q) (lidarPose : Pose3)
  (degenerate : bool) : M unit :=
  q <- gets imuQueOpt ;;
  integrateImuOpt currentCorrectionTime q ;;
  optimize lidarPose degenerate.

(** Lines 382-466: what the handler does with a lidar pose once the system
    is initialised and the graph has been reset if it was due. *)
Definition processLidarPose (currentCorrectionTime : Q) (lidarPose : Pose3)
  (degenerate : bool) : M Branch :=
  integrateAndOptimize currentCorrectionTime lidarPose degenerate ;;
  prevVel <- gets prevVel_ ;;
  prevBias <- gets prevBias_ ;;
  failed <- failureDetection prevVel prevBias ;;
  if failed : bool then
    resetParams ;;
    ret Failed
  else
    repropagate currentCorrectionTime ;;
    ret Optimized.

(** Line 304. *)
Definition degenerate_of (odomMsg : Odometry) : bool :=
  (int_of_double (covariance0 odomMsg) =? 1)%Z.

(** Lines 297-305: the position and the orientation of the message are
    copied into [float] variables, from which the pose is built. *)
Definition lidarPose_of (odomMsg : Odometry) : Pose3 :=
  let p_x := float_of_double (vx (pose_position odomMsg)) in
  let p_y := float_of_double (vy (pose_position odomMsg)) in
  let p_z := float_of_double (vz (pose_position odomMsg)) in
  let r_x := float_of_double (q_x (pose_orientation odomMsg)) in
  let r_y := float_of_double (q_y (pose_orientation odomMsg)) in
  let r_z := float_of_double (q_z (pose_orientation odomMsg)) in
  let r_w := float_of_double (q_w (pose_orientation odomMsg)) in
  mkPose3 (Rot3_Quaternion r_w r_x r_y r_z) (mkVector3 p_x p_y p_z).

(** Lines 287-467. *)
Definition odometryHandler (odomMsg : Odometry) : M Branch :=
  let currentCorrectionTime := ROS_TIME odomMsg in
  q <- gets imuQueOpt ;;
  match q with
  | [] => ret Dropped
  | _ :: _ =>
      let degenerate := degenerate_of odomMsg in
      let lidarPose := lidarPose_of odomMsg in
      initialized <- gets systemInitialized ;;
      if initialized : bool then
        k <- gets key ;;
        (if (k =? 100)%Z then resetGraph else ret tt) ;;
        processLidarPose currentCorrectionTime lidarPose degenerate
      else
        initializeSystem currentCorrectionTime lidarPose ;;
        ret Initialized
  end.

(** Lines 519-542: the message published for the sample [thisImu], from the
    predicted state and the bias of the seed. *)
Definition odometryMessage (thisImu : Imu) (currentState : NavState)
  (prevBiasOdom : ConstantBias) : Odometry :=
  let imuPose :=
    mkPose3 (Rot3_of_quaternion (toQuaternion (rotation (pose currentState))))
            (position currentState) in
  let lidarPose := Pose3_compose imuPose imu2Lidar in
  {| odom_stamp := imu_stamp thisImu;
     frame_id := odometryFrame;
     child_frame_id := "odom_imu";
     pose_position := mkVector3 (vx (translation lidarPose)) (vy (translation lidarPose))
                                (vz (translation lidarPose));
     pose_orientation := toQuaternion (rotation lidarPose);
     covariance0 := 0;
     twist_linear := mkVector3 (vx (velocity currentState)) (vy (velocity currentState))
                               (vz (velocity currentState));
     twist_angular :=
       mkVector3 (vx (angular_velocity thisImu) + vx (gyroscope prevBiasOdom))
                 (vy (angular_velocity thisImu) + vy (gyroscope prevBiasOdom))
                 (vz (angular_velocity thisImu) + vz (gyroscope prevBiasOdom)) |}.

(** Lines 493-544; the result is the message published, if any. *)
Definition imuHandler (imu_raw : Imu) : M (option Odometry) :=
  let thisImu := imuConverter imu_raw in
  modify (fun st => set_imuQueOpt (imuQueOpt st ++ [thisImu]) st) ;;
  modify (fun st => set_imuQueImu (imuQueImu st ++ [thisImu]) st) ;;
  done <- gets doneFirstOpt ;;
  if done : bool then
    let imuTime := ROS_TIME thisImu in
    lastImuT <- gets lastImuT_imu ;;
    let dt := dt_since lastImuT imuTime in
    modify (set_lastImuT_imu imuTime) ;;
    integrateMeasurement_Imu (linear_acceleration thisImu) (angular_velocity thisImu) dt ;;
    preint <- gets imuIntegratorImu_ ;;
    seedState <- gets prevStateOdom ;;
    seedBias <- gets prevBiasOdom ;;
    let currentState := predict preint seedState seedBias in
    ret (Some (odometryMessage thisImu currentState seedBias))
  else ret None.

(** ** Runs of the node *)

Inductive Event : Type :=
| ImuEvent (imu_raw : Imu)
| OdometryEvent (odomMsg : Odometry).

(** One callback; [None] when an exception leaves it (nothing catches it and
    the process ends). *)
Definition handle (ev : Event) (st : State) : option State :=
  match ev with
  | ImuEvent imu_raw =>
      match imuHandler imu_raw st with
      | Returned _ st' => Some st'
      | Thrown _ _ => None
      end
  | OdometryEvent odomMsg =>
      match odometryHandler odomMsg st with
      | Returned _ st' => Some st'
      | Thrown _ _ => None
      end
  end.

Fixpoint run (evs : list Event) (st : State) : option State :=
  match evs with
  | [] => Some st
  | ev :: evs' =>
      match handle ev st with
      | Some st' => run evs' st'
      | None => None
      end
  end.

(** The states the node can be in: after the constructor and any number of
    callbacks that returned. *)
Definition reachable (st : State) : Prop :=
  exists evs, run evs IMUPreintegration_new = Some st.

(** An event on which [imuHandler] integrates on the forward preintegrator
    (it got past the [doneFirstOpt] guard of line 502). *)
Definition integrates_forward (ev : Event) (st : State) : bool :=
  match ev with
  | ImuEvent _ => doneFirstOpt st
  | OdometryEvent _ => false
  end.

(** A run in which [imuHandler] never integrates. *)
Fixpoint no_forward_integration (evs : list Event) (st : State) : Prop :=
  match evs with
  | [] => True
  | ev :: evs' =>
      integrates_forward ev st = false /\
      match handle ev st with
      | Some st' => no_forward_integration evs' st'
      | None => True
      end
  end.

End Node.

(** The state in which the handler starts on the lidar pose: the entry state,
    or what [resetGraph] makes of it when [key == 100] (line 353). *)
Definition afterResetGraph {gtsam : Gtsam} (st : State) : State :=
  if (key st =? 100)%Z then final_state (resetGraph st) else st.

(** ** Descriptions used in the statements *)

(** The samples a drain removes from the front of a queue: those stamped
    before [t], up to the first that is not. *)
Fixpoint take_older (t : Q) (q : list Imu) : list Imu :=
  match q with
  | [] => []
  | m :: q' => if ROS_TIME m <? t - delta_t then m :: take_older t q' else []
  end.

(** What the drain leaves. *)
Fixpoint drop_older (t : Q) (q : list Imu) : list Imu :=
  match q with
  | [] => []
  | m :: q' => if ROS_TIME m <? t - delta_t then drop_older t q' else q
  end.

(** The stamp of the last sample of [q], or [last] when [q] is empty. *)
Fixpoint last_stamp (q : list Imu) (last : Q) : Q :=
  match q with
  | [] => last
  | m :: q' => last_stamp q' (ROS_TIME m)
  end.

(** The samples of [q], in order, each with the [dt] to its predecessor
    ([last] is the stamp before the first). *)
Fixpoint samples_with_dt (last : Q) (q : list Imu) : list (Vector3 * Vector3 * Q) :=
  match q with
  | [] => []
  | m :: q' =>
      (linear_acceleration m, angular_velocity m, dt_since last (ROS_TIME m))
        :: samples_with_dt (ROS_TIME m) q'
  end.

(** Every [dt] of the samples is positive. *)
Definition positive_dts (last : Q) (q : list Imu) : Prop :=
  Forall (fun m => 0 < snd m) (samples_with_dt last q).

(** Between callbacks the graph under construction is empty. *)
Definition graph_cleared (st : State) : Prop :=
  graphFactors st = [] /\ graphValues st = [].

(** [key] is between 1 and 100, and below 100 while the system is not
    initialised. *)
Definition key_invariant (st : State) : Prop :=
  (1 <= key st <= 100)%Z /\ (systemInitialized st = false -> (key st <= 99)%Z).

(** A preintegrator advanced by the measurements [ms]. *)
Definition advanced (p : PreintegratedImuMeasurements) (ms : list (Vector3 * Vector3 * Q))
  : PreintegratedImuMeasurements :=
  mkPreintegrated (biasHat p) (measurements p ++ ms).

(** Stamps in non-decreasing order. *)
Definition sorted_stamps (q : list Imu) : Prop :=
  StronglySorted (fun a b => ROS_TIME a <= ROS_TIME b) q.

(** The Euclidean norm, in the reals. *)
Definition norm (v : Vector3) : R := sqrt (Q2R (squaredNorm v)).

(** The single-precision copy of a vector of doubles, as
    [Eigen::Vector3f vel(velCur.x(), velCur.y(), velCur.z())] makes it. *)
Definition float_copy (v : Vector3) : Vector3 := Vector3f (vx v) (vy v) (vz v).

(** ** A concrete node, for running the handlers *)

Module Scenario.

(** Extrinsic translation (0.1, 0, -0.2); raw samples are already in the
    body frame. *)
Definition params : ParamServer :=
  {| extTrans := mkVector3 (1 # 10) 0 (- (2 # 10));
     imuAccBiasN := 1 # 1000;
     imuGyrBiasN := 1 # 10000;
     odometryFrame := "odom";
     imuConverter := fun m => m |}.

(** A stand-in for GTSAM: the prediction adds to the velocity the
    acceleration, less the bias and gravity, times dt; the smoother answers
    with the values last inserted for a key, except for the bias, whose first
    accelerometer component depends on the number of updates received. *)
Definition predict_velocity (p : PreintegratedImuMeasurements) (s : NavState)
  (b : ConstantBias) : NavState :=
  fold_left
    (fun n m =>
       let '(acc, _, dt) := m in
       mkNavState (pose n)
         (mkVector3 (Qred (vx (velocity n) + (vx acc - vx (accelerometer b)) * dt))
                    (Qred (vy (velocity n) + (vy acc - vy (accelerometer b)) * dt))
                    (Qred (vz (velocity n)
                           + (vz acc - vz (accelerometer b) - (981 # 100)) * dt))))
    (measurements p) s.

Definition Key_eqb (a b : Key) : bool :=
  match a, b with
  | X i, X j | V i, V j | B i, B j => (i =? j)%Z
  | _, _ => false
  end.

Definition inserted (o : ISAM2) (k : Key) : option Value :=
  fold_left
    (fun found u =>
       fold_left (fun f kv => if Key_eqb (fst kv) k then Some (snd kv) else f) (snd u) found)
    (isam_updates o) None.

Definition gtsam : Gtsam :=
  {| predict := predict_velocity;
     marginalCovariance := fun o k => [[inject_Z (Z.of_nat (List.length (isam_updates o)))]];
     estimate_Pose3 := fun o k =>
       match inserted o k with
       | Some (Value_Pose3 p) => p
       | _ => mkPose3 Rot3_identity Vector3_zero
       end;
     estimate_Vector3 := fun o k =>
       match inserted o k with
       | Some (Value_Vector3 v) => v
       | _ => Vector3_zero
       end;
     estimate_Bias := fun o k =>
       mkConstantBias
         (mkVector3 ((Z.of_nat (List.length (isam_updates o)) mod 7) # 100) 0 0)
         Vector3_zero;
     toQuaternion := fun _ => mkQuaternion 1 0 0 0;
     sqrt_double := fun x => x |}.

(** The same, with a smoother whose velocity estimate is 40 m/s. *)
Definition gtsam_diverging : Gtsam :=
  {| predict := predict_velocity;
     marginalCovariance := @marginalCovariance gtsam;
     estimate_Pose3 := @estimate_Pose3 gtsam;
     estimate_Vector3 := fun _ _ => mkVector3 40 0 0;
     estimate_Bias := @estimate_Bias gtsam;
     toQuaternion := @toQuaternion gtsam;
     sqrt_double := @sqrt_double gtsam |}.

(** The square root of [q] rounded to the nearest float. *)
Definition sqrt_float (q : Q) : Q :=
  if Qle_bool q 0 then 0
  else
    let e := Z.max (binary_exponent q / 2)%Z (-126) in
    let quantum := 2 ^ (e - 23) in
    let x := q / (quantum * quantum) in
    let f := Z.sqrt (Qfloor x) in
    let m :=
      match Qcompare x ((inject_Z f + (1 # 2)) * (inject_Z f + (1 # 2))) with
      | Lt => f
      | Eq => if Z.even f then f else (f + 1)%Z
      | Gt => (f + 1)%Z
      end in
    Qred (inject_Z m * quantum).

(** A stand-in for Eigen: the Euclidean norm, rounded once to single
    precision. *)
Definition eigen : Eigen :=
  {| Vector3f_norm := fun v => sqrt_float (squaredNorm v) |}.

(** A sample at rest stamped [t]. *)
Definition sample (t : Q) : Imu :=
  mkImu t (mkVector3 0 0 (981 # 100)) (mkVector3 0 0 (1 # 100)).

(** A lidar pose at the origin stamped [t], with [c] in [covariance[0]]. *)
Definition lidar (t c : Q) : Odometry :=
  {| odom_stamp := t;
     frame_id := "odom";
     child_frame_id := "";
     pose_position := mkVector3 0 0 0;
     pose_orientation := mkQuaternion 1 0 0 0;
     covariance0 := c;
     twist_linear := Vector3_zero;
     twist_angular := Vector3_zero |}.

(** A lidar pose stamped [t] at [(x, 0, 0)], not degenerate. *)
Definition lidar_at (t x : Q) : Odometry :=
  {| odom_stamp := t;
     frame_id := "odom";
     child_frame_id := "";
     pose_position := mkVector3 x 0 0;
     pose_orientation := mkQuaternion 1 0 0 0;
     covariance0 := 0;
     twist_linear := Vector3_zero;
     twist_angular := Vector3_zero |}.

(** The sample stamped [i] seconds, then the lidar pose stamped half a second
    later. *)
Definition keyframe (i : nat) : list Event :=
  [ImuEvent (sample (inject_Z (Z.of_nat i)));
   OdometryEvent (lidar (inject_Z (Z.of_nat i) + (1 # 2)) 0)].

(** [n] keyframes, from second 1 on. *)
Definition keyframes (n : nat) : list Event := flat_map keyframe (seq 1 n).

(** The state reached by [evs] from the constructor; the constructor's state
    when a callback throws on the way. *)
Definition state_after {g : Gtsam} (evs : list Event) : State :=
  match run (params := params) (gtsam := g) (eigen := eigen) evs IMUPreintegration_new with
  | Some st => st
  | None => IMUPreintegration_new
  end.

End Scenario.

(** ** Further descriptions *)

(** [a] is what is left of [b] after some samples were removed from its
    front. *)
Definition suffix_of (a b : list Imu) : Prop := exists p, b = p ++ a.

(** The forward propagator emits from the state and bias last optimized. *)
Definition seed_invariant (st : State) : Prop :=
  doneFirstOpt st = true ->
  systemInitialized st = true /\
  prevStateOdom st = prevState_ st /\
  prevBiasOdom st = prevBias_ st /\
  prevState_ st = mkNavState (prevPose_ st) (prevVel_ st).

(** Between callbacks the optimization preintegrator is empty, under the
    bias last estimated. *)
Definition opt_preintegrator_reset (st : State) : Prop :=
  imuIntegratorOpt_ st = mkPreintegrated (prevBias_ st) [].

(** The stamps of the samples of a queue. *)
Definition stamps (q : list Imu) : list Q := map (fun m => ROS_TIME m) q.

(** The stamps of the inertial samples of a run, in the order of arrival and
    as the handlers read them (after [imuConverter]). *)
Fixpoint imu_stamps {params : ParamServer} (evs : list Event) : list Q :=
  match evs with
  | [] => []
  | ImuEvent imu_raw :: evs' => ROS_TIME (imuConverter imu_raw) :: imu_stamps evs'
  | OdometryEvent _ :: evs' => imu_stamps evs'
  end.

(** [last] is "none yet" or before every stamp of [l]. *)
Definition precedes (last : Q) (l : list Q) : Prop :=
  last < 0 \/ Forall (fun x => last < x) l.

(** What a run with strictly increasing inertial stamps keeps true of a
    state [st] and of the stamps [future] still to come. *)
Definition increasing_invariant (st : State) (future : list Q) : Prop :=
  StronglySorted Qlt (stamps (imuQueImu st) ++ future) /\
  suffix_of (imuQueOpt st) (imuQueImu st) /\
  precedes (lastImuT_opt st) (stamps (imuQueOpt st) ++ future) /\
  precedes (lastImuT_imu st) future.

(** * The class [TransformFusion] (lines 27-179)

    The display node of the same file: it keeps the last lidar odometry and
    the queue of the IMU odometry messages received since, and republishes
    each IMU odometry message with the pose composed from the two.  Its two
    handlers run under one mutex; the function-local statics [imuPath] and
    [last_path_time] of [imuOdometryHandler] are members of the state here.
    The transforms of Eigen, pcl and tf are the methods of the class
    [Transforms]. *)

Class Transforms : Type := {
  Affine3f : Type;
  Affine3f_inverse : Affine3f -> Affine3f;
  Affine3f_mul : Affine3f -> Affine3f -> Affine3f;
  (** [tf::Matrix3x3(orientation).getRPY(roll, pitch, yaw)] *)
  getRPY : Quaternion -> Q * Q * Q;
  (** [pcl::getTransformation(x, y, z, roll, pitch, yaw)] *)
  getTransformation : Q -> Q -> Q -> Q -> Q -> Q -> Affine3f;
  (** [pcl::getTranslationAndEulerAngles]: the translation, then roll,
      pitch and yaw *)
  getTranslationAndEulerAngles : Affine3f -> Vector3 * (Q * Q * Q);
  createQuaternionMsgFromRollPitchYaw : Q -> Q -> Q -> Quaternion;
  Transform : Type;
  (** [tf::Transform(tf::createQuaternionFromRPY(0, 0, 0), tf::Vector3(0, 0, 0))] *)
  map_to_odom : Transform;
  poseMsgToTF : Vector3 -> Quaternion -> Transform;
  Transform_mul : Transform -> Transform -> Transform
}.

(** Further members of [ParamServer] that [TransformFusion] reads. *)
Class Frames : Type := {
  lidarFrame : string;
  baselinkFrame : string;
  mapFrame : string
}.

(** [geometry_msgs::PoseStamped]. *)
Record PoseStamped : Type := mkPoseStamped {
  ps_stamp : Q;
  ps_frame_id : string;
  ps_position : Vector3;
  ps_orientation : Quaternion
}.

(** [nav_msgs::Path]. *)
Record Path : Type := mkPath {
  path_stamp : Q;
  path_frame_id : string;
  poses : list PoseStamped
}.

(** [pose.pose.position] and [pose.pose.orientation] assigned on a copy of
    the message (lines 139-143). *)
Definition set_pose (p : Vector3) (o : Quaternion) (odom : Odometry) : Odometry :=
  {| odom_stamp := odom_stamp odom;
     frame_id := frame_id odom;
     child_frame_id := child_frame_id odom;
     pose_position := p;
     pose_orientation := o;
     covariance0 := covariance0 odom;
     twist_linear := twist_linear odom;
     twist_angular := twist_angular odom |}.

(** Lines 119-125: pop the messages stamped at or before the lidar
    odometry. *)
Fixpoint popOldImuOdom (lidarOdomTime : Q) (q : list Odometry) : list Odometry :=
  match q with
  | [] => []
  | front :: q' =>
      if Qle_bool (ROS_TIME front) lidarOdomTime then popOldImuOdom lidarOdomTime q' else q
  end.

(** Lines 169-170: erase from the front of the path the poses stamped
    before [t]. *)
Fixpoint erasePath (t : Q) (ps : list PoseStamped) : list PoseStamped :=
  match ps with
  | [] => []
  | front :: ps' => if ps_stamp front <? t then erasePath t ps' else ps
  end.

Section Fusion.

Context {params : ParamServer} {frames : Frames} {transforms : Transforms}.

(** [tf::StampedTransform]. *)
Record StampedTransform : Type := mkStampedTransform {
  tf_transform : Transform;
  tf_stamp : Q;
  tf_frame_id : string;
  tf_child_frame_id : string
}.

(** The mutable members of the class and the two statics of
    [imuOdometryHandler]. *)
Record TransformFusion : Type := mkTransformFusion {
  lidarOdomAffine : Affine3f;
  lidar2Baselink : Transform;
  lidarOdomTime : Q;
  imuOdomQueue : list Odometry;
  imuPath : Path;
  last_path_time : Q
}.

Definition set_lidarOdomAffine (v : Affine3f) (this : TransformFusion) : TransformFusion :=
  mkTransformFusion v (lidar2Baselink this) (lidarOdomTime this) (imuOdomQueue this)
    (imuPath this) (last_path_time this).

Definition set_lidarOdomTime (v : Q) (this : TransformFusion) : TransformFusion :=
  mkTransformFusion (lidarOdomAffine this) (lidar2Baselink this) v (imuOdomQueue this)
    (imuPath this) (last_path_time this).

Definition set_imuOdomQueue (v : list Odometry) (this : TransformFusion) : TransformFusion :=
  mkTransformFusion (lidarOdomAffine this) (lidar2Baselink this) (lidarOdomTime this) v
    (imuPath this) (last_path_time this).

Definition set_imuPath (v : Path) (this : TransformFusion) : TransformFusion :=
  mkTransformFusion (lidarOdomAffine this) (lidar2Baselink this) (lidarOdomTime this)
    (imuOdomQueue this) v (last_path_time this).

Definition set_last_path_time (v : Q) (this : TransformFusion) : TransformFusion :=
  mkTransformFusion (lidarOdomAffine this) (lidar2Baselink this) (lidarOdomTime this)
    (imuOdomQueue this) (imuPath this) v.

(** The object after its constructor (lines 45-73).  The constructor does
    not assign [lidarOdomAffine], and [lidar2Baselink] is what the lookup
    gave, or what the member held when there was no lookup or it failed:
    both are arguments. *)
Definition TransformFusion_new (affine0 : Affine3f) (l2b : Transform) : TransformFusion :=
  {| lidarOdomAffine := affine0;
     lidar2Baselink := l2b;
     lidarOdomTime := -1;
     imuOdomQueue := [];
     imuPath := mkPath 0 "" [];
     last_path_time := -1 |}.

(** Lines 77-87. *)
Definition odom2affine (odom : Odometry) : Affine3f :=
  let x := vx (pose_position odom) in
  let y := vy (pose_position odom) in
  let z := vz (pose_position odom) in
  let '(roll, pitch, yaw) := getRPY (pose_orientation odom) in
  getTransformation x y z roll pitch yaw.

(** Lines 91-98. *)
Definition lidarOdometryHandler (odomMsg : Odometry) (this : TransformFusion)
  : TransformFusion :=
  set_lidarOdomTime (ROS_TIME odomMsg) (set_lidarOdomAffine (odom2affine odomMsg) this).

(** What a handler hands to ROS. *)
Inductive Sent : Type :=
| tfMap2Odom_sendTransform (t : StampedTransform)
| pubImuOdometry_publish (o : Odometry)
| tfOdom2BaseLink_sendTransform (t : StampedTransform)
| pubImuPath_publish (p : Path).

(** How [imuOdometryHandler] ends: it returns, or it calls [front()] on the
    empty deque (line 127), after which the C++ behaviour is undefined.
    Either way, with what was sent and the members as assigned so far. *)
Inductive FusionOutcome : Type :=
| Finished (sent : list Sent) (this : TransformFusion)
| FrontOfEmptyQueue (sent : list Sent) (this : TransformFusion).

(** What a call has sent, and the members it leaves. *)
Definition fusion_sent (o : FusionOutcome) : list Sent :=
  match o with
  | Finished sent _ | FrontOfEmptyQueue sent _ => sent
  end.

Definition fusion_state (o : FusionOutcome) : TransformFusion :=
  match o with
  | Finished _ this | FrontOfEmptyQueue _ this => this
  end.

(** The broadcast of line 109. *)
Definition map2odom (odomMsg : Odometry) : Sent :=
  tfMap2Odom_sendTransform
    (mkStampedTransform map_to_odom (ROS_TIME odomMsg) mapFrame odometryFrame).

(** The pose of lines 127-135 for the queue [front :: ...] whose last
    message is [back]. *)
Definition imuOdomAffineLast (this : TransformFusion) (front back : Odometry) : Affine3f :=
  let imuOdomAffineFront := odom2affine front in
  let imuOdomAffineBack := odom2affine back in
  let imuOdomAffineIncre :=
    Affine3f_mul (Affine3f_inverse imuOdomAffineFront) imuOdomAffineBack in
  Affine3f_mul (lidarOdomAffine this) imuOdomAffineIncre.

(** Lines 139-143. *)
Definition laserOdometry_of (this : TransformFusion) (front back : Odometry) : Odometry :=
  let '(xyz, (roll, pitch, yaw)) :=
    getTranslationAndEulerAngles (imuOdomAffineLast this front back) in
  set_pose (mkVector3 (vx xyz) (vy xyz) (vz xyz))
           (createQuaternionMsgFromRollPitchYaw roll pitch yaw) back.

(** Lines 148-152. *)
Definition odom_2_baselink (this : TransformFusion) (odomMsg laserOdometry : Odometry)
  : StampedTransform :=
  let tCur := poseMsgToTF (pose_position laserOdometry) (pose_orientation laserOdometry) in
  let tCur :=
    if String.eqb lidarFrame baselinkFrame then tCur
    else Transform_mul tCur (lidar2Baselink this) in
  mkStampedTransform tCur (ROS_TIME odomMsg) odometryFrame baselinkFrame.

(** Lines 104-178; [numSubscribers] is what
    [pubImuPath.getNumSubscribers()] returns during the call. *)
Definition imuOdometryHandler (odomMsg : Odometry) (numSubscribers : nat)
  (this : TransformFusion) : FusionOutcome :=
  let this := set_imuOdomQueue (imuOdomQueue this ++ [odomMsg]) this in
  if Qeq_bool (lidarOdomTime this) (-1) then Finished [map2odom odomMsg] this
  else
    let this :=
      set_imuOdomQueue (popOldImuOdom (lidarOdomTime this) (imuOdomQueue this)) this in
    match imuOdomQueue this with
    | [] => FrontOfEmptyQueue [map2odom odomMsg] this
    | front :: rest =>
        let back := last rest front in
        let laserOdometry := laserOdometry_of this front back in
        let sent :=
          [map2odom odomMsg;
           pubImuOdometry_publish laserOdometry;
           tfOdom2BaseLink_sendTransform (odom_2_baselink this odomMsg laserOdometry)] in
        let imuTime := ROS_TIME back in
        if 1 # 10 <? imuTime - last_path_time this then
          let this := set_last_path_time imuTime this in
          let pose_stamped :=
            mkPoseStamped (ROS_TIME back) odometryFrame
              (pose_position laserOdometry) (pose_orientation laserOdometry) in
          let path := imuPath this in
          let path :=
            mkPath (path_stamp path) (path_frame_id path)
              (erasePath (lidarOdomTime this - 1) (poses path ++ [pose_stamped])) in
          if (numSubscribers =? 0)%nat then Finished sent (set_imuPath path this)
          else
            let path := mkPath (ROS_TIME back) odometryFrame (poses path) in
            Finished (sent ++ [pubImuPath_publish path]) (set_imuPath path this)
        else Finished sent this
    end.

(** ** Runs of the display node *)

Inductive FusionEvent : Type :=
| LidarOdometryEvent (odomMsg : Odometry)
| ImuOdometryEvent (odomMsg : Odometry) (numSubscribers : nat).

(** One callback; [None] when it calls [front()] on the empty deque. *)
Definition fusion_handle (ev : FusionEvent) (this : TransformFusion)
  : option TransformFusion :=
  match ev with
  | LidarOdometryEvent odomMsg => Some (lidarOdometryHandler odomMsg this)
  | ImuOdometryEvent odomMsg numSubscribers =>
      match imuOdometryHandler odomMsg numSubscribers this with
      | Finished _ this' => Some this'
      | FrontOfEmptyQueue _ _ => None
      end
  end.

Fixpoint fusion_run (evs : list FusionEvent) (this : TransformFusion)
  : option TransformFusion :=
  match evs with
  | [] => Some this
  | ev :: evs' =>
      match fusion_handle ev this with
      | Some this' => fusion_run evs' this'
      | None => None
      end
  end.

(** The states the display node can be in. *)
Definition fusion_reachable (this : TransformFusion) : Prop :=
  exists affine0 l2b evs, fusion_run evs (TransformFusion_new affine0 l2b) = Some this.

(** Every pose of the path is more than 0.1 s after every pose before it,
    and none is after [last_path_time]. *)
Definition path_invariant (this : TransformFusion) : Prop :=
  StronglySorted (fun a b => 1 # 10 < ps_stamp b - ps_stamp a) (poses (imuPath this)) /\
  Forall (fun a => ps_stamp a <= last_path_time this) (poses (imuPath this)).

End Fusion.

(** A concrete display node: transforms that keep the translation only. *)
Module FusionScenario.

Definition frames : Frames :=
  {| lidarFrame := "lidar_link"; baselinkFrame := "base_link"; mapFrame := "map" |}.

Definition transforms : Transforms :=
  {| Affine3f := Vector3;
     Affine3f_inverse := fun a => mkVector3 (- vx a) (- vy a) (- vz a);
     Affine3f_mul := Vector3_add;
     getRPY := fun _ => (0, 0, 0);
     getTransformation := fun x y z _ _ _ => mkVector3 x y z;
     getTranslationAndEulerAngles := fun a => (a, (0, 0, 0));
     createQuaternionMsgFromRollPitchYaw := fun _ _ _ => mkQuaternion 1 0 0 0;
     Transform := Vector3;
     map_to_odom := Vector3_zero;
     poseMsgToTF := fun p _ => p;
     Transform_mul := Vector3_add |}.

(** An IMU odometry message stamped [t] at position [(x, 0, 0)]. *)
Definition imuOdom (t x : Q) : Odometry :=
  {| odom_stamp := t;
     frame_id := "odom";
     child_frame_id := "odom_imu";
     pose_position := mkVector3 x 0 0;
     pose_orientation := mkQuaternion 1 0 0 0;
     covariance0 := 0;
     twist_linear := mkVector3 1 0 0;
     twist_angular := Vector3_zero |}.

(** The state reached by [evs] from the constructor; the constructor's state
    when a callback fails on the way. *)
Definition state_after (evs : list FusionEvent) : TransformFusion :=
  let new :=
    TransformFusion_new (transforms := transforms) Vector3_zero Vector3_zero in
  match fusion_run (params := Scenario.params) (frames := frames) evs new with
  | Some this => this
  | None => new
  end.

End FusionScenario.

(** * Properties *)

(** ** Comparisons and the norm test *)

Lemma Qltb_lt (a b : Q) : (a <? b) = true <-> a < b.
Proof.
  unfold Qltb. rewrite negb_true_iff, <- not_true_iff_false, Qle_bool_iff.
  split; [apply Qnot_le_lt | apply Qlt_not_le].
Qed.

Lemma Qltb_ge (a b : Q) : (a <? b) = false <-> b <= a.
Proof.
  unfold Qltb. rewrite negb_false_iff. apply Qle_bool_iff.
Qed.

Lemma dt_since_bootstrap (last imuTime : Q) :
  last < 0 -> dt_since last imuTime = 1 / 500.
Proof.
  intros Hl. unfold dt_since. apply Qltb_lt in Hl. now rewrite Hl.
Qed.

Lemma dt_since_known (last imuTime : Q) :
  0 <= last -> dt_since last imuTime = imuTime - last.
Proof.
  intros Hl. unfold dt_since. apply Qltb_ge in Hl. now rewrite Hl.
Qed.

Lemma squaredNorm_nonneg (v : Vector3) : 0 <= squaredNorm v.
Proof.
  unfold squaredNorm, Vector3_dot. nra.
Qed.

(** The test on squares is the test on the norm. *)
Lemma norm_exceeds_sqrt (v : Vector3) (c : Q) :
  0 <= c -> norm_exceeds v c = true <-> (Q2R c < norm v)%R.
Proof.
  intros Hc. unfold norm_exceeds, norm. rewrite Qltb_lt.
  assert (Hc' : (0 <= Q2R c)%R) by (rewrite <- RMicromega.Q2R_0; now apply Qle_Rle).
  assert (Hs : (0 <= Q2R (squaredNorm v))%R)
    by (rewrite <- RMicromega.Q2R_0; apply Qle_Rle, squaredNorm_nonneg).
  split; intros H.
  - apply Qlt_Rlt in H. rewrite Q2R_mult in H.
    rewrite <- (sqrt_square (Q2R c)) by assumption.
    apply sqrt_lt_1; try assumption. now apply Rmult_le_pos.
  - apply Rlt_Qlt. rewrite Q2R_mult.
    rewrite <- (sqrt_sqrt (Q2R (squaredNorm v))) by assumption.
    apply Rmult_le_0_lt_compat; assumption.
Qed.

(** [(int) d == 1] holds exactly for [1 <= d < 2]. *)
Lemma int_of_double_one (d : Q) : int_of_double d = 1%Z <-> 1 <= d /\ d < 2.
Proof.
  unfold int_of_double, Qle, Qlt. destruct d as [n p]. cbn [Qnum Qden].
  split.
  - intros H.
    assert (Hn : (0 <= n)%Z).
    { destruct (Z_lt_le_dec n 0) as [Hneg|]; [|assumption].
      pose proof (Z.quot_le_upper_bound n (Zpos p) 0 ltac:(lia) ltac:(lia)). lia. }
    rewrite Z.quot_div_nonneg in H by lia.
    pose proof (Z.mul_div_le n (Zpos p) ltac:(lia)).
    pose proof (Z.mul_succ_div_gt n (Zpos p) ltac:(lia)).
    rewrite H in *. lia.
  - intros [H1 H2].
    rewrite Z.quot_div_nonneg by lia.
    symmetry. apply (Z.div_unique n (Zpos p) 1 (n - Zpos p)); lia.
Qed.

(** ** Single precision *)

Lemma round_half_even_error (q : Q) : Qabs (inject_Z (round_half_even q) - q) <= 1 # 2.
Proof.
  unfold round_half_even.
  pose proof (Qfloor_le q) as Hl. pose proof (Qlt_floor q) as Hu.
  rewrite inject_Z_plus in Hu. change (inject_Z 1) with 1 in Hu.
  apply Qabs_Qle_condition.
  destruct (Qcompare_spec (q - inject_Z (Qfloor q)) (1 # 2)) as [H|H|H].
  - destruct (Z.even (Qfloor q)).
    + split; lra.
    + rewrite inject_Z_plus. change (inject_Z 1) with 1. split; lra.
  - split; lra.
  - rewrite inject_Z_plus. change (inject_Z 1) with 1. split; lra.
Qed.

(** The float copy of a double is a multiple of the spacing of the floats
    around it, and is off by half that spacing at most. *)
Lemma float_of_double_error (d : Q) :
  (exists m : Z, float_of_double d == inject_Z m * float_quantum d) /\
  Qabs (float_of_double d - d) <= float_quantum d * (1 # 2).
Proof.
  unfold float_of_double.
  assert (Hq : 0 < float_quantum d) by (apply Qpower_0_lt; reflexivity).
  destruct (Qeq_bool d 0) eqn:E.
  - apply Qeq_bool_iff in E. split.
    + exists 0%Z. change (inject_Z 0) with 0. lra.
    + apply Qabs_Qle_condition. split; lra.
  - split.
    + eexists. apply Qred_correct.
    + rewrite Qred_correct.
      pose proof (round_half_even_error (d / float_quantum d)) as Hm.
      apply Qabs_Qle_condition in Hm. apply Qabs_Qle_condition.
      assert (Hd : d == d / float_quantum d * float_quantum d)
        by (field; lra).
      revert Hm Hd.
      generalize (inject_Z (round_half_even (d / float_quantum d))) (d / float_quantum d)
        (float_quantum d) Hq.
      intros m x qm Hqm Hm Hd. split; nra.
Qed.

Section Properties.

Context {params : ParamServer} {gtsam : Gtsam} {eigen : Eigen}.

(** ** The loops *)

(** Member accesses on assignments. *)
Ltac members :=
  cbn [set_systemInitialized set_imuIntegratorOpt_ set_imuIntegratorImu_
       set_imuQueOpt set_imuQueImu set_prevPose_ set_prevVel_ set_prevState_
       set_prevBias_ set_prevStateOdom set_prevBiasOdom set_doneFirstOpt
       set_lastImuT_imu set_lastImuT_opt set_optimizer set_graphFactors
       set_graphValues set_key set_rosout
       systemInitialized imuIntegratorOpt_ imuIntegratorImu_ imuQueOpt imuQueImu
       prevPose_ prevVel_ prevState_ prevBias_ prevStateOdom prevBiasOdom
       doneFirstOpt lastImuT_imu lastImuT_opt optimizer graphFactors graphValues
       key rosout].

(** Unfolds the straight-line blocks, the assignments and the member
    accesses, and nothing of the arithmetic. *)
Ltac run_blocks :=
  cbv [bind ret gets modify throw final_state
       ROS_WARN graphFactors_add graphValues_insert optimizer_update
       resetOptimization resetParams resetGraph optimize
       set_systemInitialized set_imuIntegratorOpt_ set_imuIntegratorImu_
       set_imuQueOpt set_imuQueImu set_prevPose_ set_prevVel_ set_prevState_
       set_prevBias_ set_prevStateOdom set_prevBiasOdom set_doneFirstOpt
       set_lastImuT_imu set_lastImuT_opt set_optimizer set_graphFactors
       set_graphValues set_key set_rosout
       systemInitialized imuIntegratorOpt_ imuIntegratorImu_ imuQueOpt imuQueImu
       prevPose_ prevVel_ prevState_ prevBias_ prevStateOdom prevBiasOdom
       doneFirstOpt lastImuT_imu lastImuT_opt optimizer graphFactors graphValues
       key rosout].

Lemma Returned_inj {A : Type} (a a' : A) (st st' : State) :
  Returned a st = Returned a' st' -> st = st'.
Proof. now intros [= _ ->]. Qed.

Lemma Thrown_inj {A : Type} (e e' : Exception) (st st' : State) :
  @Thrown A e st = Thrown e' st' -> st = st'.
Proof. now intros [= _ ->]. Qed.

(** The initialisation drain (lines 313-322) always returns: it leaves what
    [drop_older] leaves, and [lastImuT_opt] is the stamp of the last sample
    removed. *)
Lemma popOldImuOpt_spec (t : Q) (q : list Imu) (st : State) :
  imuQueOpt st = q ->
  popOldImuOpt t q st =
    Returned tt (set_imuQueOpt (drop_older t q)
                   (set_lastImuT_opt (last_stamp (take_older t q) (lastImuT_opt st)) st)).
Proof.
  revert st. induction q as [|m q IH]; intros st Hq;
    cbn [popOldImuOpt take_older drop_older last_stamp].
  - destruct st; cbn in *; subst; reflexivity.
  - destruct (ROS_TIME m <? t - delta_t) eqn:E.
    + unfold bind at 1 2. cbn [modify last_stamp]. rewrite IH by reflexivity.
      destruct st; reflexivity.
    + destruct st; cbn in *; subst; reflexivity.
Qed.

(** The drain of the hand-off (lines 441-446) always returns [lastImuQT]. *)
Lemma popOldImuImu_spec (t : Q) (q : list Imu) (last : Q) (st : State) :
  imuQueImu st = q ->
  popOldImuImu t q last st =
    Returned (last_stamp (take_older t q) last) (set_imuQueImu (drop_older t q) st).
Proof.
  revert st last. induction q as [|m q IH]; intros st last Hq;
    cbn [popOldImuImu take_older drop_older last_stamp].
  - destruct st; cbn in *; subst; reflexivity.
  - destruct (ROS_TIME m <? t - delta_t) eqn:E.
    + unfold bind at 1. cbn [modify last_stamp]. rewrite IH by reflexivity.
      destruct st; reflexivity.
    + destruct st; cbn in *; subst; reflexivity.
Qed.

Lemma advanced_nil (p : PreintegratedImuMeasurements) : advanced p [] = p.
Proof. destruct p. unfold advanced. cbn. now rewrite app_nil_r. Qed.

Lemma advanced_app (p : PreintegratedImuMeasurements) (l1 l2 : list (Vector3 * Vector3 * Q)) :
  advanced (advanced p l1) l2 = advanced p (l1 ++ l2).
Proof. unfold advanced. cbn. now rewrite app_assoc. Qed.

Lemma integrateMeasurement_Some (acc gyr : Vector3) (dt : Q)
  (p p' : PreintegratedImuMeasurements) :
  integrateMeasurement acc gyr dt p = Some p' <-> 0 < dt /\ p' = advanced p [(acc, gyr, dt)].
Proof.
  unfold integrateMeasurement, advanced.
  destruct (Qle_bool dt 0) eqn:E.
  - apply Qle_bool_iff in E. split; [discriminate | intros [H _]; lra].
  - assert (0 < dt) by (apply Qltb_lt; unfold Qltb; now rewrite E).
    split; [intros [= <-]; now split | intros [_ ->]; reflexivity].
Qed.

Lemma integrateMeasurement_None (acc gyr : Vector3) (dt : Q)
  (p : PreintegratedImuMeasurements) :
  integrateMeasurement acc gyr dt p = None <-> dt <= 0.
Proof.
  unfold integrateMeasurement. destruct (Qle_bool dt 0) eqn:E.
  - apply Qle_bool_iff in E. now split.
  - split; [discriminate|]. intros H. apply Qle_bool_iff in H. congruence.
Qed.

(** The re-integration loop (lines 453-462), when it returns, has advanced
    the forward preintegrator by the samples of [q], in order, and touched
    nothing else. *)
Lemma reintegrate_Returned (q : list Imu) (last : Q) (st st' : State) :
  reintegrate q last st = Returned tt st' ->
  st' = set_imuIntegratorImu_ (advanced (imuIntegratorImu_ st) (samples_with_dt last q)) st.
Proof.
  revert st last. induction q as [|m q IH]; intros st last H;
    cbn [reintegrate samples_with_dt] in *.
  - injection H as <-. rewrite advanced_nil. destruct st; reflexivity.
  - unfold bind at 1 in H. unfold integrateMeasurement_Imu in H.
    destruct (integrateMeasurement _ _ _ (imuIntegratorImu_ st)) as [p|] eqn:E;
      [|discriminate].
    apply integrateMeasurement_Some in E as [_ ->].
    apply IH in H. subst st'. cbn [imuIntegratorImu_ set_imuIntegratorImu_].
    rewrite advanced_app. destruct st; reflexivity.
Qed.

(** When it throws, only the forward preintegrator has changed. *)
Lemma reintegrate_Thrown (q : list Imu) (last : Q) (e : Exception) (st st' : State) :
  reintegrate q last st = Thrown e st' ->
  exists p, st' = set_imuIntegratorImu_ p st.
Proof.
  revert st last. induction q as [|m q IH]; intros st last H; cbn [reintegrate] in *.
  - discriminate.
  - unfold bind at 1 in H. unfold integrateMeasurement_Imu in H.
    destruct (integrateMeasurement _ _ _ (imuIntegratorImu_ st)) as [p|] eqn:E.
    + apply IH in H as [p' ->]. exists p'. destruct st; reflexivity.
    + injection H as _ <-. exists (imuIntegratorImu_ st). destruct st; reflexivity.
Qed.

(** The re-integration loop returns when every [dt] is positive. *)
Lemma reintegrate_returns (q : list Imu) (last : Q) (st : State) :
  positive_dts last q -> exists st', reintegrate q last st = Returned tt st'.
Proof.
  revert st last. induction q as [|m q IH]; intros st last H; cbn [reintegrate].
  - eexists; reflexivity.
  - unfold positive_dts in H. cbn [samples_with_dt] in H. inversion H as [|? ? Hd Hq]; subst.
    cbn [snd] in Hd. unfold bind at 1, integrateMeasurement_Imu.
    destruct (integrateMeasurement _ _ _ (imuIntegratorImu_ st)) as [p|] eqn:E.
    + apply IH. exact Hq.
    + apply integrateMeasurement_None in E. lra.
Qed.

(** The optimization drain (lines 383-400), when it returns, has removed the
    samples older than the correction and integrated them, in order, on the
    optimization preintegrator. *)
Lemma integrateImuOpt_Returned (t : Q) (q : list Imu) (st st' : State) :
  imuQueOpt st = q ->
  integrateImuOpt t q st = Returned tt st' ->
  st' = set_imuQueOpt (drop_older t q)
          (set_lastImuT_opt (last_stamp (take_older t q) (lastImuT_opt st))
             (set_imuIntegratorOpt_
                (advanced (imuIntegratorOpt_ st)
                   (samples_with_dt (lastImuT_opt st) (take_older t q))) st)).
Proof.
  revert st. induction q as [|m q IH]; intros st Hq H;
    cbn [integrateImuOpt take_older drop_older last_stamp samples_with_dt] in *.
  - injection H as <-. rewrite advanced_nil. destruct st; cbn in *; subst; reflexivity.
  - destruct (ROS_TIME m <? t - delta_t) eqn:E.
    + unfold bind at 1 2 in H. cbn [gets] in H. unfold integrateMeasurement_Opt in H.
      destruct (integrateMeasurement _ _ _ (imuIntegratorOpt_ st)) as [p|] eqn:Ei;
        [|discriminate].
      apply integrateMeasurement_Some in Ei as [_ ->].
      unfold bind at 1 2 in H. cbn [modify] in H.
      apply IH in H; [|reflexivity]. subst st'.
      destruct st; cbn -[advanced drop_older take_older].
      rewrite advanced_app. reflexivity.
    + injection H as <-. rewrite advanced_nil. destruct st; cbn in *; subst; reflexivity.
Qed.

(** When it throws, the samples before the offending one have been
    integrated and popped; the offending sample is still at the front of
    [imuQueOpt], older than the correction, and its [dt] is not positive. *)
Lemma integrateImuOpt_Thrown (t : Q) (q : list Imu) (e : Exception) (st st' : State) :
  imuQueOpt st = q ->
  integrateImuOpt t q st = Thrown e st' ->
  exists done m rest,
    q = done ++ m :: rest /\
    st' = set_imuQueOpt (m :: rest)
            (set_lastImuT_opt (last_stamp done (lastImuT_opt st))
               (set_imuIntegratorOpt_
                  (advanced (imuIntegratorOpt_ st)
                     (samples_with_dt (lastImuT_opt st) done)) st)) /\
    ROS_TIME m < t - delta_t /\
    dt_since (last_stamp done (lastImuT_opt st)) (ROS_TIME m) <= 0.
Proof.
  revert st. induction q as [|m q IH]; intros st Hq H; cbn [integrateImuOpt] in *.
  - discriminate.
  - destruct (ROS_TIME m <? t - delta_t) eqn:E; [|discriminate].
    unfold bind at 1 2 in H. cbn [gets] in H. unfold integrateMeasurement_Opt in H.
    destruct (integrateMeasurement _ _ _ (imuIntegratorOpt_ st)) as [p|] eqn:Ei.
    + apply integrateMeasurement_Some in Ei as [_ ->].
      unfold bind at 1 2 in H. cbn [modify] in H.
      apply IH in H; [|reflexivity].
      destruct H as (done & m' & rest & -> & -> & Hm & Hd).
      exists (m :: done), m', rest. repeat split; try assumption.
      destruct st; cbn -[advanced]. rewrite advanced_app. reflexivity.
    + injection H as _ <-. apply integrateMeasurement_None in Ei.
      exists [], m, q. cbn [last_stamp samples_with_dt app]. rewrite advanced_nil.
      repeat split; try assumption.
      * destruct st; cbn in *; subst; reflexivity.
      * now apply Qltb_lt.
Qed.

(** ** Straight-line blocks *)

Lemma resetGraph_returns (st : State) :
  resetGraph st = Returned tt (final_state (resetGraph st)).
Proof. reflexivity. Qed.

Lemma optimize_returns (lidarPose : Pose3) (degenerate : bool) (st : State) :
  optimize lidarPose degenerate st =
    Returned tt (final_state (optimize lidarPose degenerate st)).
Proof. run_blocks. reflexivity. Qed.

Lemma resetParams_returns (st : State) :
  resetParams st =
    Returned tt (set_systemInitialized false
                   (set_doneFirstOpt false (set_lastImuT_imu (-1) st))).
Proof. reflexivity. Qed.

(** The failure check returns; it logs one warning when it reports failure
    and nothing otherwise. *)
Lemma failureDetection_cases (velCur : Vector3) (biasCur : ConstantBias) (st : State) :
  (exists w, failureDetection velCur biasCur st
             = Returned true (set_rosout (rosout st ++ [w]) st)) \/
  failureDetection velCur biasCur st = Returned false st.
Proof.
  unfold failureDetection.
  destruct (30 <? _); [left; eexists; reflexivity|].
  destruct ((1 <? _) || (1 <? _))%bool;
    [left; eexists; reflexivity | right; reflexivity].
Qed.

Lemma Vector3_eta (v : Vector3) : mkVector3 (vx v) (vy v) (vz v) = v.
Proof. now destruct v. Qed.

(** What the failure check tests: the norms, as Eigen computes them, of the
    single-precision copies. *)
Lemma failureDetection_result (velCur : Vector3) (biasCur : ConstantBias)
  (st st' : State) (r : bool) :
  failureDetection velCur biasCur st = Returned r st' ->
  r = ((30 <? Vector3f_norm (float_copy velCur))
       || ((1 <? Vector3f_norm (float_copy (accelerometer biasCur)))
           || (1 <? Vector3f_norm (float_copy (gyroscope biasCur)))))%bool.
Proof.
  unfold failureDetection, float_copy.
  destruct (30 <? _); [intros [= <- _]; reflexivity|].
  destruct ((1 <? _) || (1 <? _))%bool; intros [= <- _]; reflexivity.
Qed.

(** With a non-empty queue and the system initialised, the handler resets
    the graph if it is due and goes on to process the pose. *)
Lemma odometryHandler_initialized (odomMsg : Odometry) (st : State) :
  imuQueOpt st <> [] ->
  systemInitialized st = true ->
  odometryHandler odomMsg st =
    processLidarPose (ROS_TIME odomMsg) (lidarPose_of odomMsg) (degenerate_of odomMsg)
      (afterResetGraph st).
Proof.
  intros Hq Hi. unfold odometryHandler, afterResetGraph, bind at 1. cbn [gets].
  destruct (imuQueOpt st) as [|m q]; [congruence|].
  unfold bind at 1. cbn [gets]. rewrite Hi.
  unfold bind at 1 2. cbn [gets].
  destruct (key st =? 100)%Z; reflexivity.
Qed.

(** The outcomes of [processLidarPose], by the outcome of the drain and of
    the failure check. *)
Lemma processLidarPose_drain_throws (t : Q) (lidarPose : Pose3) (degenerate : bool)
  (st : State) (e : Exception) (st' : State) :
  integrateImuOpt t (imuQueOpt st) st = Thrown e st' ->
  processLidarPose t lidarPose degenerate st = Thrown e st'.
Proof.
  intros H. unfold processLidarPose, integrateAndOptimize, bind at 1 2 3. cbn [gets].
  now rewrite H.
Qed.

Lemma processLidarPose_drained (t : Q) (lidarPose : Pose3) (degenerate : bool)
  (st st2 : State) :
  integrateImuOpt t (imuQueOpt st) st = Returned tt st2 ->
  processLidarPose t lidarPose degenerate st =
    let st3 := final_state (optimize lidarPose degenerate st2) in
    match failureDetection (prevVel_ st3) (prevBias_ st3) st3 with
    | Returned true st4 =>
        Returned Failed
          (set_systemInitialized false (set_doneFirstOpt false (set_lastImuT_imu (-1) st4)))
    | Returned false st4 =>
        match repropagate t st4 with
        | Returned _ st5 => Returned Optimized st5
        | Thrown e st5 => Thrown e st5
        end
    | Thrown e st4 => Thrown e st4
    end.
Proof.
  intros H. cbn zeta.
  set (st3 := final_state (optimize lidarPose degenerate st2)).
  unfold processLidarPose, integrateAndOptimize, bind at 1 2 3. cbn [gets].
  rewrite H. change (optimize lidarPose degenerate st2) with (Returned tt st3).
  unfold bind at 1 2. cbn [gets].
  destruct (failureDetection_cases (prevVel_ st3) (prevBias_ st3) st3) as [[w Hf]|Hf].
  - unfold bind at 1. rewrite Hf. reflexivity.
  - unfold bind at 1. rewrite Hf. unfold bind at 1.
    destruct (repropagate t st3); reflexivity.
Qed.

(** The hand-off (lines 437-466), when it returns: the seed is the optimized
    state and bias, [imuQueImu] has lost the samples older than the
    correction, and the forward preintegrator is reset and advanced by the
    remaining samples if there are any, and untouched if there are none. *)
Lemma repropagate_Returned (t : Q) (st st' : State) :
  repropagate t st = Returned tt st' ->
  let rest := drop_older t (imuQueImu st) in
  let lastImuQT := last_stamp (take_older t (imuQueImu st)) (-1) in
  st' = set_doneFirstOpt true
          (set_key (key st + 1)%Z
             (set_imuIntegratorImu_
                match rest with
                | [] => imuIntegratorImu_ st
                | _ :: _ => mkPreintegrated (prevBias_ st) (samples_with_dt lastImuQT rest)
                end
                (set_imuQueImu rest
                   (set_prevBiasOdom (prevBias_ st)
                      (set_prevStateOdom (prevState_ st) st))))).
Proof.
  cbn zeta. unfold repropagate, bind at 1 2 3 4. cbn [modify gets].
  rewrite popOldImuImu_spec by reflexivity.
  unfold bind at 1. cbn [gets].
  change (imuQueImu (set_prevBiasOdom _ _)) with (imuQueImu st).
  change (imuQueImu (set_imuQueImu ?r _)) with r.
  destruct (drop_older t (imuQueImu st)) as [|m rest] eqn:Er.
  - intros H. apply Returned_inj in H. subst st'. destruct st; reflexivity.
  - unfold bind at 1 2. cbn [modify].
    match goal with |- context [reintegrate ?q ?l ?s] =>
      destruct (reintegrate q l s) as [[] st5|e st5] eqn:Eri end; [|discriminate].
    apply reintegrate_Returned in Eri. subst st5.
    intros H. apply Returned_inj in H. subst st'. destruct st; reflexivity.
Qed.

(** When the hand-off throws, it is in the re-integration: the seed and the
    queue are already updated, [key] and [doneFirstOpt] are not. *)
Lemma repropagate_Thrown (t : Q) (e : Exception) (st st' : State) :
  repropagate t st = Thrown e st' ->
  exists p,
    st' = set_imuIntegratorImu_ p
            (set_imuQueImu (drop_older t (imuQueImu st))
               (set_prevBiasOdom (prevBias_ st) (set_prevStateOdom (prevState_ st) st))).
Proof.
  unfold repropagate, bind at 1 2 3 4. cbn [modify gets].
  rewrite popOldImuImu_spec by reflexivity.
  unfold bind at 1. cbn [gets].
  change (imuQueImu (set_prevBiasOdom _ _)) with (imuQueImu st).
  change (imuQueImu (set_imuQueImu ?r _)) with r.
  destruct (drop_older t (imuQueImu st)) as [|m rest] eqn:Er.
  - discriminate.
  - unfold bind at 1 2. cbn [modify].
    match goal with |- context [reintegrate ?q ?l ?s] =>
      destruct (reintegrate q l s) as [[] st5|e5 st5] eqn:Eri end; [discriminate|].
    apply reintegrate_Thrown in Eri as [p ->].
    intros [= _ <-]. exists p. destruct st; reflexivity.
Qed.

(** The hand-off returns when the samples it re-integrates have positive
    [dt]'s. *)
Lemma repropagate_returns (t : Q) (st : State) :
  positive_dts (last_stamp (take_older t (imuQueImu st)) (-1))
               (drop_older t (imuQueImu st)) ->
  exists st', repropagate t st = Returned tt st'.
Proof.
  intros Hp. unfold repropagate, bind at 1 2 3 4. cbn [modify gets].
  rewrite popOldImuImu_spec by reflexivity.
  unfold bind at 1. cbn [gets].
  change (imuQueImu (set_prevBiasOdom _ _)) with (imuQueImu st) in *.
  change (imuQueImu (set_imuQueImu ?r _)) with r.
  destruct (drop_older t (imuQueImu st)) as [|m rest] eqn:Er.
  - eexists; reflexivity.
  - unfold bind at 1 2. cbn [modify].
    match goal with |- context [reintegrate ?q ?l ?s] =>
      destruct (reintegrate_returns q l s Hp) as [st5 ->] end.
    eexists; reflexivity.
Qed.

(** ** The handler, by the [return] it takes *)

Lemma odometryHandler_empty (odomMsg : Odometry) (st : State) :
  imuQueOpt st = [] -> odometryHandler odomMsg st = Returned Dropped st.
Proof.
  intros Hq. unfold odometryHandler, bind at 1. cbn [gets]. now rewrite Hq.
Qed.

Lemma initializeSystem_returns (t : Q) (lidarPose : Pose3) (st : State) :
  initializeSystem t lidarPose st =
    Returned tt (final_state (initializeSystem t lidarPose st)).
Proof.
  cbv [initializeSystem resetOptimization bind modify gets].
  rewrite popOldImuOpt_spec by reflexivity. reflexivity.
Qed.

Lemma odometryHandler_uninitialized (odomMsg : Odometry) (st : State) :
  imuQueOpt st <> [] ->
  systemInitialized st = false ->
  odometryHandler odomMsg st =
    Returned Initialized
      (final_state (initializeSystem (ROS_TIME odomMsg) (lidarPose_of odomMsg) st)).
Proof.
  intros Hq Hi. unfold odometryHandler, bind at 1. cbn [gets].
  destruct (imuQueOpt st) as [|m q]; [congruence|].
  unfold bind at 1. cbn [gets]. rewrite Hi.
  unfold bind at 1. rewrite initializeSystem_returns. reflexivity.
Qed.

(** The fields of the state after initialisation. *)
Lemma initializeSystem_queue (t : Q) (lidarPose : Pose3) (st : State) :
  imuQueOpt (final_state (initializeSystem t lidarPose st)) = drop_older t (imuQueOpt st).
Proof.
  cbv [initializeSystem resetOptimization bind modify gets].
  rewrite popOldImuOpt_spec by reflexivity. reflexivity.
Qed.
(** A return through the failure branch. *)
Lemma odometryHandler_Failed (odomMsg : Odometry) (st st' : State) :
  odometryHandler odomMsg st = Returned Failed st' ->
  imuQueOpt st <> [] /\ systemInitialized st = true /\
  exists st2 w,
    integrateImuOpt (ROS_TIME odomMsg) (imuQueOpt (afterResetGraph st)) (afterResetGraph st)
      = Returned tt st2 /\
    let st3 := final_state (optimize (lidarPose_of odomMsg) (degenerate_of odomMsg) st2) in
    failureDetection (prevVel_ st3) (prevBias_ st3) st3
      = Returned true (set_rosout (rosout st3 ++ [w]) st3) /\
    st' = set_systemInitialized false
            (set_doneFirstOpt false
               (set_lastImuT_imu (-1) (set_rosout (rosout st3 ++ [w]) st3))).
Proof.
  intros H.
  destruct (imuQueOpt st) as [|m q] eqn:Eq.
  { rewrite odometryHandler_empty in H by assumption. discriminate. }
  assert (Hq : imuQueOpt st <> []) by congruence.
  destruct (systemInitialized st) eqn:Ei.
  2:{ rewrite odometryHandler_uninitialized in H by assumption. discriminate. }
  split; [congruence|]. split; [reflexivity|].
  rewrite odometryHandler_initialized in H by assumption.
  destruct (integrateImuOpt (ROS_TIME odomMsg) (imuQueOpt (afterResetGraph st))
              (afterResetGraph st)) as [[] st2|e st2] eqn:Ed.
  2:{ rewrite (processLidarPose_drain_throws _ _ _ _ _ _ Ed) in H. discriminate. }
  rewrite (processLidarPose_drained _ _ _ _ _ Ed) in H. cbn zeta in H.
  exists st2.
  set (st3 := final_state (optimize (lidarPose_of odomMsg) (degenerate_of odomMsg) st2)) in *.
  destruct (failureDetection_cases (prevVel_ st3) (prevBias_ st3) st3) as [[w Hf]|Hf];
    rewrite Hf in H.
  - exists w. split; [reflexivity|]. cbn zeta. split; [exact Hf|]. now injection H as <-.
  - destruct (repropagate (ROS_TIME odomMsg) st3); discriminate.
Qed.

(** A return at the end of the handler. *)
Lemma odometryHandler_Optimized (odomMsg : Odometry) (st st' : State) :
  odometryHandler odomMsg st = Returned Optimized st' ->
  imuQueOpt st <> [] /\ systemInitialized st = true /\
  exists st2,
    integrateImuOpt (ROS_TIME odomMsg) (imuQueOpt (afterResetGraph st)) (afterResetGraph st)
      = Returned tt st2 /\
    let st3 := final_state (optimize (lidarPose_of odomMsg) (degenerate_of odomMsg) st2) in
    failureDetection (prevVel_ st3) (prevBias_ st3) st3 = Returned false st3 /\
    repropagate (ROS_TIME odomMsg) st3 = Returned tt st'.
Proof.
  intros H.
  destruct (imuQueOpt st) as [|m q] eqn:Eq.
  { rewrite odometryHandler_empty in H by assumption. discriminate. }
  assert (Hq : imuQueOpt st <> []) by congruence.
  destruct (systemInitialized st) eqn:Ei.
  2:{ rewrite odometryHandler_uninitialized in H by assumption. discriminate. }
  split; [congruence|]. split; [reflexivity|].
  rewrite odometryHandler_initialized in H by assumption.
  destruct (integrateImuOpt (ROS_TIME odomMsg) (imuQueOpt (afterResetGraph st))
              (afterResetGraph st)) as [[] st2|e st2] eqn:Ed.
  2:{ rewrite (processLidarPose_drain_throws _ _ _ _ _ _ Ed) in H. discriminate. }
  rewrite (processLidarPose_drained _ _ _ _ _ Ed) in H. cbn zeta in H.
  exists st2. split; [reflexivity|]. cbn zeta.
  set (st3 := final_state (optimize (lidarPose_of odomMsg) (degenerate_of odomMsg) st2)) in *.
  destruct (failureDetection_cases (prevVel_ st3) (prevBias_ st3) st3) as [[w Hf]|Hf];
    rewrite Hf in H; [discriminate|].
  split; [exact Hf|].
  destruct (repropagate (ROS_TIME odomMsg) st3) as [[] st5|e st5]; [|discriminate].
  now injection H as <-.
Qed.


(** The graph reset touches the smoother, the graph and [key] only. *)
Lemma afterResetGraph_frame (st : State) :
  afterResetGraph st =
    set_key (key (afterResetGraph st))
      (set_graphValues (graphValues (afterResetGraph st))
         (set_graphFactors (graphFactors (afterResetGraph st))
            (set_optimizer (optimizer (afterResetGraph st)) st))).
Proof.
  unfold afterResetGraph. destruct (key st =? 100)%Z; destruct st; run_blocks; reflexivity.
Qed.

(** ** Failure detection *)

Lemma norm_exceeds_norm (v : Vector3) (c : Q) (r : R) :
  0 <= c -> Q2R c = r -> norm_exceeds v c = true <-> (r < norm v)%R.
Proof. intros Hc <-. now apply norm_exceeds_sqrt. Qed.

Lemma Q2R_30 : Q2R 30 = 30%R.
Proof. unfold Q2R. cbn. Lra.lra. Qed.

Lemma Q2R_1 : Q2R 1 = 1%R.
Proof. unfold Q2R. cbn. Lra.lra. Qed.

(** The value the failure check returns, in terms of the norms. *)
Lemma failureDetection_norms (velCur : Vector3) (biasCur : ConstantBias)
  (st st' : State) (r : bool) :
  failureDetection velCur biasCur st = Returned r st' ->
  r = true <->
  30 < Vector3f_norm (float_copy velCur) \/
  1 < Vector3f_norm (float_copy (accelerometer biasCur)) \/
  1 < Vector3f_norm (float_copy (gyroscope biasCur)).
Proof.
  intros H. apply failureDetection_result in H. subst r.
  rewrite !orb_true_iff, !Qltb_lt. reflexivity.
Qed.

Lemma integrateAndOptimize_Returned (t : Q) (lidarPose : Pose3) (degenerate : bool)
  (st st3 : State) :
  integrateAndOptimize t lidarPose degenerate st = Returned tt st3 ->
  exists st2,
    integrateImuOpt t (imuQueOpt st) st = Returned tt st2 /\
    st3 = final_state (optimize lidarPose degenerate st2).
Proof.
  unfold integrateAndOptimize, bind at 1 2. cbn [gets].
  destruct (integrateImuOpt t (imuQueOpt st) st) as [[] st2|e st2]; [|discriminate].
  rewrite optimize_returns. intros H. apply Returned_inj in H. subst st3.
  exists st2. split; reflexivity.
Qed.


(** ** The failure branch leaves the forward propagator alone *)

(** The state in which the failure check runs, in terms of the state at
    entry of the handler: only the members of the optimization side have
    changed. *)
Lemma optimized_state_frame (t : Q) (lidarPose : Pose3) (degenerate : bool)
  (st st2 : State) :
  integrateImuOpt t (imuQueOpt (afterResetGraph st)) (afterResetGraph st) = Returned tt st2 ->
  let st3 := final_state (optimize lidarPose degenerate st2) in
  prevStateOdom st3 = prevStateOdom st /\
  prevBiasOdom st3 = prevBiasOdom st /\
  imuQueImu st3 = imuQueImu st /\
  imuIntegratorImu_ st3 = imuIntegratorImu_ st /\
  key st3 = key (afterResetGraph st) /\
  doneFirstOpt st3 = doneFirstOpt st /\
  lastImuT_imu st3 = lastImuT_imu st /\
  rosout st3 = rosout st /\
  imuQueOpt st3 = drop_older t (imuQueOpt st) /\
  imuIntegratorOpt_ st3 = mkPreintegrated (prevBias_ st3) [] /\
  systemInitialized st3 = systemInitialized st.
Proof.
  intros Hd. apply integrateImuOpt_Returned in Hd; [|reflexivity]. subst st2.
  cbn zeta. pose proof (afterResetGraph_frame st) as Hf. revert Hf.
  generalize (key (afterResetGraph st)) (optimizer (afterResetGraph st))
    (graphFactors (afterResetGraph st)) (graphValues (afterResetGraph st)).
  intros k o f v ->. destruct st. run_blocks. repeat split.
Qed.

(** C8: when the failure check reports failure, [odometryHandler] returns
    before the hand-off: the seed of the forward propagator
    ([prevStateOdom], [prevBiasOdom]), the queue [imuQueImu] and the forward
    preintegrator are those of the entry state, and [key] is what it was
    when the optimization started (the entry value, or 1 when the graph was
    reset at [key == 100] first); [doneFirstOpt] is cleared. *)
Theorem failure_returns_before_handoff (odomMsg : Odometry) (st st' : State) :
  odometryHandler odomMsg st = Returned Failed st' ->
  prevStateOdom st' = prevStateOdom st /\
  prevBiasOdom st' = prevBiasOdom st /\
  imuQueImu st' = imuQueImu st /\
  imuIntegratorImu_ st' = imuIntegratorImu_ st /\
  key st' = key (afterResetGraph st) /\
  (key st <> 100%Z -> key st' = key st) /\
  doneFirstOpt st' = false.
Proof.
  intros H. apply odometryHandler_Failed in H as (_ & _ & st2 & w & Hd & _ & ->).
  pose proof (optimized_state_frame _ (lidarPose_of odomMsg) (degenerate_of odomMsg) _ _ Hd)
    as (Hs & Hb & Hq & Hp & Hk & _).
  cbn zeta in *.
  remember (final_state (optimize (lidarPose_of odomMsg) (degenerate_of odomMsg) st2))
    as st3 eqn:E3.
  clear E3 Hd. members. repeat split; try assumption.
  intros Hk'. apply Z.eqb_neq in Hk'. rewrite Hk. unfold afterResetGraph. now rewrite Hk'.
Qed.

(** ** The hand-off to the forward propagator *)

(** The hand-off of lines 437-463 as the code performs it: when
    [odometryHandler] reaches the hand-off and returns,
    the seed of the forward propagator is the optimized state and bias, the
    optimization preintegrator is reset with that bias, and [imuQueImu] holds
    the samples left by the drain; if any sample is left, the forward
    preintegrator is reset with the same bias and has integrated the samples
    left, in order; if none is left, the forward preintegrator is not reset:
    it is as it was at entry. *)
Theorem handoff_resets_and_reintegrates (odomMsg : Odometry) (st st' : State) :
  odometryHandler odomMsg st = Returned Optimized st' ->
  let t := ROS_TIME odomMsg in
  let rest := drop_older t (imuQueImu st) in
  let lastImuQT := last_stamp (take_older t (imuQueImu st)) (-1) in
  imuQueImu st' = rest /\
  prevStateOdom st' = prevState_ st' /\
  prevBiasOdom st' = prevBias_ st' /\
  imuIntegratorOpt_ st' = mkPreintegrated (prevBias_ st') [] /\
  (rest <> [] ->
   imuIntegratorImu_ st' = mkPreintegrated (prevBias_ st') (samples_with_dt lastImuQT rest)) /\
  (rest = [] -> imuIntegratorImu_ st' = imuIntegratorImu_ st).
Proof.
  intros H. apply odometryHandler_Optimized in H as (_ & _ & st2 & Hd & _ & Hr).
  pose proof (optimized_state_frame _ (lidarPose_of odomMsg) (degenerate_of odomMsg) _ _ Hd)
    as (_ & _ & Hq & Hp & _ & _ & _ & _ & _ & Hio & _).
  cbn zeta in *.
  remember (final_state (optimize (lidarPose_of odomMsg) (degenerate_of odomMsg) st2))
    as st3 eqn:E3.
  clear E3 Hd. apply repropagate_Returned in Hr. cbn zeta in Hr. subst st'.
  destruct st3. members.
  cbn [imuQueImu imuIntegratorImu_ imuIntegratorOpt_ prevBias_] in Hq, Hp, Hio. subst.
  repeat split; destruct (drop_older (ROS_TIME odomMsg) (imuQueImu st)); congruence.
Qed.

(** ** Queue hygiene *)

(** On every return, [imuQueOpt] is what the drain leaves of the queue at
    entry. *)
Lemma odometryHandler_queue (odomMsg : Odometry) (st st' : State) (br : Branch) :
  odometryHandler odomMsg st = Returned br st' ->
  imuQueOpt st' = drop_older (ROS_TIME odomMsg) (imuQueOpt st).
Proof.
  intros H. destruct br.
  - destruct (imuQueOpt st) as [|m q] eqn:Eq.
    + rewrite odometryHandler_empty in H by assumption.
      apply Returned_inj in H. subst st'. now rewrite Eq.
    + assert (Hq : imuQueOpt st <> []) by congruence.
      destruct (systemInitialized st) eqn:Ei.
      * rewrite odometryHandler_initialized in H by assumption.
        destruct (integrateImuOpt (ROS_TIME odomMsg) (imuQueOpt (afterResetGraph st))
                    (afterResetGraph st)) as [[] st2|e st2] eqn:Ed.
        -- rewrite (processLidarPose_drained _ _ _ _ _ Ed) in H. cbn zeta in H.
           destruct (failureDetection _ _ _) as [[] st4|e st4]; try discriminate.
           destruct (repropagate _ st4); discriminate.
        -- rewrite (processLidarPose_drain_throws _ _ _ _ _ _ Ed) in H. discriminate.
      * rewrite odometryHandler_uninitialized in H by assumption. discriminate.
  - destruct (imuQueOpt st) as [|m q] eqn:Eq.
    + rewrite odometryHandler_empty in H by assumption. discriminate.
    + assert (Hq : imuQueOpt st <> []) by congruence.
      destruct (systemInitialized st) eqn:Ei.
      * rewrite odometryHandler_initialized in H by assumption.
        destruct (integrateImuOpt (ROS_TIME odomMsg) (imuQueOpt (afterResetGraph st))
                    (afterResetGraph st)) as [[] st2|e st2] eqn:Ed.
        -- rewrite (processLidarPose_drained _ _ _ _ _ Ed) in H. cbn zeta in H.
           destruct (failureDetection _ _ _) as [[] st4|e st4]; try discriminate.
           destruct (repropagate _ st4); discriminate.
        -- rewrite (processLidarPose_drain_throws _ _ _ _ _ _ Ed) in H. discriminate.
      * rewrite odometryHandler_uninitialized in H by assumption.
        apply Returned_inj in H. subst st'. rewrite initializeSystem_queue. now rewrite Eq.
  - apply odometryHandler_Failed in H as (_ & _ & st2 & w & Hd & _ & ->).
    pose proof (optimized_state_frame _ (lidarPose_of odomMsg) (degenerate_of odomMsg) _ _ Hd)
      as (_ & _ & _ & _ & _ & _ & _ & _ & Hqo & _).
    cbn zeta in Hqo.
    remember (final_state (optimize (lidarPose_of odomMsg) (degenerate_of odomMsg) st2))
      as st3 eqn:E3.
    clear E3 Hd. destruct st3. members. exact Hqo.
  - apply odometryHandler_Optimized in H as (_ & _ & st2 & Hd & _ & Hr).
    pose proof (optimized_state_frame _ (lidarPose_of odomMsg) (degenerate_of odomMsg) _ _ Hd)
      as (_ & _ & _ & _ & _ & _ & _ & _ & Hqo & _).
    cbn zeta in *.
    remember (final_state (optimize (lidarPose_of odomMsg) (degenerate_of odomMsg) st2))
      as st3 eqn:E3.
    clear E3 Hd. apply repropagate_Returned in Hr. cbn zeta in Hr. subst st'.
    destruct st3. members. exact Hqo.
Qed.

(** In a queue with non-decreasing stamps, the drain leaves no sample older
    than the correction. *)
Lemma drop_older_sorted (t : Q) (q : list Imu) :
  sorted_stamps q -> Forall (fun m => ~ ROS_TIME m < t) (drop_older t q).
Proof.
  unfold sorted_stamps. induction 1 as [|m q Hs IH Hm]; cbn [drop_older].
  - constructor.
  - destruct (ROS_TIME m <? t - delta_t) eqn:E; [exact IH|].
    apply Qltb_ge in E. unfold delta_t in E.
    constructor.
    + lra.
    + rewrite Forall_forall in *. intros x Hx. specialize (Hm x Hx). cbv beta in Hm. lra.
Qed.

(** C6, as amended: if the samples in [imuQueOpt] carry non-decreasing
    stamps when [odometryHandler] is called with a lidar pose stamped [t],
    then on return, through whichever branch, [imuQueOpt] holds no sample
    stamped before [t]. *)
Theorem queue_hygiene_sorted (odomMsg : Odometry) (st st' : State) (br : Branch) :
  sorted_stamps (imuQueOpt st) ->
  odometryHandler odomMsg st = Returned br st' ->
  Forall (fun m => ~ ROS_TIME m < ROS_TIME odomMsg) (imuQueOpt st').
Proof.
  intros Hs H. rewrite (odometryHandler_queue _ _ _ _ H). now apply drop_older_sorted.
Qed.

(** ** Samples with a non-positive [dt] *)

(** The drain throws at the first sample, older than the correction, whose
    [dt] is not positive; the samples before it have been integrated and
    popped, and it stays at the front of the queue. *)
Lemma integrateImuOpt_throws (t : Q) (done : list Imu) (m : Imu) (rest : list Imu)
  (st : State) :
  imuQueOpt st = done ++ m :: rest ->
  Forall (fun x => ROS_TIME x < t) done ->
  positive_dts (lastImuT_opt st) done ->
  ROS_TIME m < t ->
  dt_since (last_stamp done (lastImuT_opt st)) (ROS_TIME m) <= 0 ->
  integrateImuOpt t (done ++ m :: rest) st =
    Thrown InvalidTimestepping
      (set_imuQueOpt (m :: rest)
         (set_lastImuT_opt (last_stamp done (lastImuT_opt st))
            (set_imuIntegratorOpt_
               (advanced (imuIntegratorOpt_ st) (samples_with_dt (lastImuT_opt st) done))
               st))).
Proof.
  assert (Hlt : forall x : Imu, ROS_TIME x < t -> (ROS_TIME x <? t - delta_t) = true).
  { intros x Hx. apply Qltb_lt. unfold delta_t. lra. }
  revert st. induction done as [|d done IH]; intros st Hq Hold Hpos Hm Hdt;
    cbn [app integrateImuOpt last_stamp samples_with_dt] in *.
  - rewrite (Hlt _ Hm). unfold bind at 1 2. cbn [gets]. unfold integrateMeasurement_Opt.
    apply (integrateMeasurement_None (linear_acceleration m) (angular_velocity m) _
             (imuIntegratorOpt_ st)) in Hdt.
    rewrite Hdt, advanced_nil.
    destruct st; cbn [imuQueOpt] in Hq; subst; reflexivity.
  - inversion Hold as [|? ? Hd Hold']; subst.
    unfold positive_dts in Hpos. cbn [samples_with_dt] in Hpos.
    inversion Hpos as [|? ? Hp Hpos']; subst. cbn [snd] in Hp.
    rewrite (Hlt _ Hd). unfold bind at 1 2. cbn [gets]. unfold integrateMeasurement_Opt.
    destruct (integrateMeasurement (linear_acceleration d) (angular_velocity d)
                (dt_since (lastImuT_opt st) (ROS_TIME d)) (imuIntegratorOpt_ st))
      as [p|] eqn:Ei.
    2:{ apply integrateMeasurement_None in Ei. lra. }
    apply integrateMeasurement_Some in Ei as [_ ->].
    unfold bind at 1 2. cbn [modify].
    rewrite IH; [|reflexivity|assumption|exact Hpos'|assumption|exact Hdt].
    destruct st. members. rewrite advanced_app. reflexivity.
Qed.

Lemma afterResetGraph_members (st : State) :
  imuQueOpt (afterResetGraph st) = imuQueOpt st /\
  lastImuT_opt (afterResetGraph st) = lastImuT_opt st /\
  imuIntegratorOpt_ (afterResetGraph st) = imuIntegratorOpt_ st /\
  rosout (afterResetGraph st) = rosout st.
Proof.
  unfold afterResetGraph. destruct (key st =? 100)%Z; destruct st; run_blocks; repeat split.
Qed.

(** The smoother and [key] after the graph reset, if it was due. *)
Lemma afterResetGraph_optimizer (st : State) :
  (key st <> 100%Z ->
   optimizer (afterResetGraph st) = optimizer st /\ key (afterResetGraph st) = key st) /\
  (key st = 100%Z ->
   let marginal k := Gaussian_Covariance (marginalCovariance (optimizer st) k) in
   optimizer (afterResetGraph st) =
     ISAM2_update
       [PriorFactor (X 0) (Value_Pose3 (prevPose_ st)) (marginal (X 99));
        PriorFactor (V 0) (Value_Vector3 (prevVel_ st)) (marginal (V 99));
        PriorFactor (B 0) (Value_Bias (prevBias_ st)) (marginal (B 99))]
       [(X 0, Value_Pose3 (prevPose_ st));
        (V 0, Value_Vector3 (prevVel_ st));
        (B 0, Value_Bias (prevBias_ st))]
       (ISAM2_new (mkISAM2Params (1 # 10) 1)) /\
   key (afterResetGraph st) = 1%Z).
Proof.
  unfold afterResetGraph. split; intros Hk.
  - apply Z.eqb_neq in Hk. rewrite Hk. split; reflexivity.
  - rewrite Hk. cbn [Z.eqb Pos.eqb]. cbv zeta.
    destruct st. cbn [key] in Hk. subst. run_blocks. split; reflexivity.
Qed.

(** C2, as amended: neither handler tests [dt].  A sample whose [dt] is not
    positive is passed to [integrateMeasurement], which fails, and the
    failure leaves the handler as an exception, with no warning logged.  In
    [imuHandler] the sample is by then on both queues and [lastImuT_imu] is
    its stamp; the forward preintegrator is unchanged and no message is
    published.  In the drain of [odometryHandler] the samples before it have
    been integrated and popped, the sample itself stays at the front of
    [imuQueOpt], and the factors of the keyframe are not given to the
    smoother: the smoother and [key] are those of the entry state, except
    that when [key] was 100 at entry the graph reset of lines 353-380 has
    already run, so the smoother is the new one that received the one update
    with the marginal priors, and [key] is 1. *)
Theorem nonpositive_dt_escapes_as_exception :
  (forall (imu_raw : Imu) (st : State),
     let thisImu := imuConverter imu_raw in
     doneFirstOpt st = true ->
     dt_since (lastImuT_imu st) (ROS_TIME thisImu) <= 0 ->
     exists st',
       imuHandler imu_raw st = Thrown InvalidTimestepping st' /\
       imuIntegratorImu_ st' = imuIntegratorImu_ st /\
       rosout st' = rosout st /\
       imuQueOpt st' = imuQueOpt st ++ [thisImu] /\
       imuQueImu st' = imuQueImu st ++ [thisImu] /\
       lastImuT_imu st' = ROS_TIME thisImu) /\
  (forall (odomMsg : Odometry) (st : State) (done : list Imu) (m : Imu) (rest : list Imu),
     let t := ROS_TIME odomMsg in
     systemInitialized st = true ->
     imuQueOpt st = done ++ m :: rest ->
     Forall (fun x => ROS_TIME x < t) done ->
     positive_dts (lastImuT_opt st) done ->
     ROS_TIME m < t ->
     dt_since (last_stamp done (lastImuT_opt st)) (ROS_TIME m) <= 0 ->
     exists st',
       odometryHandler odomMsg st = Thrown InvalidTimestepping st' /\
       imuQueOpt st' = m :: rest /\
       lastImuT_opt st' = last_stamp done (lastImuT_opt st) /\
       imuIntegratorOpt_ st' =
         advanced (imuIntegratorOpt_ st) (samples_with_dt (lastImuT_opt st) done) /\
       optimizer st' = optimizer (afterResetGraph st) /\
       rosout st' = rosout st /\
       (key st <> 100%Z -> optimizer st' = optimizer st /\ key st' = key st) /\
       (key st = 100%Z ->
        let marginal k := Gaussian_Covariance (marginalCovariance (optimizer st) k) in
        optimizer st' =
          ISAM2_update
            [PriorFactor (X 0) (Value_Pose3 (prevPose_ st)) (marginal (X 99));
             PriorFactor (V 0) (Value_Vector3 (prevVel_ st)) (marginal (V 99));
             PriorFactor (B 0) (Value_Bias (prevBias_ st)) (marginal (B 99))]
            [(X 0, Value_Pose3 (prevPose_ st));
             (V 0, Value_Vector3 (prevVel_ st));
             (B 0, Value_Bias (prevBias_ st))]
            (ISAM2_new (mkISAM2Params (1 # 10) 1)) /\
        key st' = 1%Z)).
Proof.
  split.
  - intros imu_raw st thisImu Hdone Hdt.
    apply (integrateMeasurement_None (linear_acceleration thisImu)
             (angular_velocity thisImu) _ (imuIntegratorImu_ st)) in Hdt.
    destruct st. cbn [doneFirstOpt] in Hdone. subst.
    cbn [lastImuT_imu imuIntegratorImu_] in Hdt.
    eexists. split.
    + unfold imuHandler. fold thisImu. cbv [bind modify gets]. members.
      unfold integrateMeasurement_Imu. members. rewrite Hdt. reflexivity.
    + members. repeat split.
  - intros odomMsg st done m rest t Hi Hq Hold Hpos Hm Hdt.
    destruct (afterResetGraph_members st) as (Eq & El & Ep & Er).
    assert (Hne : imuQueOpt st <> []) by (rewrite Hq; now destruct done).
    rewrite odometryHandler_initialized by assumption.
    eexists. split.
    + apply processLidarPose_drain_throws. rewrite Eq, Hq.
      apply integrateImuOpt_throws.
      * now rewrite Eq.
      * exact Hold.
      * now rewrite El.
      * exact Hm.
      * now rewrite El.
    + rewrite <- Er, <- El, <- Ep.
      destruct (afterResetGraph_optimizer st) as [Hn H100]. revert Hn H100.
      generalize (afterResetGraph st). intros s Hn H100. destruct s.
      cbn [optimizer key] in Hn, H100. members.
      split; [reflexivity|]. split; [reflexivity|]. split; [reflexivity|].
      split; [reflexivity|]. split; [reflexivity|]. split; [exact Hn|exact H100].
Qed.

(** ** The inertial handler *)

(** Before the first optimization the handler only queues the sample. *)
Lemma imuHandler_guard (imu_raw : Imu) (st : State) :
  doneFirstOpt st = false ->
  imuHandler imu_raw st =
    Returned None
      (set_imuQueImu (imuQueImu st ++ [imuConverter imu_raw])
         (set_imuQueOpt (imuQueOpt st ++ [imuConverter imu_raw]) st)).
Proof.
  intros Hdone. destruct st. cbn [doneFirstOpt] in Hdone. subst.
  unfold imuHandler. cbv [bind modify gets]. members. reflexivity.
Qed.

(** After it, a sample with a positive [dt] is integrated on the forward
    preintegrator and a message is published. *)
Lemma imuHandler_integrates (imu_raw : Imu) (st : State) :
  let thisImu := imuConverter imu_raw in
  let dt := dt_since (lastImuT_imu st) (ROS_TIME thisImu) in
  let preint :=
    advanced (imuIntegratorImu_ st)
      [(linear_acceleration thisImu, angular_velocity thisImu, dt)] in
  doneFirstOpt st = true ->
  0 < dt ->
  imuHandler imu_raw st =
    Returned
      (Some (odometryMessage thisImu (predict preint (prevStateOdom st) (prevBiasOdom st))
               (prevBiasOdom st)))
      (set_imuIntegratorImu_ preint
         (set_lastImuT_imu (ROS_TIME thisImu)
            (set_imuQueImu (imuQueImu st ++ [thisImu])
               (set_imuQueOpt (imuQueOpt st ++ [thisImu]) st)))).
Proof.
  intros thisImu dt preint Hdone Hdt.
  assert (Hi : integrateMeasurement (linear_acceleration thisImu) (angular_velocity thisImu)
                 dt (imuIntegratorImu_ st) = Some preint)
    by (apply integrateMeasurement_Some; now split).
  subst dt preint. destruct st. cbn [doneFirstOpt] in Hdone. subst.
  cbn [lastImuT_imu imuIntegratorImu_] in Hi.
  unfold imuHandler. fold thisImu. cbv [bind modify gets]. members.
  unfold integrateMeasurement_Imu. members. rewrite Hi. reflexivity.
Qed.

(** After it, a sample whose [dt] is not positive makes the handler throw. *)
Lemma imuHandler_throws (imu_raw : Imu) (st : State) :
  let thisImu := imuConverter imu_raw in
  doneFirstOpt st = true ->
  dt_since (lastImuT_imu st) (ROS_TIME thisImu) <= 0 ->
  imuHandler imu_raw st =
    Thrown InvalidTimestepping
      (set_lastImuT_imu (ROS_TIME thisImu)
         (set_imuQueImu (imuQueImu st ++ [thisImu])
            (set_imuQueOpt (imuQueOpt st ++ [thisImu]) st))).
Proof.
  intros thisImu Hdone Hdt.
  apply (integrateMeasurement_None (linear_acceleration thisImu)
           (angular_velocity thisImu) _ (imuIntegratorImu_ st)) in Hdt.
  destruct st. cbn [doneFirstOpt] in Hdone. subst.
  cbn [lastImuT_imu imuIntegratorImu_] in Hdt.
  unfold imuHandler. fold thisImu. cbv [bind modify gets]. members.
  unfold integrateMeasurement_Imu. members. rewrite Hdt. reflexivity.
Qed.

(** C7: for a sample handled after the first optimization, whenever
    [imuHandler] returns it has integrated the sample on the forward
    preintegrator and published a message whose linear velocity is the
    velocity of [predict(prevStateOdom, prevBiasOdom)] of that preintegrator
    and whose angular velocity is the converted gyroscope reading plus the
    gyroscope part of [prevBiasOdom], component by component; and it does
    return whenever the [dt] of the sample is positive. *)
Theorem emitted_twist (imu_raw : Imu) (st : State) :
  let thisImu := imuConverter imu_raw in
  let dt := dt_since (lastImuT_imu st) (ROS_TIME thisImu) in
  doneFirstOpt st = true ->
  (0 < dt -> exists odometry st', imuHandler imu_raw st = Returned (Some odometry) st') /\
  (forall (o : option Odometry) (st' : State),
     imuHandler imu_raw st = Returned o st' ->
     exists odometry,
       o = Some odometry /\
       imuIntegratorImu_ st' =
         advanced (imuIntegratorImu_ st)
           [(linear_acceleration thisImu, angular_velocity thisImu, dt)] /\
       prevStateOdom st' = prevStateOdom st /\
       prevBiasOdom st' = prevBiasOdom st /\
       twist_linear odometry =
         velocity (predict (imuIntegratorImu_ st') (prevStateOdom st') (prevBiasOdom st')) /\
       vx (twist_angular odometry)
         = vx (angular_velocity thisImu) + vx (gyroscope (prevBiasOdom st')) /\
       vy (twist_angular odometry)
         = vy (angular_velocity thisImu) + vy (gyroscope (prevBiasOdom st')) /\
       vz (twist_angular odometry)
         = vz (angular_velocity thisImu) + vz (gyroscope (prevBiasOdom st'))).
Proof.
  intros thisImu dt Hdone. split.
  - intros Hdt. eexists. eexists. apply imuHandler_integrates; assumption.
  - intros o st' H. destruct (Qlt_le_dec 0 dt) as [Hdt|Hdt].
    + rewrite (imuHandler_integrates imu_raw st Hdone Hdt) in H.
      fold thisImu in H. fold dt in H.
      assert (Ho : o = Some (odometryMessage thisImu
                               (predict
                                  (advanced (imuIntegratorImu_ st)
                                     [(linear_acceleration thisImu,
                                       angular_velocity thisImu, dt)])
                                  (prevStateOdom st) (prevBiasOdom st))
                               (prevBiasOdom st))) by congruence.
      apply Returned_inj in H. subst st' o. eexists. split; [reflexivity|].
      destruct st. members.
      cbn [odometryMessage twist_linear twist_angular vx vy vz].
      rewrite Vector3_eta. repeat split.
    + rewrite (imuHandler_throws imu_raw st Hdone Hdt) in H. discriminate.
Qed.

(** ** The bootstrap [dt] of the forward path *)

Lemma initializeSystem_lastImuT_imu (t : Q) (lidarPose : Pose3) (st : State) :
  lastImuT_imu (final_state (initializeSystem t lidarPose st)) = lastImuT_imu st.
Proof.
  cbv [initializeSystem resetOptimization bind modify gets].
  rewrite popOldImuOpt_spec by reflexivity. destruct st. reflexivity.
Qed.

(** [odometryHandler] assigns [lastImuT_imu] in the failure branch only,
    where [resetParams] makes it -1. *)
Lemma odometryHandler_lastImuT_imu (odomMsg : Odometry) (st st' : State) (br : Branch) :
  odometryHandler odomMsg st = Returned br st' ->
  lastImuT_imu st' = match br with Failed => -1 | _ => lastImuT_imu st end.
Proof.
  intros H. destruct br.
  - destruct (imuQueOpt st) as [|m q] eqn:Eq.
    + rewrite odometryHandler_empty in H by assumption.
      apply Returned_inj in H. now subst st'.
    + assert (Hq : imuQueOpt st <> []) by congruence.
      destruct (systemInitialized st) eqn:Ei.
      * rewrite odometryHandler_initialized in H by assumption.
        destruct (integrateImuOpt (ROS_TIME odomMsg) (imuQueOpt (afterResetGraph st))
                    (afterResetGraph st)) as [[] st2|e st2] eqn:Ed.
        -- rewrite (processLidarPose_drained _ _ _ _ _ Ed) in H. cbn zeta in H.
           destruct (failureDetection _ _ _) as [[] st4|e st4]; try discriminate.
           destruct (repropagate _ st4); discriminate.
        -- rewrite (processLidarPose_drain_throws _ _ _ _ _ _ Ed) in H. discriminate.
      * rewrite odometryHandler_uninitialized in H by assumption. discriminate.
  - destruct (imuQueOpt st) as [|m q] eqn:Eq.
    + rewrite odometryHandler_empty in H by assumption. discriminate.
    + assert (Hq : imuQueOpt st <> []) by congruence.
      destruct (systemInitialized st) eqn:Ei.
      * rewrite odometryHandler_initialized in H by assumption.
        destruct (integrateImuOpt (ROS_TIME odomMsg) (imuQueOpt (afterResetGraph st))
                    (afterResetGraph st)) as [[] st2|e st2] eqn:Ed.
        -- rewrite (processLidarPose_drained _ _ _ _ _ Ed) in H. cbn zeta in H.
           destruct (failureDetection _ _ _) as [[] st4|e st4]; try discriminate.
           destruct (repropagate _ st4); discriminate.
        -- rewrite (processLidarPose_drain_throws _ _ _ _ _ _ Ed) in H. discriminate.
      * rewrite odometryHandler_uninitialized in H by assumption.
        apply Returned_inj in H. subst st'. apply initializeSystem_lastImuT_imu.
  - apply odometryHandler_Failed in H as (_ & _ & st2 & w & _ & _ & ->).
    remember (final_state (optimize (lidarPose_of odomMsg) (degenerate_of odomMsg) st2))
      as st3 eqn:E3.
    clear E3. destruct st3. reflexivity.
  - apply odometryHandler_Optimized in H as (_ & _ & st2 & Hd & _ & Hr).
    pose proof (optimized_state_frame _ (lidarPose_of odomMsg) (degenerate_of odomMsg) _ _ Hd)
      as (_ & _ & _ & _ & _ & _ & Hl & _).
    cbn zeta in *.
    remember (final_state (optimize (lidarPose_of odomMsg) (degenerate_of odomMsg) st2))
      as st3 eqn:E3.
    clear E3 Hd. apply repropagate_Returned in Hr. cbn zeta in Hr. subst st'.
    destruct st3. members. exact Hl.
Qed.

(** A callback in which [imuHandler] does not integrate leaves a
    [lastImuT_imu] of -1 at -1. *)
Lemma handle_keeps_bootstrap (ev : Event) (st st' : State) :
  handle ev st = Some st' ->
  integrates_forward ev st = false ->
  lastImuT_imu st = -1 ->
  lastImuT_imu st' = -1.
Proof.
  destruct ev as [imu_raw|odomMsg]; cbn [handle integrates_forward]; intros H Hn Hl.
  - rewrite (imuHandler_guard _ _ Hn) in H. injection H as <-.
    destruct st. exact Hl.
  - destruct (odometryHandler odomMsg st) as [br st1|e st1] eqn:Eo; [|discriminate].
    injection H as <-. rewrite (odometryHandler_lastImuT_imu _ _ _ _ Eo).
    destruct br; try exact Hl; reflexivity.
Qed.

Lemma run_keeps_bootstrap (evs : list Event) (st st' : State) :
  no_forward_integration evs st ->
  run evs st = Some st' ->
  lastImuT_imu st = -1 ->
  lastImuT_imu st' = -1.
Proof.
  revert st. induction evs as [|ev evs IH]; intros st Hn H Hl; cbn [run] in H.
  - now injection H as <-.
  - cbn [no_forward_integration] in Hn. destruct Hn as [Hf Hn].
    destruct (handle ev st) as [st1|] eqn:Eh; [|discriminate].
    apply (IH st1 Hn H). exact (handle_keeps_bootstrap _ _ _ Eh Hf Hl).
Qed.

(** C10: [imuHandler] assigns [lastImuT_imu] only past the [doneFirstOpt]
    guard, and [resetParams] makes it -1; so, after the constructor or after
    a return of [odometryHandler] through the failure branch, and whatever
    callbacks run in between, the first sample that [imuHandler] integrates
    is integrated with the bootstrap [dt] of 1/500, whatever its stamp. *)
Theorem first_forward_sample_uses_bootstrap_dt :
  (forall (imu_raw : Imu) (st : State),
     doneFirstOpt st = false ->
     exists st', imuHandler imu_raw st = Returned None st' /\
                 lastImuT_imu st' = lastImuT_imu st /\
                 imuIntegratorImu_ st' = imuIntegratorImu_ st) /\
  (forall st, lastImuT_imu (final_state (resetParams st)) = -1) /\
  (forall (st0 : State) (evs : list Event) (st : State) (imu_raw : Imu),
     st0 = IMUPreintegration_new \/
     (exists stp odomMsg, odometryHandler odomMsg stp = Returned Failed st0) ->
     no_forward_integration evs st0 ->
     run evs st0 = Some st ->
     doneFirstOpt st = true ->
     let thisImu := imuConverter imu_raw in
     exists odometry st',
       imuHandler imu_raw st = Returned (Some odometry) st' /\
       imuIntegratorImu_ st' =
         advanced (imuIntegratorImu_ st)
           [(linear_acceleration thisImu, angular_velocity thisImu, 1 / 500)]).
Proof.
  split; [|split].
  - intros imu_raw st Hdone. eexists. split; [apply imuHandler_guard; assumption|].
    destruct st. split; reflexivity.
  - intros st. destruct st. reflexivity.
  - intros st0 evs st imu_raw H0 Hn Hrun Hdone thisImu.
    assert (Hl0 : lastImuT_imu st0 = -1).
    { destruct H0 as [->|(stp & odomMsg & Hf)]; [reflexivity|].
      exact (odometryHandler_lastImuT_imu _ _ _ _ Hf). }
    pose proof (run_keeps_bootstrap _ _ _ Hn Hrun Hl0) as Hl.
    assert (Hdt : dt_since (lastImuT_imu st) (ROS_TIME thisImu) = 1 / 500)
      by (rewrite Hl; reflexivity).
    eexists. eexists. split.
    + apply imuHandler_integrates; [assumption|]. fold thisImu. rewrite Hdt. reflexivity.
    + fold thisImu. rewrite Hdt. destruct st. reflexivity.
Qed.

(** ** Invariants of the reachable states *)

Lemma reachable_ind (P : State -> Prop) :
  P IMUPreintegration_new ->
  (forall ev st st', P st -> handle ev st = Some st' -> P st') ->
  forall st, reachable st -> P st.
Proof.
  intros Hnew Hstep st [evs Hrun]. revert Hrun Hnew. generalize IMUPreintegration_new.
  induction evs as [|ev evs IH]; intros s Hrun Hs; cbn [run] in Hrun.
  - now injection Hrun as <-.
  - destruct (handle ev s) as [s1|] eqn:Eh; [|discriminate].
    exact (IH s1 Hrun (Hstep ev s s1 Hs Eh)).
Qed.

Lemma odometryHandler_Dropped (odomMsg : Odometry) (st st' : State) :
  odometryHandler odomMsg st = Returned Dropped st' -> imuQueOpt st = [] /\ st' = st.
Proof.
  intros H. destruct (imuQueOpt st) as [|m q] eqn:Eq.
  - rewrite odometryHandler_empty in H by assumption.
    apply Returned_inj in H. now subst st'.
  - assert (Hq : imuQueOpt st <> []) by congruence.
    destruct (systemInitialized st) eqn:Ei.
    + rewrite odometryHandler_initialized in H by assumption.
      destruct (integrateImuOpt (ROS_TIME odomMsg) (imuQueOpt (afterResetGraph st))
                  (afterResetGraph st)) as [[] st2|e st2] eqn:Ed.
      * rewrite (processLidarPose_drained _ _ _ _ _ Ed) in H. cbn zeta in H.
        destruct (failureDetection _ _ _) as [[] st4|e st4]; try discriminate.
        destruct (repropagate _ st4); discriminate.
      * rewrite (processLidarPose_drain_throws _ _ _ _ _ _ Ed) in H. discriminate.
    + rewrite odometryHandler_uninitialized in H by assumption. discriminate.
Qed.

Lemma odometryHandler_Initialized (odomMsg : Odometry) (st st' : State) :
  odometryHandler odomMsg st = Returned Initialized st' ->
  imuQueOpt st <> [] /\ systemInitialized st = false /\
  st' = final_state (initializeSystem (ROS_TIME odomMsg) (lidarPose_of odomMsg) st).
Proof.
  intros H. destruct (imuQueOpt st) as [|m q] eqn:Eq.
  - rewrite odometryHandler_empty in H by assumption. discriminate.
  - assert (Hq : imuQueOpt st <> []) by congruence.
    destruct (systemInitialized st) eqn:Ei.
    + rewrite odometryHandler_initialized in H by assumption.
      destruct (integrateImuOpt (ROS_TIME odomMsg) (imuQueOpt (afterResetGraph st))
                  (afterResetGraph st)) as [[] st2|e st2] eqn:Ed.
      * rewrite (processLidarPose_drained _ _ _ _ _ Ed) in H. cbn zeta in H.
        destruct (failureDetection _ _ _) as [[] st4|e st4]; try discriminate.
        destruct (repropagate _ st4); discriminate.
      * rewrite (processLidarPose_drain_throws _ _ _ _ _ _ Ed) in H. discriminate.
    + rewrite odometryHandler_uninitialized in H by assumption.
      apply Returned_inj in H. subst st'. repeat split. congruence.
Qed.

(** [imuHandler] leaves the graph, [key] and [systemInitialized] alone. *)
Lemma imuHandler_frame (imu_raw : Imu) (st st' : State) (o : option Odometry) :
  imuHandler imu_raw st = Returned o st' ->
  graphFactors st' = graphFactors st /\ graphValues st' = graphValues st /\
  key st' = key st /\ systemInitialized st' = systemInitialized st.
Proof.
  destruct st. unfold imuHandler. cbv [bind modify gets]. members.
  destruct doneFirstOpt0.
  - unfold integrateMeasurement_Imu. members.
    destruct (integrateMeasurement _ _ _ _); [|discriminate].
    members. intros H. apply Returned_inj in H. subst st'. repeat split.
  - intros H. apply Returned_inj in H. subst st'. repeat split.
Qed.

Lemma initializeSystem_graph (t : Q) (lidarPose : Pose3) (st : State) :
  graph_cleared (final_state (initializeSystem t lidarPose st)).
Proof.
  unfold graph_cleared. cbv [initializeSystem resetOptimization bind modify gets].
  rewrite popOldImuOpt_spec by reflexivity. destruct st. split; reflexivity.
Qed.

Lemma initializeSystem_key (t : Q) (lidarPose : Pose3) (st : State) :
  key (final_state (initializeSystem t lidarPose st)) = 1%Z /\
  systemInitialized (final_state (initializeSystem t lidarPose st)) = true.
Proof.
  cbv [initializeSystem resetOptimization bind modify gets].
  rewrite popOldImuOpt_spec by reflexivity. destruct st. split; reflexivity.
Qed.

(** The smoother after the optimization block: the update with the three
    factors of the keyframe and the predicted values, then the empty update;
    the graph is cleared. *)
Lemma optimize_optimizer (lidarPose : Pose3) (degenerate : bool) (st : State) :
  let st3 := final_state (optimize lidarPose degenerate st) in
  let k := key st in
  let preint_imu := imuIntegratorOpt_ st in
  let propState_ := predict preint_imu (prevState_ st) (prevBias_ st) in
  optimizer st3 =
    ISAM2_update [] []
      (ISAM2_update
         (graphFactors st ++
            [ImuFactor (X (k - 1)) (V (k - 1)) (X k) (V k) (B (k - 1)) preint_imu;
             BetweenFactor (B (k - 1)) (B k) ConstantBias_zero
               (Diagonal_Sigmas
                  (map (Qmult (sqrt_double (deltaTij preint_imu))) noiseModelBetweenBias));
             PriorFactor (X k) (Value_Pose3 (Pose3_compose lidarPose lidar2Imu))
               (if degenerate then correctionNoise2 else correctionNoise)])
         (graphValues st ++
            [(X k, Value_Pose3 (pose propState_));
             (V k, Value_Vector3 (velocity propState_));
             (B k, Value_Bias (prevBias_ st))])
         (optimizer st)) /\
  graphFactors st3 = [] /\ graphValues st3 = [].
Proof.
  cbn zeta. destruct st. run_blocks. rewrite <- !app_assoc. cbn [app]. repeat split.
Qed.

Lemma odometryHandler_graph (odomMsg : Odometry) (st st' : State) (br : Branch) :
  graph_cleared st -> odometryHandler odomMsg st = Returned br st' -> graph_cleared st'.
Proof.
  intros Hg H. destruct br.
  - apply odometryHandler_Dropped in H as [_ ->]. exact Hg.
  - apply odometryHandler_Initialized in H as (_ & _ & ->). apply initializeSystem_graph.
  - apply odometryHandler_Failed in H as (_ & _ & st2 & w & _ & _ & ->).
    destruct (optimize_optimizer (lidarPose_of odomMsg) (degenerate_of odomMsg) st2)
      as (_ & Hf & Hv).
    cbn zeta in Hf, Hv.
    remember (final_state (optimize (lidarPose_of odomMsg) (degenerate_of odomMsg) st2))
      as st3 eqn:E3.
    clear E3. destruct st3. split; [exact Hf|exact Hv].
  - apply odometryHandler_Optimized in H as (_ & _ & st2 & _ & _ & Hr).
    destruct (optimize_optimizer (lidarPose_of odomMsg) (degenerate_of odomMsg) st2)
      as (_ & Hf & Hv).
    cbn zeta in *.
    remember (final_state (optimize (lidarPose_of odomMsg) (degenerate_of odomMsg) st2))
      as st3 eqn:E3.
    clear E3. apply repropagate_Returned in Hr. cbn zeta in Hr. subst st'.
    destruct st3. split; [exact Hf|exact Hv].
Qed.

(** Between callbacks the graph under construction is empty. *)
Lemma reachable_graph_cleared (st : State) : reachable st -> graph_cleared st.
Proof.
  apply reachable_ind.
  - split; reflexivity.
  - intros ev s s1 Hg Eh. destruct ev as [imu_raw|odomMsg]; cbn [handle] in Eh.
    + destruct (imuHandler imu_raw s) as [o s2|e s2] eqn:Ei; [|discriminate].
      injection Eh as <-. apply imuHandler_frame in Ei as (Ef & Ev & _).
      destruct Hg as [Hf Hv]. split; congruence.
    + destruct (odometryHandler odomMsg s) as [br s2|e s2] eqn:Eo; [|discriminate].
      injection Eh as <-. exact (odometryHandler_graph _ _ _ _ Hg Eo).
Qed.

Lemma afterResetGraph_key (st : State) :
  key (afterResetGraph st) = if (key st =? 100)%Z then 1%Z else key st.
Proof.
  unfold afterResetGraph. destruct (key st =? 100)%Z; [|reflexivity].
  destruct st. reflexivity.
Qed.

Lemma odometryHandler_key_invariant (odomMsg : Odometry) (st st' : State) (br : Branch) :
  key_invariant st -> odometryHandler odomMsg st = Returned br st' -> key_invariant st'.
Proof.
  unfold key_invariant. intros [Hk Hu] H. destruct br.
  - apply odometryHandler_Dropped in H as [_ ->]. now split.
  - apply odometryHandler_Initialized in H as (_ & _ & ->).
    destruct (initializeSystem_key (ROS_TIME odomMsg) (lidarPose_of odomMsg) st) as [-> ->].
    split; [lia|discriminate].
  - apply odometryHandler_Failed in H as (_ & Hi & st2 & w & Hd & _ & ->).
    pose proof (optimized_state_frame _ (lidarPose_of odomMsg) (degenerate_of odomMsg) _ _ Hd)
      as (_ & _ & _ & _ & Hk3 & _).
    cbn zeta in Hk3. rewrite afterResetGraph_key in Hk3.
    remember (final_state (optimize (lidarPose_of odomMsg) (degenerate_of odomMsg) st2))
      as st3 eqn:E3.
    clear E3 Hd. destruct st3. members. cbn [key] in Hk3. subst.
    destruct (Z.eqb_spec (key st) 100); split; intros; lia.
  - apply odometryHandler_Optimized in H as (_ & Hi & st2 & Hd & _ & Hr).
    pose proof (optimized_state_frame _ (lidarPose_of odomMsg) (degenerate_of odomMsg) _ _ Hd)
      as (_ & _ & _ & _ & Hk3 & _ & _ & _ & _ & _ & Hi3).
    cbn zeta in Hk3, Hi3, Hr. rewrite afterResetGraph_key in Hk3.
    remember (final_state (optimize (lidarPose_of odomMsg) (degenerate_of odomMsg) st2))
      as st3 eqn:E3.
    clear E3 Hd. apply repropagate_Returned in Hr. cbn zeta in Hr. subst st'.
    destruct st3. members. cbn [key systemInitialized] in Hk3, Hi3. subst.
    rewrite Hi. destruct (Z.eqb_spec (key st) 100); split; try discriminate; lia.
Qed.

(** [key] stays between 1 and 100, and is 100 only with the system
    initialised. *)
Lemma reachable_key_invariant (st : State) : reachable st -> key_invariant st.
Proof.
  apply reachable_ind.
  - split; [cbn; lia|]. intros _. cbn. lia.
  - intros ev s s1 Hinv Eh. destruct ev as [imu_raw|odomMsg]; cbn [handle] in Eh.
    + destruct (imuHandler imu_raw s) as [o s2|e s2] eqn:Ei; [|discriminate].
      injection Eh as <-. apply imuHandler_frame in Ei as (_ & _ & Ek & Es).
      unfold key_invariant in *. now rewrite Ek, Es.
    + destruct (odometryHandler odomMsg s) as [br s2|e s2] eqn:Eo; [|discriminate].
      injection Eh as <-. exact (odometryHandler_key_invariant _ _ _ _ Hinv Eo).
Qed.

(** ** The graph reset and the factors of a keyframe *)

(** C3: in a state the node can reach with [key == 100] the system is
    initialised, and when [odometryHandler] runs there on a lidar pose it
    does not drop for want of samples, it takes the marginal covariances of
    X(99), V(99) and B(99) from the smoother it has, makes a new smoother,
    gives it in one update the three priors at index 0 on [prevPose_],
    [prevVel_] and [prevBias_] with those covariances together with these
    values, clears the graph, sets [key] to 1, and only then processes the
    lidar pose. *)
Theorem graph_reset_at_key_100 (odomMsg : Odometry) (st : State) :
  reachable st ->
  key st = 100%Z ->
  let marginal k := Gaussian_Covariance (marginalCovariance (optimizer st) k) in
  let priors :=
    [PriorFactor (X 0) (Value_Pose3 (prevPose_ st)) (marginal (X 99));
     PriorFactor (V 0) (Value_Vector3 (prevVel_ st)) (marginal (V 99));
     PriorFactor (B 0) (Value_Bias (prevBias_ st)) (marginal (B 99))] in
  let values :=
    [(X 0, Value_Pose3 (prevPose_ st));
     (V 0, Value_Vector3 (prevVel_ st));
     (B 0, Value_Bias (prevBias_ st))] in
  let smoother := ISAM2_update priors values (ISAM2_new (mkISAM2Params (1 # 10) 1)) in
  systemInitialized st = true /\
  isam_updates smoother = [(priors, values)] /\
  (imuQueOpt st = [] -> odometryHandler odomMsg st = Returned Dropped st) /\
  (imuQueOpt st <> [] ->
   odometryHandler odomMsg st =
     processLidarPose (ROS_TIME odomMsg) (lidarPose_of odomMsg) (degenerate_of odomMsg)
       (set_key 1 (set_graphValues [] (set_graphFactors [] (set_optimizer smoother st))))).
Proof.
  intros Hr Hk marginal priors values smoother.
  assert (Hi : systemInitialized st = true).
  { destruct (reachable_key_invariant st Hr) as [_ Hu].
    destruct (systemInitialized st); [reflexivity|]. specialize (Hu eq_refl). lia. }
  split; [exact Hi|]. split; [reflexivity|]. split.
  - apply odometryHandler_empty.
  - intros Hq. rewrite odometryHandler_initialized by assumption.
    unfold afterResetGraph. rewrite Hk. cbn [Z.eqb Pos.eqb].
    f_equal. subst smoother priors values marginal.
    clear Hr Hi Hq. destruct st. cbn [key] in Hk. subst. run_blocks. reflexivity.
Qed.

(** C5, as amended: for a lidar pose that [odometryHandler] processes
    (system initialised, queue not empty), the update given to the smoother
    holds, after the IMU factor and the bias factor, a prior on X(key).  Its
    value is the pose that the handler builds from the message, composed
    with [lidar2Imu]: the seven components of the position and of the
    orientation of the message are first converted to [float] (lines
    297-303), so it is the pose of the message only up to single precision.
    Its noise is the diagonal of sigmas (0.05, 0.05, 0.05, 0.1, 0.1, 0.1), or
    the diagonal of sigmas 1 when [covariance[0]] converted to [int] equals
    1; [key] and the smoother are those of the entry state when no graph
    reset was due, and the graph holds nothing else in a state the node can
    reach. *)
Theorem pose_prior_factor (odomMsg : Odometry) (st st' : State) (br : Branch) :
  imuQueOpt st <> [] ->
  systemInitialized st = true ->
  odometryHandler odomMsg st = Returned br st' ->
  let st1 := afterResetGraph st in
  let noise :=
    if (int_of_double (covariance0 odomMsg) =? 1)%Z
    then Diagonal_Sigmas [1; 1; 1; 1; 1; 1]
    else Diagonal_Sigmas [5 # 100; 5 # 100; 5 # 100; 1 # 10; 1 # 10; 1 # 10] in
  let position := pose_position odomMsg in
  let orientation := pose_orientation odomMsg in
  let lidarPose :=
    mkPose3
      (Rot3_Quaternion (float_of_double (q_w orientation)) (float_of_double (q_x orientation))
         (float_of_double (q_y orientation)) (float_of_double (q_z orientation)))
      (mkVector3 (float_of_double (vx position)) (float_of_double (vy position))
         (float_of_double (vz position))) in
  let pose_factor :=
    PriorFactor (X (key st1)) (Value_Pose3 (Pose3_compose lidarPose lidar2Imu)) noise in
  (key st <> 100%Z -> st1 = st) /\
  (reachable st -> graphFactors st1 = []) /\
  exists imu_factor bias_factor values,
    isam_updates (optimizer st') =
      isam_updates (optimizer st1) ++
        [(graphFactors st1 ++ [imu_factor; bias_factor; pose_factor], values); ([], [])].
Proof.
  intros Hq Hi H. cbn zeta. split; [|split].
  - intros Hk. apply Z.eqb_neq in Hk. unfold afterResetGraph. now rewrite Hk.
  - intros Hr. apply reachable_graph_cleared in Hr as [Hf _].
    unfold afterResetGraph. destruct (key st =? 100)%Z; [|exact Hf].
    destruct st. reflexivity.
  - rewrite odometryHandler_initialized in H by assumption.
    destruct (integrateImuOpt (ROS_TIME odomMsg) (imuQueOpt (afterResetGraph st))
                (afterResetGraph st)) as [[] st2|e st2] eqn:Ed.
    2:{ rewrite (processLidarPose_drain_throws _ _ _ _ _ _ Ed) in H. discriminate. }
    rewrite (processLidarPose_drained _ _ _ _ _ Ed) in H. cbn zeta in H.
    destruct (optimize_optimizer (lidarPose_of odomMsg) (degenerate_of odomMsg) st2)
      as (Ho & _).
    cbn zeta in Ho.
    apply integrateImuOpt_Returned in Ed; [|reflexivity].
    assert (E2 : optimizer st2 = optimizer (afterResetGraph st) /\
                 graphFactors st2 = graphFactors (afterResetGraph st) /\
                 key st2 = key (afterResetGraph st)).
    { rewrite Ed. generalize (afterResetGraph st). intros s. destruct s. repeat split. }
    destruct E2 as (Eo & Ef & Ek). clear Ed. rewrite Eo, Ef, Ek in Ho.
    remember (final_state (optimize (lidarPose_of odomMsg) (degenerate_of odomMsg) st2))
      as st3 eqn:E3.
    clear E3.
    assert (Hst' : optimizer st' = optimizer st3).
    { destruct (failureDetection_cases (prevVel_ st3) (prevBias_ st3) st3) as [[w Hf]|Hf];
        rewrite Hf in H.
      - apply Returned_inj in H. subst st'. destruct st3. reflexivity.
      - destruct (repropagate (ROS_TIME odomMsg) st3) as [[] st5|e st5] eqn:Er;
          [|discriminate].
        apply Returned_inj in H. subst st5.
        apply repropagate_Returned in Er. cbn zeta in Er. subst st'.
        destruct st3. reflexivity. }
    rewrite Hst', Ho. cbn [ISAM2_update isam_updates]. rewrite <- app_assoc.
    eexists. eexists. eexists. reflexivity.
Qed.

(** ** The extrinsic transforms *)

Lemma Rot3_compose_identity (r : Rot3) : Rot3_eq (Rot3_compose r Rot3_identity) r.
Proof.
  destruct r as [[a b c] [d e f] [g h i]].
  unfold Rot3_eq, Vector3_eq, Rot3_compose, Rot3_identity, Rot3_column, Vector3_dot.
  cbn [row1 row2 row3 vx vy vz]. repeat split; ring.
Qed.

(** C9: [lidar2Imu] and [imu2Lidar] have the identity rotation and the
    translations [extTrans] and its opposite, whatever the configuration;
    composing a pose with either leaves its rotation and moves its
    translation by the rotated [extTrans] (or its opposite), so that
    composing with [lidar2Imu] and then with [imu2Lidar] gives the pose back
    (up to the equality of rationals); the pose of a published message is
    the predicted pose composed with [imu2Lidar]. *)
Theorem extrinsics_are_translations :
  rotation lidar2Imu = Rot3_identity /\
  translation lidar2Imu = extTrans /\
  rotation imu2Lidar = Rot3_identity /\
  translation imu2Lidar = mkVector3 (- vx extTrans) (- vy extTrans) (- vz extTrans) /\
  (forall p : Pose3,
     Rot3_eq (rotation (Pose3_compose p lidar2Imu)) (rotation p) /\
     Vector3_eq (translation (Pose3_compose p lidar2Imu))
                (Vector3_add (translation p) (Rot3_rotate (rotation p) extTrans))) /\
  (forall p : Pose3,
     Rot3_eq (rotation (Pose3_compose p imu2Lidar)) (rotation p) /\
     Vector3_eq (translation (Pose3_compose p imu2Lidar))
                (Vector3_add (translation p)
                   (Rot3_rotate (rotation p)
                      (mkVector3 (- vx extTrans) (- vy extTrans) (- vz extTrans))))) /\
  (forall p : Pose3, Pose3_eq (Pose3_compose (Pose3_compose p lidar2Imu) imu2Lidar) p) /\
  (forall (thisImu : Imu) (currentState : NavState) (bias : ConstantBias),
     let imuPose :=
       mkPose3 (Rot3_of_quaternion (toQuaternion (rotation (pose currentState))))
               (position currentState) in
     pose_position (odometryMessage thisImu currentState bias)
       = translation (Pose3_compose imuPose imu2Lidar)).
Proof.
  assert (Hid : Rot3_Quaternion 1 0 0 0 = Rot3_identity) by reflexivity.
  unfold lidar2Imu, imu2Lidar. rewrite Hid. cbn [rotation translation].
  split; [reflexivity|]. split; [apply Vector3_eta|].
  split; [reflexivity|]. split; [reflexivity|].
  split; [|split; [|split]].
  - intros p. split.
    + apply Rot3_compose_identity.
    + unfold Pose3_compose. cbn [translation rotation]. rewrite Vector3_eta.
      unfold Vector3_eq. repeat split; reflexivity.
  - intros p. split.
    + apply Rot3_compose_identity.
    + unfold Vector3_eq. repeat split; reflexivity.
  - intros [[[a b c] [d e f] [g h i]] [x y z]].
    destruct extTrans as [u v w].
    unfold Pose3_eq, Rot3_eq, Vector3_eq, Pose3_compose, Rot3_compose, Rot3_rotate,
      Vector3_add, Rot3_identity, Rot3_column, Vector3_dot.
    cbn [rotation translation row1 row2 row3 vx vy vz]. repeat split; ring.
  - intros thisImu currentState bias.
    unfold odometryMessage. cbn [pose_position].
    unfold imu2Lidar. rewrite Hid. apply Vector3_eta.
Qed.

(** * Further properties of the node *)

(** ** The drop and the initialisation *)

(** X1: [odometryHandler] leaves through the first [return] (line 295)
    exactly when [imuQueOpt] is empty, and then no member has changed. *)
Theorem drop_iff_queue_empty (odomMsg : Odometry) (st st' : State) (br : Branch) :
  odometryHandler odomMsg st = Returned br st' ->
  (br = Dropped <-> imuQueOpt st = []) /\ (br = Dropped -> st' = st).
Proof.
  intros H. split; [split|].
  - intros ->. now apply odometryHandler_Dropped in H.
  - intros Hq. rewrite odometryHandler_empty in H by assumption. congruence.
  - intros ->. now apply odometryHandler_Dropped in H.
Qed.

(** The members after the initialisation block. *)
Lemma initializeSystem_members (t : Q) (lidarPose : Pose3) (st : State) :
  let st' := final_state (initializeSystem t lidarPose st) in
  let pose0 := Pose3_compose lidarPose lidar2Imu in
  systemInitialized st' = true /\
  key st' = 1%Z /\
  prevPose_ st' = pose0 /\
  prevVel_ st' = mkVector3 0 0 0 /\
  prevBias_ st' = ConstantBias_zero /\
  prevState_ st' = prevState_ st /\
  optimizer st' =
    ISAM2_update
      [PriorFactor (X 0) (Value_Pose3 pose0)
         (Diagonal_Sigmas [1 # 100; 1 # 100; 1 # 100; 1 # 100; 1 # 100; 1 # 100]);
       PriorFactor (V 0) (Value_Vector3 (mkVector3 0 0 0)) (Isotropic_Sigma 3 10000);
       PriorFactor (B 0) (Value_Bias ConstantBias_zero) (Isotropic_Sigma 6 (1 # 1000))]
      [(X 0, Value_Pose3 pose0);
       (V 0, Value_Vector3 (mkVector3 0 0 0));
       (B 0, Value_Bias ConstantBias_zero)]
      (ISAM2_new (mkISAM2Params (1 # 10) 1)) /\
  imuIntegratorOpt_ st' = mkPreintegrated ConstantBias_zero [] /\
  imuIntegratorImu_ st' = mkPreintegrated ConstantBias_zero [] /\
  lastImuT_opt st' = last_stamp (take_older t (imuQueOpt st)) (lastImuT_opt st) /\
  imuQueImu st' = imuQueImu st /\
  doneFirstOpt st' = doneFirstOpt st /\
  prevStateOdom st' = prevStateOdom st /\
  prevBiasOdom st' = prevBiasOdom st /\
  rosout st' = rosout st.
Proof.
  cbv zeta. cbv [initializeSystem resetOptimization bind modify gets].
  rewrite popOldImuOpt_spec by reflexivity. destruct st. run_blocks. repeat split.
Qed.

(** X2: called on a system that is not initialised, with a sample queued,
    [odometryHandler] returns through the initialisation branch: the
    smoother is a new one that received one update with the priors on X(0),
    V(0), B(0) (the pose built from the single-precision copies of the
    position and orientation of the message, composed with [lidar2Imu]; zero
    velocity, zero bias, the prior sigmas of the constructor), both
    preintegrators are reset with the zero bias, [key] is 1, the samples
    older than the pose are popped from [imuQueOpt]; [imuQueImu], the seed of
    the forward propagator, [doneFirstOpt] and [prevState_] are not
    assigned. *)
Theorem initialization_seeds_the_graph (odomMsg : Odometry) (st : State) :
  imuQueOpt st <> [] ->
  systemInitialized st = false ->
  let position := pose_position odomMsg in
  let orientation := pose_orientation odomMsg in
  let lidarPose :=
    mkPose3
      (Rot3_Quaternion (float_of_double (q_w orientation)) (float_of_double (q_x orientation))
         (float_of_double (q_y orientation)) (float_of_double (q_z orientation)))
      (mkVector3 (float_of_double (vx position)) (float_of_double (vy position))
         (float_of_double (vz position))) in
  let pose0 := Pose3_compose lidarPose lidar2Imu in
  exists st',
    odometryHandler odomMsg st = Returned Initialized st' /\
    systemInitialized st' = true /\
    key st' = 1%Z /\
    prevPose_ st' = pose0 /\
    prevVel_ st' = mkVector3 0 0 0 /\
    prevBias_ st' = ConstantBias_zero /\
    prevState_ st' = prevState_ st /\
    optimizer st' =
      ISAM2_update
        [PriorFactor (X 0) (Value_Pose3 pose0)
           (Diagonal_Sigmas [1 # 100; 1 # 100; 1 # 100; 1 # 100; 1 # 100; 1 # 100]);
         PriorFactor (V 0) (Value_Vector3 (mkVector3 0 0 0)) (Isotropic_Sigma 3 10000);
         PriorFactor (B 0) (Value_Bias ConstantBias_zero) (Isotropic_Sigma 6 (1 # 1000))]
        [(X 0, Value_Pose3 pose0);
         (V 0, Value_Vector3 (mkVector3 0 0 0));
         (B 0, Value_Bias ConstantBias_zero)]
        (ISAM2_new (mkISAM2Params (1 # 10) 1)) /\
    imuIntegratorOpt_ st' = mkPreintegrated ConstantBias_zero [] /\
    imuIntegratorImu_ st' = mkPreintegrated ConstantBias_zero [] /\
    imuQueOpt st' = drop_older (ROS_TIME odomMsg) (imuQueOpt st) /\
    imuQueImu st' = imuQueImu st /\
    doneFirstOpt st' = doneFirstOpt st /\
    prevStateOdom st' = prevStateOdom st /\
    prevBiasOdom st' = prevBiasOdom st.
Proof.
  intros Hq Hi position orientation lidarPose pose0.
  change lidarPose with (lidarPose_of odomMsg) in pose0.
  eexists. split; [apply odometryHandler_uninitialized; assumption|].
  destruct (initializeSystem_members (ROS_TIME odomMsg) (lidarPose_of odomMsg) st)
    as (H1 & H2 & H3 & H4 & H5 & H6 & H7 & H8 & H9 & _ & H11 & H12 & H13 & H14 & _).
  pose proof (initializeSystem_queue (ROS_TIME odomMsg) (lidarPose_of odomMsg) st) as H10.
  cbv zeta in *. subst pose0.
  split; [exact H1|]. split; [exact H2|]. split; [exact H3|]. split; [exact H4|].
  split; [exact H5|]. split; [exact H6|]. split; [exact H7|]. split; [exact H8|].
  split; [exact H9|]. split; [exact H10|]. split; [exact H11|]. split; [exact H12|].
  split; [exact H13|exact H14].
Qed.

(** ** The degeneracy flag *)

(** X3: the flag read from a lidar message (line 304) is set exactly when
    [covariance[0]] lies in [1, 2): the conversion to [int] truncates, so 1.5
    is degenerate and 0.999 or 2 is not. *)
Theorem degenerate_flag_range (odomMsg : Odometry) :
  degenerate_of odomMsg = true <-> 1 <= covariance0 odomMsg /\ covariance0 odomMsg < 2.
Proof.
  unfold degenerate_of. rewrite Z.eqb_eq. apply int_of_double_one.
Qed.

(** ** The two queues *)

(** Whatever its outcome, [imuHandler] has put the converted sample at the
    back of both queues, and touched nothing of the optimization side. *)
Lemma imuHandler_members (imu_raw : Imu) (st : State) :
  let st' := final_state (imuHandler imu_raw st) in
  imuQueOpt st' = imuQueOpt st ++ [imuConverter imu_raw] /\
  imuQueImu st' = imuQueImu st ++ [imuConverter imu_raw] /\
  systemInitialized st' = systemInitialized st /\
  doneFirstOpt st' = doneFirstOpt st /\
  key st' = key st /\
  prevPose_ st' = prevPose_ st /\
  prevVel_ st' = prevVel_ st /\
  prevState_ st' = prevState_ st /\
  prevBias_ st' = prevBias_ st /\
  prevStateOdom st' = prevStateOdom st /\
  prevBiasOdom st' = prevBiasOdom st /\
  imuIntegratorOpt_ st' = imuIntegratorOpt_ st /\
  lastImuT_opt st' = lastImuT_opt st /\
  optimizer st' = optimizer st /\
  rosout st' = rosout st.
Proof.
  cbv zeta. destruct st. unfold imuHandler. cbv [bind modify gets]. members.
  destruct doneFirstOpt0.
  - unfold integrateMeasurement_Imu. members.
    destruct (integrateMeasurement _ _ _ _); members; repeat split.
  - members. repeat split.
Qed.

(** [imuQueImu] after a return of [odometryHandler]: drained at the hand-off,
    untouched in the other branches. *)
Lemma odometryHandler_imuQueImu (odomMsg : Odometry) (st st' : State) (br : Branch) :
  odometryHandler odomMsg st = Returned br st' ->
  imuQueImu st' =
    match br with
    | Optimized => drop_older (ROS_TIME odomMsg) (imuQueImu st)
    | _ => imuQueImu st
    end.
Proof.
  intros H. destruct br.
  - apply odometryHandler_Dropped in H as [_ ->]. reflexivity.
  - apply odometryHandler_Initialized in H as (_ & _ & ->).
    now destruct (initializeSystem_members (ROS_TIME odomMsg) (lidarPose_of odomMsg) st)
      as (_ & _ & _ & _ & _ & _ & _ & _ & _ & _ & H & _).
  - apply odometryHandler_Failed in H as (_ & _ & st2 & w & Hd & _ & ->).
    pose proof (optimized_state_frame _ (lidarPose_of odomMsg) (degenerate_of odomMsg) _ _ Hd)
      as (_ & _ & Hq & _).
    cbn zeta in Hq.
    remember (final_state (optimize (lidarPose_of odomMsg) (degenerate_of odomMsg) st2))
      as st3 eqn:E3.
    clear E3 Hd. destruct st3. exact Hq.
  - apply odometryHandler_Optimized in H as (_ & _ & st2 & Hd & _ & Hr).
    pose proof (optimized_state_frame _ (lidarPose_of odomMsg) (degenerate_of odomMsg) _ _ Hd)
      as (_ & _ & Hq & _).
    cbn zeta in Hq, Hr.
    remember (final_state (optimize (lidarPose_of odomMsg) (degenerate_of odomMsg) st2))
      as st3 eqn:E3.
    clear E3 Hd. apply repropagate_Returned in Hr. cbn zeta in Hr. subst st'.
    destruct st3. members. cbn [imuQueImu] in Hq. now subst.
Qed.

Lemma drop_older_suffix (t : Q) (q : list Imu) : suffix_of (drop_older t q) q.
Proof.
  induction q as [|m q [p IH]]; cbn [drop_older].
  - now exists [].
  - destruct (ROS_TIME m <? t - delta_t).
    + exists (m :: p). cbn [app]. now rewrite <- IH.
    + now exists [].
Qed.

Lemma suffix_of_trans (a b c : list Imu) : suffix_of a b -> suffix_of b c -> suffix_of a c.
Proof.
  intros [p ->] [p' ->]. exists (p' ++ p). now rewrite app_assoc.
Qed.

(** Draining a queue and what is left of it from the same stamp keeps the
    one a suffix of the other. *)
Lemma drop_older_app_suffix (t : Q) (p q : list Imu) :
  suffix_of (drop_older t q) (drop_older t (p ++ q)).
Proof.
  induction p as [|m p IH]; cbn [app drop_older].
  - now exists [].
  - destruct (ROS_TIME m <? t - delta_t); [exact IH|].
    apply (suffix_of_trans _ q); [apply drop_older_suffix|].
    now exists (m :: p).
Qed.

(** A callback keeps [imuQueOpt] a suffix of [imuQueImu]. *)
Lemma handle_queue_suffix (ev : Event) (st st' : State) :
  suffix_of (imuQueOpt st) (imuQueImu st) ->
  handle ev st = Some st' ->
  suffix_of (imuQueOpt st') (imuQueImu st').
Proof.
  intros Hs Eh. destruct ev as [imu_raw|odomMsg]; cbn [handle] in Eh.
  - destruct (imuHandler_members imu_raw st) as (Ho & Hi & _). cbn zeta in Ho, Hi.
    destruct (imuHandler imu_raw st) as [o s2|e s2]; [|discriminate].
    injection Eh as <-. cbn [final_state] in Ho, Hi. rewrite Ho, Hi.
    destruct Hs as [p ->]. exists p. now rewrite app_assoc.
  - destruct (odometryHandler odomMsg st) as [br s2|e s2] eqn:Eo; [|discriminate].
    injection Eh as <-.
    rewrite (odometryHandler_queue _ _ _ _ Eo), (odometryHandler_imuQueImu _ _ _ _ Eo).
    destruct Hs as [p Hp]. destruct br;
      try (apply (suffix_of_trans _ (imuQueOpt st)); [apply drop_older_suffix|now exists p]).
    rewrite Hp. apply drop_older_app_suffix.
Qed.

(** X4: in every state the node can reach, [imuQueOpt] is a suffix of
    [imuQueImu]: the two queues hold the same stream, and the optimization
    side has consumed at least as much of it as the forward side. *)
Theorem opt_queue_is_suffix_of_imu_queue (st : State) :
  reachable st -> suffix_of (imuQueOpt st) (imuQueImu st).
Proof.
  revert st. apply (reachable_ind (fun st => suffix_of (imuQueOpt st) (imuQueImu st))).
  - now exists [].
  - intros ev s s1. apply handle_queue_suffix.
Qed.

(** ** The key counter *)

(** X5: in every state the node can reach [key] is between 1 and 100; a
    return at the end of [odometryHandler] has added 1 to it (after the graph
    reset made it 1 if it was 100), and a return through the failure branch
    has not. *)
Theorem key_counter_steps (odomMsg : Odometry) (st st' : State) (br : Branch) :
  reachable st ->
  odometryHandler odomMsg st = Returned br st' ->
  (1 <= key st <= 100)%Z /\ (1 <= key st' <= 100)%Z /\
  match br with
  | Dropped => key st' = key st
  | Initialized => key st' = 1%Z
  | Failed => key st' = if (key st =? 100)%Z then 1%Z else key st
  | Optimized => key st' = if (key st =? 100)%Z then 2%Z else (key st + 1)%Z
  end.
Proof.
  intros Hr H. pose proof (reachable_key_invariant st Hr) as Hinv.
  pose proof (odometryHandler_key_invariant _ _ _ _ Hinv H) as Hinv'.
  split; [apply Hinv|]. split; [apply Hinv'|].
  destruct br.
  - now apply odometryHandler_Dropped in H as [_ ->].
  - apply odometryHandler_Initialized in H as (_ & _ & ->).
    apply initializeSystem_key.
  - apply odometryHandler_Failed in H as (_ & _ & st2 & w & Hd & _ & ->).
    pose proof (optimized_state_frame _ (lidarPose_of odomMsg) (degenerate_of odomMsg) _ _ Hd)
      as (_ & _ & _ & _ & Hk & _).
    cbn zeta in Hk. rewrite afterResetGraph_key in Hk.
    remember (final_state (optimize (lidarPose_of odomMsg) (degenerate_of odomMsg) st2))
      as st3 eqn:E3.
    clear E3 Hd Hinv'. destruct st3. exact Hk.
  - apply odometryHandler_Optimized in H as (_ & _ & st2 & Hd & _ & Hrp).
    pose proof (optimized_state_frame _ (lidarPose_of odomMsg) (degenerate_of odomMsg) _ _ Hd)
      as (_ & _ & _ & _ & Hk & _).
    cbn zeta in Hk, Hrp. rewrite afterResetGraph_key in Hk.
    remember (final_state (optimize (lidarPose_of odomMsg) (degenerate_of odomMsg) st2))
      as st3 eqn:E3.
    clear E3 Hd. apply repropagate_Returned in Hrp. cbn zeta in Hrp. subst st'.
    clear Hinv'. destruct st3. members. cbn [key] in Hk. subst.
    now destruct (key st =? 100)%Z.
Qed.

(** ** What a processed lidar pose leaves *)

(** The members after the optimization block, in terms of the state it
    starts from. *)
Lemma optimize_members (lidarPose : Pose3) (degenerate : bool) (st : State) :
  let st3 := final_state (optimize lidarPose degenerate st) in
  prevPose_ st3 = estimate_Pose3 (optimizer st3) (X (key st)) /\
  prevVel_ st3 = estimate_Vector3 (optimizer st3) (V (key st)) /\
  prevBias_ st3 = estimate_Bias (optimizer st3) (B (key st)) /\
  prevState_ st3 = mkNavState (prevPose_ st3) (prevVel_ st3) /\
  imuIntegratorOpt_ st3 = mkPreintegrated (prevBias_ st3) [] /\
  lastImuT_opt st3 = lastImuT_opt st /\
  imuQueOpt st3 = imuQueOpt st /\
  systemInitialized st3 = systemInitialized st /\
  key st3 = key st.
Proof.
  cbn zeta. destruct st. run_blocks. repeat split.
Qed.

(** A lidar pose that is processed (queue not empty, system initialised):
    the drain returned, and what follows the optimization block (the failure
    check, [resetParams] or the hand-off) has kept the members of the
    optimization side. *)
Lemma odometryHandler_processed (odomMsg : Odometry) (st st' : State) (br : Branch) :
  imuQueOpt st <> [] ->
  systemInitialized st = true ->
  odometryHandler odomMsg st = Returned br st' ->
  exists st2,
    integrateImuOpt (ROS_TIME odomMsg) (imuQueOpt (afterResetGraph st)) (afterResetGraph st)
      = Returned tt st2 /\
    let st3 := final_state (optimize (lidarPose_of odomMsg) (degenerate_of odomMsg) st2) in
    (br = Failed \/ br = Optimized) /\
    optimizer st' = optimizer st3 /\
    prevPose_ st' = prevPose_ st3 /\
    prevVel_ st' = prevVel_ st3 /\
    prevBias_ st' = prevBias_ st3 /\
    prevState_ st' = prevState_ st3 /\
    imuIntegratorOpt_ st' = imuIntegratorOpt_ st3 /\
    lastImuT_opt st' = lastImuT_opt st3 /\
    (br = Optimized ->
     systemInitialized st' = systemInitialized st3 /\
     doneFirstOpt st' = true /\
     prevStateOdom st' = prevState_ st3 /\
     prevBiasOdom st' = prevBias_ st3) /\
    (br = Failed -> systemInitialized st' = false /\ doneFirstOpt st' = false).
Proof.
  intros Hq Hi H. rewrite odometryHandler_initialized in H by assumption.
  destruct (integrateImuOpt (ROS_TIME odomMsg) (imuQueOpt (afterResetGraph st))
              (afterResetGraph st)) as [[] st2|e st2] eqn:Ed.
  2:{ rewrite (processLidarPose_drain_throws _ _ _ _ _ _ Ed) in H. discriminate. }
  rewrite (processLidarPose_drained _ _ _ _ _ Ed) in H. cbn zeta in H.
  exists st2. split; [reflexivity|]. cbn zeta.
  remember (final_state (optimize (lidarPose_of odomMsg) (degenerate_of odomMsg) st2))
    as st3 eqn:E3.
  clear E3 Ed.
  destruct (failureDetection_cases (prevVel_ st3) (prevBias_ st3) st3) as [[w Hf]|Hf];
    rewrite Hf in H.
  - assert (Hbr : br = Failed) by congruence. apply Returned_inj in H. subst st' br.
    destruct st3. members. split; [now left|]. repeat split; discriminate.
  - destruct (repropagate (ROS_TIME odomMsg) st3) as [[] st5|e st5] eqn:Er; [|discriminate].
    assert (Hbr : br = Optimized) by congruence. apply Returned_inj in H. subst st5 br.
    apply repropagate_Returned in Er. cbn zeta in Er. subst st'.
    destruct st3. members. split; [now right|]. repeat split; discriminate.
Qed.

(** ** Invariants of the seed and of the optimization preintegrator *)

Lemma handle_seed_invariant (ev : Event) (st st' : State) :
  seed_invariant st -> handle ev st = Some st' -> seed_invariant st'.
Proof.
  unfold seed_invariant. intros Hs Eh.
  destruct ev as [imu_raw|odomMsg]; cbn [handle] in Eh.
  - destruct (imuHandler_members imu_raw st)
      as (_ & _ & Hi & Hd & _ & Hpp & Hpv & Hps & Hpb & Hso & Hbo & _).
    cbn zeta in *.
    destruct (imuHandler imu_raw st) as [o s2|e s2]; [|discriminate].
    injection Eh as <-. cbn [final_state] in *.
    rewrite Hi, Hd, Hpp, Hpv, Hps, Hpb, Hso, Hbo. exact Hs.
  - destruct (odometryHandler odomMsg st) as [br s2|e s2] eqn:Eo; [|discriminate].
    injection Eh as <-. destruct br.
    + now apply odometryHandler_Dropped in Eo as [_ ->].
    + apply odometryHandler_Initialized in Eo as (_ & Hi & ->).
      destruct (initializeSystem_members (ROS_TIME odomMsg) (lidarPose_of odomMsg) st)
        as (_ & _ & _ & _ & _ & _ & _ & _ & _ & _ & _ & Hd & _).
      cbn zeta in Hd. rewrite Hd. intros Hdone. destruct (Hs Hdone) as [Hi' _]. congruence.
    + pose proof (odometryHandler_Failed _ _ _ Eo) as (Hq & Hi & _).
      destruct (odometryHandler_processed _ _ _ _ Hq Hi Eo)
        as (st2 & _ & _ & _ & _ & _ & _ & _ & _ & _ & _ & Hf).
      destruct (Hf eq_refl) as [_ Hd]. rewrite Hd. discriminate.
    + pose proof (odometryHandler_Optimized _ _ _ Eo) as (Hq & Hi & _).
      destruct (odometryHandler_processed _ _ _ _ Hq Hi Eo)
        as (st2 & Hdr & _ & _ & Hpp & Hpv & Hpb & Hps & _ & _ & Ho & _).
      cbn zeta in *. destruct (Ho eq_refl) as (Hsi & _ & Hso & Hbo).
      destruct (optimize_members (lidarPose_of odomMsg) (degenerate_of odomMsg) st2)
        as (_ & _ & _ & Hst & _ & _ & _ & Hsi3 & _).
      cbn zeta in Hst, Hsi3.
      pose proof (integrateImuOpt_Returned _ _ _ _ eq_refl Hdr) as E2.
      assert (Hi2 : systemInitialized st2 = true).
      { rewrite E2. rewrite <- Hi. rewrite (afterResetGraph_frame st).
        generalize (key (afterResetGraph st)) (optimizer (afterResetGraph st))
          (graphFactors (afterResetGraph st)) (graphValues (afterResetGraph st)).
        intros. destruct st. reflexivity. }
      intros _. rewrite Hsi, Hsi3, Hso, Hbo, Hps, Hpb, Hpp, Hpv.
      split; [exact Hi2|]. split; [reflexivity|]. split; [reflexivity|]. exact Hst.
Qed.

(** X6: whenever the forward path is enabled ([doneFirstOpt] set), the
    system is initialised and the seed of the forward propagator
    ([prevStateOdom], [prevBiasOdom]) is the state and bias of the last
    optimization ([prevState_], [prevBias_]), that state being made of
    [prevPose_] and [prevVel_]. *)
Theorem forward_seed_is_last_optimized (st : State) :
  reachable st ->
  doneFirstOpt st = true ->
  systemInitialized st = true /\
  prevStateOdom st = prevState_ st /\
  prevBiasOdom st = prevBias_ st /\
  prevState_ st = mkNavState (prevPose_ st) (prevVel_ st).
Proof.
  revert st. apply (reachable_ind seed_invariant).
  - intros H. discriminate H.
  - intros ev s s1. apply handle_seed_invariant.
Qed.

Lemma handle_opt_preintegrator_reset (ev : Event) (st st' : State) :
  opt_preintegrator_reset st -> handle ev st = Some st' -> opt_preintegrator_reset st'.
Proof.
  unfold opt_preintegrator_reset. intros Hs Eh.
  destruct ev as [imu_raw|odomMsg]; cbn [handle] in Eh.
  - destruct (imuHandler_members imu_raw st)
      as (_ & _ & _ & _ & _ & _ & _ & _ & Hpb & _ & _ & Hp & _).
    cbn zeta in *.
    destruct (imuHandler imu_raw st) as [o s2|e s2]; [|discriminate].
    injection Eh as <-. cbn [final_state] in *. now rewrite Hp, Hpb.
  - destruct (odometryHandler odomMsg st) as [br s2|e s2] eqn:Eo; [|discriminate].
    injection Eh as <-.
    assert (Hcases : br = Dropped \/ br = Initialized \/ br = Failed \/ br = Optimized)
      by (destruct br; auto).
    destruct Hcases as [->|[->|Hbr]].
    + now apply odometryHandler_Dropped in Eo as [_ ->].
    + apply odometryHandler_Initialized in Eo as (_ & _ & ->).
      destruct (initializeSystem_members (ROS_TIME odomMsg) (lidarPose_of odomMsg) st)
        as (_ & _ & _ & _ & Hb & _ & _ & Hp & _).
      cbn zeta in Hb, Hp. now rewrite Hp, Hb.
    + assert (Hq : imuQueOpt st <> [] /\ systemInitialized st = true).
      { destruct Hbr as [->| ->].
        - now apply odometryHandler_Failed in Eo as (Hq & Hi & _).
        - now apply odometryHandler_Optimized in Eo as (Hq & Hi & _). }
      destruct Hq as [Hq Hi].
      destruct (odometryHandler_processed _ _ _ _ Hq Hi Eo)
        as (st2 & _ & _ & _ & _ & _ & Hpb & _ & Hp & _).
      cbn zeta in *.
      destruct (optimize_members (lidarPose_of odomMsg) (degenerate_of odomMsg) st2)
        as (_ & _ & _ & _ & Hr & _).
      cbn zeta in Hr. now rewrite Hp, Hpb.
Qed.

Lemma reachable_opt_preintegrator_reset (st : State) :
  reachable st -> opt_preintegrator_reset st.
Proof.
  revert st. apply (reachable_ind opt_preintegrator_reset).
  - reflexivity.
  - intros ev s s1. apply handle_opt_preintegrator_reset.
Qed.

(** ** The factors and values of a keyframe *)

(** The state after the drain, in terms of the state at entry. *)
Lemma drain_members (t : Q) (st st2 : State) :
  integrateImuOpt t (imuQueOpt (afterResetGraph st)) (afterResetGraph st) = Returned tt st2 ->
  imuIntegratorOpt_ st2 =
    advanced (imuIntegratorOpt_ st)
      (samples_with_dt (lastImuT_opt st) (take_older t (imuQueOpt st))) /\
  lastImuT_opt st2 = last_stamp (take_older t (imuQueOpt st)) (lastImuT_opt st) /\
  imuQueOpt st2 = drop_older t (imuQueOpt st) /\
  prevState_ st2 = prevState_ st /\
  prevBias_ st2 = prevBias_ st /\
  key st2 = key (afterResetGraph st) /\
  optimizer st2 = optimizer (afterResetGraph st) /\
  graphFactors st2 = graphFactors (afterResetGraph st) /\
  graphValues st2 = graphValues (afterResetGraph st).
Proof.
  intros Hd. apply integrateImuOpt_Returned in Hd; [|reflexivity]. subst st2.
  destruct (afterResetGraph_members st) as (-> & -> & -> & _).
  pose proof (afterResetGraph_frame st) as Hf. revert Hf.
  generalize (key (afterResetGraph st)) (optimizer (afterResetGraph st))
    (graphFactors (afterResetGraph st)) (graphValues (afterResetGraph st)).
  intros k o f v ->. destruct st. members. repeat split.
Qed.

Lemma afterResetGraph_graph_cleared (st : State) :
  graph_cleared st -> graph_cleared (afterResetGraph st).
Proof.
  intros Hg. unfold afterResetGraph. destruct (key st =? 100)%Z; [|exact Hg].
  destruct st. split; reflexivity.
Qed.

(** X7: for a lidar pose processed in a state the node can reach, the update
    given to the smoother consists of the IMU factor between keyframes
    [key-1] and [key], whose preintegration holds exactly the samples that
    this call removed from [imuQueOpt] (those stamped before the pose), in
    order and under the bias [prevBias_]; the bias factor whose sigmas are
    the configured random-walk densities times [sqrt(deltaTij)]; and the pose
    prior; with the values predicted from [prevState_] and the bias carried
    over.  The empty update follows, and the estimate read back at [key]
    becomes [prevPose_], [prevVel_], [prevBias_]. *)
Theorem keyframe_update_contents (odomMsg : Odometry) (st st' : State) (br : Branch) :
  reachable st ->
  imuQueOpt st <> [] ->
  systemInitialized st = true ->
  odometryHandler odomMsg st = Returned br st' ->
  let st1 := afterResetGraph st in
  let k := key st1 in
  let pim :=
    mkPreintegrated (prevBias_ st)
      (samples_with_dt (lastImuT_opt st) (take_older (ROS_TIME odomMsg) (imuQueOpt st))) in
  let propState_ := predict pim (prevState_ st) (prevBias_ st) in
  isam_updates (optimizer st') =
    isam_updates (optimizer st1) ++
      [([ImuFactor (X (k - 1)) (V (k - 1)) (X k) (V k) (B (k - 1)) pim;
         BetweenFactor (B (k - 1)) (B k) ConstantBias_zero
           (Diagonal_Sigmas (map (Qmult (sqrt_double (deltaTij pim))) noiseModelBetweenBias));
         PriorFactor (X k) (Value_Pose3 (Pose3_compose (lidarPose_of odomMsg) lidar2Imu))
           (if degenerate_of odomMsg then correctionNoise2 else correctionNoise)],
        [(X k, Value_Pose3 (pose propState_));
         (V k, Value_Vector3 (velocity propState_));
         (B k, Value_Bias (prevBias_ st))]);
       ([], [])] /\
  prevPose_ st' = estimate_Pose3 (optimizer st') (X k) /\
  prevVel_ st' = estimate_Vector3 (optimizer st') (V k) /\
  prevBias_ st' = estimate_Bias (optimizer st') (B k) /\
  prevState_ st' = mkNavState (prevPose_ st') (prevVel_ st').
Proof.
  intros Hr Hq Hi H. cbn zeta.
  destruct (odometryHandler_processed _ _ _ _ Hq Hi H)
    as (st2 & Hdr & _ & Ho & Hpp & Hpv & Hpb & Hps & _).
  cbn zeta in *.
  destruct (drain_members _ _ _ Hdr) as (Ep & _ & _ & Es & Eb & Ek & Eo & Ef & Ev).
  destruct (afterResetGraph_graph_cleared st (reachable_graph_cleared st Hr)) as [Hf Hv].
  rewrite Hf in Ef. rewrite Hv in Ev.
  rewrite (reachable_opt_preintegrator_reset st Hr) in Ep.
  unfold advanced in Ep. cbn [biasHat measurements app] in Ep.
  destruct (optimize_optimizer (lidarPose_of odomMsg) (degenerate_of odomMsg) st2)
    as (Hopt & _).
  destruct (optimize_members (lidarPose_of odomMsg) (degenerate_of odomMsg) st2)
    as (H1 & H2 & H3 & H4 & _).
  cbn zeta in Hopt, H1, H2, H3, H4.
  rewrite Ep, Es, Eb, Ek, Eo, Ef, Ev in Hopt. rewrite Ek in H1, H2, H3.
  remember (final_state (optimize (lidarPose_of odomMsg) (degenerate_of odomMsg) st2))
    as st3 eqn:E3.
  clear E3. rewrite Hps, Hpp, Hpv, Hpb, Ho.
  split; [|split; [exact H1|split; [exact H2|split; [exact H3|exact H4]]]].
  rewrite Hopt. cbn [ISAM2_update isam_updates app]. rewrite <- app_assoc. reflexivity.
Qed.

(** ** The stamp of the last sample drained *)

Lemma take_drop_older (t : Q) (q : list Imu) : take_older t q ++ drop_older t q = q.
Proof.
  induction q as [|m q IH]; cbn [take_older drop_older]; [reflexivity|].
  destruct (ROS_TIME m <? t - delta_t); [cbn [app]; now rewrite IH|reflexivity].
Qed.

Lemma odometryHandler_lastImuT_opt (odomMsg : Odometry) (st st' : State) (br : Branch) :
  odometryHandler odomMsg st = Returned br st' ->
  lastImuT_opt st' =
    last_stamp (take_older (ROS_TIME odomMsg) (imuQueOpt st)) (lastImuT_opt st).
Proof.
  intros H.
  assert (Hcases : br = Dropped \/ br = Initialized \/ br = Failed \/ br = Optimized)
    by (destruct br; auto).
  destruct Hcases as [->|[->|Hbr]].
  - apply odometryHandler_Dropped in H as [-> ->]. reflexivity.
  - apply odometryHandler_Initialized in H as (_ & _ & ->).
    now destruct (initializeSystem_members (ROS_TIME odomMsg) (lidarPose_of odomMsg) st)
      as (_ & _ & _ & _ & _ & _ & _ & _ & _ & Hl & _).
  - assert (Hq : imuQueOpt st <> [] /\ systemInitialized st = true).
    { destruct Hbr as [->| ->].
      - now apply odometryHandler_Failed in H as (Hq & Hi & _).
      - now apply odometryHandler_Optimized in H as (Hq & Hi & _). }
    destruct Hq as [Hq Hi].
    destruct (odometryHandler_processed _ _ _ _ Hq Hi H)
      as (st2 & Hdr & _ & _ & _ & _ & _ & _ & _ & Hl & _).
    cbn zeta in Hl.
    destruct (drain_members _ _ _ Hdr) as (_ & El & _).
    destruct (optimize_members (lidarPose_of odomMsg) (degenerate_of odomMsg) st2)
      as (_ & _ & _ & _ & _ & Hl3 & _).
    cbn zeta in Hl3. now rewrite Hl, Hl3.
Qed.

(** X8: on every return of [odometryHandler], the queue at entry is the
    samples removed (those stamped before the pose, up to the first that is
    not) followed by the queue left, and [lastImuT_opt] is the stamp of the
    last sample removed, unchanged if none was; no branch resets it, the
    failure branch included ([resetParams] resets [lastImuT_imu] only). *)
Theorem lastImuT_opt_follows_the_drain (odomMsg : Odometry) (st st' : State) (br : Branch) :
  odometryHandler odomMsg st = Returned br st' ->
  let removed := take_older (ROS_TIME odomMsg) (imuQueOpt st) in
  imuQueOpt st = removed ++ imuQueOpt st' /\
  Forall (fun m => ROS_TIME m < ROS_TIME odomMsg) removed /\
  lastImuT_opt st' = last_stamp removed (lastImuT_opt st) /\
  (removed = [] -> lastImuT_opt st' = lastImuT_opt st).
Proof.
  intros H removed. subst removed.
  rewrite (odometryHandler_queue _ _ _ _ H), (odometryHandler_lastImuT_opt _ _ _ _ H).
  split; [symmetry; apply take_drop_older|]. split.
  - induction (imuQueOpt st) as [|m q IH]; cbn [take_older]; [constructor|].
    destruct (ROS_TIME m <? ROS_TIME odomMsg - delta_t) eqn:E; [|constructor].
    constructor; [|exact IH]. apply Qltb_lt in E. unfold delta_t in E. lra.
  - split; [reflexivity|]. now intros ->.
Qed.

(** ** After a failure *)


(** ** The outcomes of the inertial handler *)

(** X10: [imuHandler] has three outcomes, decided by [doneFirstOpt] and the
    sign of [dt]: it returns without a message exactly when [doneFirstOpt] is
    not set, it returns with a message exactly when [doneFirstOpt] is set and
    [dt] is positive, and it throws exactly when [doneFirstOpt] is set and
    [dt] is not positive; in all three the converted sample has been put at
    the back of both queues, once. *)
Theorem imuHandler_outcomes (imu_raw : Imu) (st : State) :
  let thisImu := imuConverter imu_raw in
  let dt := dt_since (lastImuT_imu st) (ROS_TIME thisImu) in
  let out := imuHandler imu_raw st in
  ((exists st', out = Returned None st') <-> doneFirstOpt st = false) /\
  ((exists odometry st', out = Returned (Some odometry) st')
   <-> doneFirstOpt st = true /\ 0 < dt) /\
  ((exists e st', out = Thrown e st') <-> doneFirstOpt st = true /\ dt <= 0) /\
  imuQueOpt (final_state out) = imuQueOpt st ++ [thisImu] /\
  imuQueImu (final_state out) = imuQueImu st ++ [thisImu].
Proof.
  intros thisImu dt out.
  destruct (imuHandler_members imu_raw st) as (Hqo & Hqi & _). cbn zeta in Hqo, Hqi.
  fold out in Hqo, Hqi. fold thisImu in Hqo, Hqi.
  assert (Hout :
    (doneFirstOpt st = false /\ exists st', out = Returned None st') \/
    (doneFirstOpt st = true /\ 0 < dt /\
     exists odometry st', out = Returned (Some odometry) st') \/
    (doneFirstOpt st = true /\ dt <= 0 /\ exists e st', out = Thrown e st')).
  { destruct (doneFirstOpt st) eqn:Hd.
    - destruct (Qlt_le_dec 0 dt) as [Hdt|Hdt].
      + right; left. repeat split; try assumption. eexists. eexists.
        subst out. apply imuHandler_integrates; assumption.
      + right; right. repeat split; try assumption. eexists. eexists.
        subst out. apply imuHandler_throws; assumption.
    - left. split; [reflexivity|]. eexists. subst out. now apply imuHandler_guard. }
  clearbody out.
  split; [|split; [|split; [|split; [exact Hqo|exact Hqi]]]].
  - split.
    + intros [st' E]. destruct Hout as [[Hd _]|[(_ & _ & o & s & E')|(_ & _ & e & s & E')]];
        [exact Hd|congruence|congruence].
    + intros Hd. destruct Hout as [[_ He]|[(Hd' & _)|(Hd' & _)]]; [exact He|congruence..].
  - split.
    + intros (o & st' & E).
      destruct Hout as [(_ & s & E')|[(Hd & Hdt & _)|(_ & _ & e & s & E')]];
        [congruence|now split|congruence].
    + intros [Hd Hdt].
      destruct Hout as [[Hd' _]|[(_ & _ & He)|(_ & Hdt' & _)]];
        [congruence|exact He|lra].
  - split.
    + intros (e & st' & E).
      destruct Hout as [(_ & s & E')|[(_ & _ & o & s & E')|(Hd & Hdt & _)]];
        [congruence|congruence|now split].
    + intros [Hd Hdt].
      destruct Hout as [[Hd' _]|[(_ & Hdt' & _)|(_ & _ & He)]];
        [congruence|lra|exact He].
Qed.

(** ** Runs with ordered inertial stamps *)

Lemma StronglySorted_app_r {A : Type} (R : A -> A -> Prop) (a b : list A) :
  StronglySorted R (a ++ b) -> StronglySorted R b.
Proof.
  induction a as [|x a IH]; cbn [app]; [trivial|].
  intros H. inversion H. auto.
Qed.

Lemma StronglySorted_app_l {A : Type} (R : A -> A -> Prop) (a b : list A) :
  StronglySorted R (a ++ b) -> StronglySorted R a.
Proof.
  induction a as [|x a IH]; cbn [app]; intros H; [constructor|].
  inversion H as [|? ? Hs Hf]; subst. constructor; [auto|].
  apply Forall_app in Hf. tauto.
Qed.

Lemma StronglySorted_stamps (R : Q -> Q -> Prop) (q : list Imu) :
  StronglySorted R (stamps q) ->
  StronglySorted (fun a b => R (ROS_TIME a) (ROS_TIME b)) q.
Proof.
  unfold stamps. induction q as [|m q IH]; cbn [map]; intros H; [constructor|].
  inversion H as [|? ? Hs Hf]; subst. constructor; [auto|].
  rewrite Forall_map in Hf. exact Hf.
Qed.

Lemma stamps_app (a b : list Imu) : stamps (a ++ b) = stamps a ++ stamps b.
Proof. apply map_app. Qed.

(** A callback keeps the stamps of [imuQueImu], followed by those still to
    come, in order. *)
Lemma handle_sorted (R : Q -> Q -> Prop) (ev : Event) (evs : list Event) (st st' : State) :
  StronglySorted R (stamps (imuQueImu st) ++ imu_stamps (ev :: evs)) ->
  handle ev st = Some st' ->
  StronglySorted R (stamps (imuQueImu st') ++ imu_stamps evs).
Proof.
  intros Hs Eh. destruct ev as [imu_raw|odomMsg]; cbn [handle imu_stamps] in *.
  - destruct (imuHandler_members imu_raw st) as (_ & Hi & _). cbn zeta in Hi.
    destruct (imuHandler imu_raw st) as [o s2|e s2]; [|discriminate].
    injection Eh as <-. cbn [final_state] in Hi. rewrite Hi, stamps_app.
    rewrite <- app_assoc. exact Hs.
  - destruct (odometryHandler odomMsg st) as [br s2|e s2] eqn:Eo; [|discriminate].
    injection Eh as <-. rewrite (odometryHandler_imuQueImu _ _ _ _ Eo).
    destruct br; try exact Hs.
    destruct (drop_older_suffix (ROS_TIME odomMsg) (imuQueImu st)) as [p Hp].
    rewrite Hp, stamps_app, <- app_assoc in Hs.
    exact (StronglySorted_app_r _ _ _ Hs).
Qed.

Lemma run_sorted (R : Q -> Q -> Prop) (evs : list Event) (st st' : State) :
  StronglySorted R (stamps (imuQueImu st) ++ imu_stamps evs) ->
  run evs st = Some st' ->
  StronglySorted R (stamps (imuQueImu st')).
Proof.
  revert st. induction evs as [|ev evs IH]; intros st Hs Hrun; cbn [run] in Hrun.
  - injection Hrun as <-. cbn [imu_stamps] in Hs. now rewrite app_nil_r in Hs.
  - destruct (handle ev st) as [s1|] eqn:Eh; [|discriminate].
    exact (IH s1 (handle_sorted R ev evs st s1 Hs Eh) Hrun).
Qed.

(** X11: if the inertial samples of a run arrive with non-decreasing stamps,
    then in the state reached both queues are in stamp order, and the next
    lidar pose, whatever its stamp and through whichever branch it returns,
    leaves in [imuQueOpt] no sample stamped before it. *)
Theorem ordered_run_keeps_queues_sorted (evs : list Event) (st : State) :
  StronglySorted Qle (imu_stamps evs) ->
  run evs IMUPreintegration_new = Some st ->
  sorted_stamps (imuQueImu st) /\
  sorted_stamps (imuQueOpt st) /\
  forall (odomMsg : Odometry) (br : Branch) (st' : State),
    odometryHandler odomMsg st = Returned br st' ->
    Forall (fun m => ~ ROS_TIME m < ROS_TIME odomMsg) (imuQueOpt st').
Proof.
  intros Hs Hrun.
  assert (Hi : StronglySorted Qle (stamps (imuQueImu st))).
  { apply (run_sorted Qle evs IMUPreintegration_new); [exact Hs|exact Hrun]. }
  assert (Ho : StronglySorted Qle (stamps (imuQueOpt st))).
  { assert (Hsuf : suffix_of (imuQueOpt st) (imuQueImu st)).
    { assert (Hr : reachable st) by (now exists evs).
      revert Hr. generalize st.
      apply (reachable_ind (fun s => suffix_of (imuQueOpt s) (imuQueImu s)));
        [now exists []|intros ev s s1; apply handle_queue_suffix]. }
    destruct Hsuf as [p Hp]. rewrite Hp, stamps_app in Hi.
    exact (StronglySorted_app_r _ _ _ Hi). }
  apply StronglySorted_stamps in Hi, Ho.
  split; [exact Hi|]. split; [exact Ho|].
  intros odomMsg br st' H. rewrite (odometryHandler_queue _ _ _ _ H).
  now apply drop_older_sorted.
Qed.

(** ** Runs with strictly increasing inertial stamps *)

Lemma dt_since_pos (last t : Q) : last < 0 \/ last < t -> 0 < dt_since last t.
Proof.
  intros H. unfold dt_since. destruct (last <? 0) eqn:E; [reflexivity|].
  apply Qltb_ge in E. destruct H as [H|H]; lra.
Qed.

Lemma sorted_positive_dts (last : Q) (q : list Imu) :
  precedes last (stamps q) -> StronglySorted Qlt (stamps q) -> positive_dts last q.
Proof.
  unfold positive_dts, stamps. revert last.
  induction q as [|m q IH]; intros last Hp Hs; cbn [samples_with_dt map] in *.
  - constructor.
  - inversion Hs as [|? ? Hs' Hf]; subst. constructor.
    + cbn [snd]. apply dt_since_pos.
      destruct Hp as [Hp|Hp]; [now left|right]. now inversion Hp.
    + apply IH; [right; exact Hf|exact Hs'].
Qed.

(** After the samples [a] have been taken from the front of an increasing
    stream, the stamp of the last one precedes what follows. *)
Lemma last_stamp_precedes (a : list Imu) (l : list Q) (last : Q) :
  StronglySorted Qlt (stamps a ++ l) -> precedes last (stamps a ++ l) ->
  precedes (last_stamp a last) l.
Proof.
  unfold stamps. revert last.
  induction a as [|x a IH]; intros last Hs Hp; cbn [last_stamp map app] in *.
  - exact Hp.
  - inversion Hs as [|? ? Hs' Hf]; subst. apply IH; [exact Hs'|right; exact Hf].
Qed.

Lemma precedes_tail (last x : Q) (l : list Q) : precedes last (x :: l) -> precedes last l.
Proof.
  intros [H|H]; [now left|right]. now inversion H.
Qed.

(** On an increasing queue the optimization drain returns. *)
Lemma integrateImuOpt_returns (t : Q) (st : State) :
  StronglySorted Qlt (stamps (imuQueOpt st)) ->
  precedes (lastImuT_opt st) (stamps (imuQueOpt st)) ->
  exists st', integrateImuOpt t (imuQueOpt st) st = Returned tt st'.
Proof.
  intros Hs Hp.
  destruct (integrateImuOpt t (imuQueOpt st) st) as [[] st'|e st'] eqn:E; [now exists st'|].
  apply integrateImuOpt_Thrown in E as (done & m & rest & Eq & _ & _ & Hdt); [|reflexivity].
  rewrite Eq, stamps_app in Hs, Hp.
  pose proof (last_stamp_precedes done (stamps (m :: rest)) _ Hs Hp) as H.
  assert (Hpos : 0 < dt_since (last_stamp done (lastImuT_opt st)) (ROS_TIME m)).
  { apply dt_since_pos. destruct H as [H|H]; [now left|right].
    unfold stamps in H. cbn [map] in H. now inversion H. }
  lra.
Qed.

(** On an increasing queue the hand-off returns. *)
Lemma handoff_positive_dts (t : Q) (q : list Imu) :
  StronglySorted Qlt (stamps q) ->
  positive_dts (last_stamp (take_older t q) (-1)) (drop_older t q).
Proof.
  intros Hs. rewrite <- (take_drop_older t q), stamps_app in Hs.
  apply sorted_positive_dts.
  - rewrite <- (app_nil_r (stamps (drop_older t q))) at 1.
    rewrite <- (app_nil_r (stamps (drop_older t q))) in Hs.
    apply last_stamp_precedes.
    + rewrite !app_nil_r in *. exact Hs.
    + left. reflexivity.
  - exact (StronglySorted_app_r _ _ _ Hs).
Qed.

(** With both queues increasing and [lastImuT_opt] before the optimization
    queue, [odometryHandler] returns. *)
Lemma odometryHandler_returns (odomMsg : Odometry) (st : State) :
  StronglySorted Qlt (stamps (imuQueImu st)) ->
  StronglySorted Qlt (stamps (imuQueOpt st)) ->
  precedes (lastImuT_opt st) (stamps (imuQueOpt st)) ->
  exists br st', odometryHandler odomMsg st = Returned br st'.
Proof.
  intros Hi Ho Hp.
  assert (Hq : imuQueOpt st = [] \/ imuQueOpt st <> [])
    by (destruct (imuQueOpt st); [left|right]; congruence).
  destruct Hq as [Hq|Hq].
  { exists Dropped, st. now apply odometryHandler_empty. }
  destruct (systemInitialized st) eqn:Ei.
  2:{ rewrite odometryHandler_uninitialized by assumption. eexists _, _. reflexivity. }
  rewrite odometryHandler_initialized by assumption.
  destruct (integrateImuOpt_returns (ROS_TIME odomMsg) (afterResetGraph st)) as [st2 Hd].
  { destruct (afterResetGraph_members st) as (-> & _). exact Ho. }
  { destruct (afterResetGraph_members st) as (-> & -> & _). exact Hp. }
  rewrite (processLidarPose_drained _ _ _ _ _ Hd). cbn zeta.
  pose proof (optimized_state_frame _ (lidarPose_of odomMsg) (degenerate_of odomMsg) _ _ Hd)
    as (_ & _ & Hq3 & _).
  cbn zeta in Hq3.
  remember (final_state (optimize (lidarPose_of odomMsg) (degenerate_of odomMsg) st2))
    as st3 eqn:E3.
  clear E3 Hd.
  destruct (failureDetection_cases (prevVel_ st3) (prevBias_ st3) st3) as [[w Hf]|Hf];
    rewrite Hf.
  - eexists _, _. reflexivity.
  - destruct (repropagate_returns (ROS_TIME odomMsg) st3) as [st5 Hr].
    { rewrite Hq3. now apply handoff_positive_dts. }
    rewrite Hr. eexists _, _. reflexivity.
Qed.

(** A callback on a state that satisfies the invariant returns, and the
    invariant holds again. *)
Lemma handle_increasing (ev : Event) (evs : list Event) (st : State) :
  increasing_invariant st (imu_stamps (ev :: evs)) ->
  exists st', handle ev st = Some st' /\ increasing_invariant st' (imu_stamps evs).
Proof.
  intros Hinv.
  assert (Hret : exists st', handle ev st = Some st').
  { destruct Hinv as (Ha & Hb & Hc & Hd).
    destruct ev as [imu_raw|odomMsg]; cbn [handle imu_stamps] in *.
    - destruct (doneFirstOpt st) eqn:Ed.
      + rewrite imuHandler_integrates; [eexists; reflexivity|exact Ed|].
        apply dt_since_pos. destruct Hd as [Hd|Hd]; [now left|right]. now inversion Hd.
      + rewrite imuHandler_guard by exact Ed. eexists; reflexivity.
    - destruct Hb as [p Hb].
      assert (Hso : StronglySorted Qlt (stamps (imuQueOpt st) ++ imu_stamps evs)).
      { rewrite Hb, stamps_app, <- app_assoc in Ha. exact (StronglySorted_app_r _ _ _ Ha). }
      destruct (odometryHandler_returns odomMsg st) as (br & st' & H).
      + exact (StronglySorted_app_l _ _ _ Ha).
      + exact (StronglySorted_app_l _ _ _ Hso).
      + destruct Hc as [Hc|Hc]; [now left|right]. apply Forall_app in Hc. tauto.
      + rewrite H. now exists st'. }
  destruct Hret as [st' Eh]. exists st'. split; [exact Eh|].
  pose proof Hinv as (Ha & Hb & Hc & Hd).
  split; [exact (handle_sorted Qlt ev evs st st' Ha Eh)|].
  split; [exact (handle_queue_suffix ev st st' Hb Eh)|].
  destruct ev as [imu_raw|odomMsg]; cbn [handle imu_stamps] in *.
  - destruct (imuHandler_members imu_raw st)
      as (Eo & _ & _ & _ & _ & _ & _ & _ & _ & _ & _ & _ & El & _).
    cbn zeta in Eo, El.
    assert (Hlast : lastImuT_imu st' = lastImuT_imu st \/
                    lastImuT_imu st' = ROS_TIME (imuConverter imu_raw)).
    { destruct (doneFirstOpt st) eqn:Ed.
      - right. rewrite imuHandler_integrates in Eh.
        + injection Eh as <-. clear. destruct st. reflexivity.
        + exact Ed.
        + apply dt_since_pos. destruct Hd as [Hd|Hd]; [now left|right]. now inversion Hd.
      - left. rewrite imuHandler_guard in Eh by exact Ed.
        injection Eh as <-. clear. destruct st. reflexivity. }
    destruct (imuHandler imu_raw st) as [o s2|e s2]; [|discriminate].
    injection Eh as ->. cbn [final_state] in Eo, El.
    split.
    + rewrite Eo, El, stamps_app, <- app_assoc. exact Hc.
    + destruct Hlast as [-> | ->]; [exact (precedes_tail _ _ _ Hd)|].
      right. apply StronglySorted_app_r in Ha. now inversion Ha.
  - destruct (odometryHandler odomMsg st) as [br s2|e s2] eqn:Eo; [|discriminate].
    injection Eh as ->.
    rewrite (odometryHandler_lastImuT_opt _ _ _ _ Eo), (odometryHandler_queue _ _ _ _ Eo),
      (odometryHandler_lastImuT_imu _ _ _ _ Eo).
    split.
    + destruct Hb as [p Hb].
      rewrite Hb, stamps_app, <- app_assoc in Ha. apply StronglySorted_app_r in Ha.
      rewrite <- (take_drop_older (ROS_TIME odomMsg) (imuQueOpt st)), stamps_app,
        <- app_assoc in Ha, Hc.
      exact (last_stamp_precedes _ _ _ Ha Hc).
    + destruct br; try exact Hd. left. reflexivity.
Qed.

Lemma run_increasing (evs : list Event) (st : State) :
  increasing_invariant st (imu_stamps evs) ->
  exists st', run evs st = Some st' /\ increasing_invariant st' [].
Proof.
  revert st. induction evs as [|ev evs IH]; intros st Hinv; cbn [run].
  - now exists st.
  - destruct (handle_increasing ev evs st Hinv) as (s1 & -> & H1). exact (IH s1 H1).
Qed.

(** X12: if the inertial samples of a run arrive with strictly increasing
    stamps, every [dt] that the handlers compute is positive: no call of
    [integrateMeasurement] fails, in [imuHandler], in the optimization drain
    or in the hand-off, whatever lidar poses arrive in between and whatever
    their stamps, and every callback of the run returns. *)
Theorem increasing_stamps_never_throw (evs : list Event) :
  StronglySorted Qlt (imu_stamps evs) ->
  exists st, run evs IMUPreintegration_new = Some st.
Proof.
  intros Hs.
  destruct (run_increasing evs IMUPreintegration_new) as (st & H & _); [|now exists st].
  split; [exact Hs|]. split; [now exists []|].
  split; left; reflexivity.
Qed.
End Properties.

(** * Properties of [TransformFusion] *)

Section FusionProperties.

Context {params : ParamServer} {frames : Frames} {transforms : Transforms}.

(** ** The two loops *)

(** The pruning loop removes a prefix of messages stamped at or before the
    lidar odometry, and stops at a message stamped after it. *)
Lemma popOldImuOdom_spec (t : Q) (q : list Odometry) :
  exists older,
    q = older ++ popOldImuOdom t q /\
    Forall (fun m => ROS_TIME m <= t) older /\
    match popOldImuOdom t q with
    | [] => True
    | front :: _ => t < ROS_TIME front
    end.
Proof.
  induction q as [|m q (older & Eq & Ho & Hf)]; cbn [popOldImuOdom].
  - exists []. repeat split. constructor.
  - destruct (Qle_bool (ROS_TIME m) t) eqn:E.
    + exists (m :: older). cbn [app]. rewrite <- Eq. repeat split; [|exact Hf].
      constructor; [now apply Qle_bool_iff|exact Ho].
    + exists []. repeat split; [constructor|].
      apply Qnot_le_lt. intros H. apply Qle_bool_iff in H. congruence.
Qed.

Lemma popOldImuOdom_nil (t : Q) (q : list Odometry) :
  popOldImuOdom t q = [] <-> Forall (fun m => ROS_TIME m <= t) q.
Proof.
  induction q as [|m q IH]; cbn [popOldImuOdom].
  - split; [constructor|reflexivity].
  - destruct (Qle_bool (ROS_TIME m) t) eqn:E.
    + rewrite IH. split; [intros H; constructor; [now apply Qle_bool_iff|exact H]|].
      intros H. now inversion H.
    + split; [discriminate|]. intros H. inversion H as [|? ? Hm _]; subst.
      apply Qle_bool_iff in Hm. congruence.
Qed.

Lemma last_cons {A : Type} (r : list A) (x d : A) : last (x :: r) d = last r x.
Proof.
  revert x d. induction r as [|b r IH]; intros x d; [reflexivity|].
  change (last (x :: b :: r) d) with (last (b :: r) d).
  now rewrite (IH b d), (IH b x).
Qed.

Lemma last_app_cons {A : Type} (l : list A) (x : A) (r : list A) (d : A) :
  last (l ++ x :: r) d = last r x.
Proof.
  revert d. induction l as [|a l IH]; intros d; cbn [app].
  - apply last_cons.
  - rewrite last_cons. apply IH.
Qed.

(** The message just queued is the back of what the pruning leaves, if it
    leaves anything. *)
Lemma popOldImuOdom_back (t : Q) (q : list Odometry) (m front : Odometry)
  (rest : list Odometry) :
  popOldImuOdom t (q ++ [m]) = front :: rest -> last rest front = m.
Proof.
  intros E. destruct (popOldImuOdom_spec t (q ++ [m])) as (older & Eq & _).
  rewrite E in Eq.
  rewrite <- (last_app_cons older front rest m), <- Eq.
  apply (last_app_cons q m [] m).
Qed.

Lemma erasePath_suffix (t : Q) (ps : list PoseStamped) :
  exists erased, ps = erased ++ erasePath t ps /\ Forall (fun p => ps_stamp p < t) erased.
Proof.
  induction ps as [|p ps (erased & Eq & He)]; cbn [erasePath].
  - exists []. split; [reflexivity|constructor].
  - destruct (ps_stamp p <? t) eqn:E.
    + exists (p :: erased). cbn [app]. rewrite <- Eq. split; [reflexivity|].
      constructor; [now apply Qltb_lt|exact He].
    + exists []. split; [reflexivity|constructor].
Qed.

(** What the erasing loop leaves starts with a pose not stamped before
    [t]. *)
Lemma erasePath_front (t : Q) (ps : list PoseStamped) :
  match erasePath t ps with
  | [] => True
  | front :: _ => t <= ps_stamp front
  end.
Proof.
  induction ps as [|p ps IH]; cbn [erasePath]; [exact I|].
  destruct (ps_stamp p <? t) eqn:E; [exact IH|]. now apply Qltb_ge.
Qed.

(** ** The outcomes of [imuOdometryHandler] *)

(** X13: [imuOdometryHandler] first queues the message and broadcasts the
    map-to-odom transform.  While no lidar odometry has been received
    ([lidarOdomTime] is -1) it does nothing else.  Otherwise it prunes the
    queue, and it calls [front()] on the emptied deque exactly when no
    queued message, the incoming one included, is stamped after the lidar
    odometry; nothing more has been sent by then. *)
Theorem imuOdometryHandler_outcomes (odomMsg : Odometry) (numSubscribers : nat)
  (this : TransformFusion) :
  (lidarOdomTime this == -1 ->
   imuOdometryHandler odomMsg numSubscribers this =
     Finished [map2odom odomMsg]
       (set_imuOdomQueue (imuOdomQueue this ++ [odomMsg]) this)) /\
  ((exists sent this',
      imuOdometryHandler odomMsg numSubscribers this = FrontOfEmptyQueue sent this') <->
   ~ lidarOdomTime this == -1 /\
   Forall (fun m => ROS_TIME m <= lidarOdomTime this) (imuOdomQueue this ++ [odomMsg])) /\
  (forall sent this',
     imuOdometryHandler odomMsg numSubscribers this = FrontOfEmptyQueue sent this' ->
     sent = [map2odom odomMsg] /\ this' = set_imuOdomQueue [] this).
Proof.
  unfold imuOdometryHandler. destruct this as [a l t q p lp].
  cbn [set_imuOdomQueue lidarOdomAffine lidar2Baselink lidarOdomTime imuOdomQueue imuPath
       last_path_time].
  destruct (Qeq_bool t (-1)) eqn:Et.
  - apply Qeq_bool_iff in Et. split; [reflexivity|]. split.
    + split; [intros (s & t' & H); discriminate|]. intros [H _]. contradiction.
    + intros s t' H. discriminate.
  - assert (Hne : ~ t == -1) by (intros H; apply Qeq_bool_iff in H; congruence).
    split; [intros H; contradiction|].
    pose proof (popOldImuOdom_nil t (q ++ [odomMsg])) as Hnil.
    destruct (popOldImuOdom t (q ++ [odomMsg])) as [|front rest].
    + split.
      * split; [intros _; split; [exact Hne|now apply Hnil]|].
        intros _. eexists _, _. reflexivity.
      * intros s t' [= <- <-]. split; reflexivity.
    + split.
      * split.
        -- intros (s & t' & H). exfalso. revert H.
           destruct (1 # 10 <? _); [destruct (numSubscribers =? 0)%nat|]; discriminate.
        -- intros [_ H]. apply Hnil in H. discriminate.
      * intros s t' H. exfalso. revert H.
        destruct (1 # 10 <? _); [destruct (numSubscribers =? 0)%nat|]; discriminate.
Qed.

(** What [imuOdometryHandler] does once a lidar odometry has been received
    and the pruning leaves [front :: rest]. *)
Lemma imuOdometryHandler_publishes (odomMsg : Odometry) (numSubscribers : nat)
  (this : TransformFusion) (sent : list Sent) (this' : TransformFusion) :
  ~ lidarOdomTime this == -1 ->
  imuOdometryHandler odomMsg numSubscribers this = Finished sent this' ->
  exists front rest,
    popOldImuOdom (lidarOdomTime this) (imuOdomQueue this ++ [odomMsg]) = front :: rest /\
    let laserOdometry :=
      laserOdometry_of this front odomMsg in
    let pose_stamped :=
      mkPoseStamped (ROS_TIME odomMsg) odometryFrame
        (pose_position laserOdometry) (pose_orientation laserOdometry) in
    let kept :=
      erasePath (lidarOdomTime this - 1) (poses (imuPath this) ++ [pose_stamped]) in
    let appended := 1 # 10 <? ROS_TIME odomMsg - last_path_time this in
    let published := appended && negb (numSubscribers =? 0)%nat in
    lidarOdomAffine this' = lidarOdomAffine this /\
    lidar2Baselink this' = lidar2Baselink this /\
    lidarOdomTime this' = lidarOdomTime this /\
    imuOdomQueue this' = front :: rest /\
    last_path_time this' = (if appended then ROS_TIME odomMsg else last_path_time this) /\
    poses (imuPath this') = (if appended then kept else poses (imuPath this)) /\
    path_stamp (imuPath this') =
      (if published then ROS_TIME odomMsg else path_stamp (imuPath this)) /\
    path_frame_id (imuPath this') =
      (if published then odometryFrame else path_frame_id (imuPath this)) /\
    sent =
      [map2odom odomMsg;
       pubImuOdometry_publish laserOdometry;
       tfOdom2BaseLink_sendTransform (odom_2_baselink this odomMsg laserOdometry)]
      ++ (if published then [pubImuPath_publish (imuPath this')] else []).
Proof.
  intros Hne. unfold imuOdometryHandler. destruct this as [a l t q p lp].
  cbn [set_imuOdomQueue set_last_path_time set_imuPath lidarOdomAffine lidar2Baselink
       lidarOdomTime imuOdomQueue imuPath last_path_time] in *.
  destruct (Qeq_bool t (-1)) eqn:Et; [apply Qeq_bool_iff in Et; contradiction|].
  destruct (popOldImuOdom t (q ++ [odomMsg])) as [|front rest] eqn:Ep; [discriminate|].
  rewrite (popOldImuOdom_back _ _ _ _ _ Ep).
  intros H. exists front, rest. split; [reflexivity|]. cbn zeta.
  change (laserOdometry_of (mkTransformFusion a l t (front :: rest) p lp) front odomMsg)
    with (laserOdometry_of (mkTransformFusion a l t q p lp) front odomMsg) in H.
  change (odom_2_baselink (mkTransformFusion a l t (front :: rest) p lp))
    with (odom_2_baselink (mkTransformFusion a l t q p lp)) in H.
  destruct (1 # 10 <? ROS_TIME odomMsg - lp); [destruct (numSubscribers =? 0)%nat|];
    injection H as <- <-; cbn; repeat split.
Qed.

(** X14: when a lidar odometry has been received and [imuOdometryHandler]
    returns, the queue it leaves is the old queue and the incoming message
    without the leading messages stamped at or before the lidar odometry; its
    front is stamped after the lidar odometry and its back is the incoming
    message.  The odometry published is the incoming message (stamp, frames,
    covariance and twist) with the pose replaced by that of
    [lidarOdomAffine * (front^-1 * incoming)], and the odom-to-base_link
    transform carries the stamp of the incoming message. *)
Theorem published_odometry_is_the_incoming_message (odomMsg : Odometry)
  (numSubscribers : nat) (this : TransformFusion) (sent : list Sent)
  (this' : TransformFusion) :
  ~ lidarOdomTime this == -1 ->
  imuOdometryHandler odomMsg numSubscribers this = Finished sent this' ->
  exists older front rest laserOdometry t2 more,
    imuOdomQueue this ++ [odomMsg] = older ++ imuOdomQueue this' /\
    Forall (fun m => ROS_TIME m <= lidarOdomTime this) older /\
    imuOdomQueue this' = front :: rest /\
    lidarOdomTime this < ROS_TIME front /\
    last rest front = odomMsg /\
    sent = map2odom odomMsg :: pubImuOdometry_publish laserOdometry
             :: tfOdom2BaseLink_sendTransform t2 :: more /\
    odom_stamp laserOdometry = odom_stamp odomMsg /\
    frame_id laserOdometry = frame_id odomMsg /\
    child_frame_id laserOdometry = child_frame_id odomMsg /\
    covariance0 laserOdometry = covariance0 odomMsg /\
    twist_linear laserOdometry = twist_linear odomMsg /\
    twist_angular laserOdometry = twist_angular odomMsg /\
    (let '(xyz, (roll, pitch, yaw)) :=
       getTranslationAndEulerAngles
         (Affine3f_mul (lidarOdomAffine this)
            (Affine3f_mul (Affine3f_inverse (odom2affine front)) (odom2affine odomMsg))) in
     pose_position laserOdometry = xyz /\
     pose_orientation laserOdometry = createQuaternionMsgFromRollPitchYaw roll pitch yaw) /\
    tf_stamp t2 = ROS_TIME odomMsg /\
    tf_frame_id t2 = odometryFrame /\
    tf_child_frame_id t2 = baselinkFrame.
Proof.
  intros Hne H.
  destruct (imuOdometryHandler_publishes _ _ _ _ _ Hne H)
    as (front & rest & Ep & _ & _ & _ & Eq & _ & _ & _ & _ & Es).
  destruct (popOldImuOdom_spec (lidarOdomTime this) (imuOdomQueue this ++ [odomMsg]))
    as (older & Esplit & Hold & Hfront).
  rewrite Ep in Esplit, Hfront.
  exists older, front, rest, (laserOdometry_of this front odomMsg).
  eexists _, _.
  split; [now rewrite Eq|]. split; [exact Hold|]. split; [exact Eq|].
  split; [exact Hfront|]. split; [exact (popOldImuOdom_back _ _ _ _ _ Ep)|].
  split; [exact Es|].
  unfold laserOdometry_of, imuOdomAffineLast.
  destruct (getTranslationAndEulerAngles _) as [xyz [[roll pitch] yaw]].
  cbn [set_pose odom_stamp frame_id child_frame_id covariance0 twist_linear twist_angular
       pose_position pose_orientation].
  rewrite Vector3_eta. repeat split.
Qed.

(** ** The path *)

Lemma StronglySorted_suffix {A : Type} (R : A -> A -> Prop) (a b : list A) :
  StronglySorted R (a ++ b) -> StronglySorted R b.
Proof.
  induction a as [|x a IH]; cbn [app]; [trivial|]. intros H. inversion H. auto.
Qed.

Lemma lidarOdometryHandler_path (odomMsg : Odometry) (this : TransformFusion) :
  imuPath (lidarOdometryHandler odomMsg this) = imuPath this /\
  last_path_time (lidarOdometryHandler odomMsg this) = last_path_time this.
Proof. destruct this. split; reflexivity. Qed.

(** A callback keeps the invariant of the path. *)
Lemma fusion_handle_path_invariant (ev : FusionEvent) (this this' : TransformFusion) :
  path_invariant this -> fusion_handle ev this = Some this' -> path_invariant this'.
Proof.
  intros [Hs Hl] Eh. destruct ev as [odomMsg|odomMsg n]; cbn [fusion_handle] in Eh.
  - injection Eh as <-. unfold path_invariant.
    destruct (lidarOdometryHandler_path odomMsg this) as [-> ->]. now split.
  - destruct (imuOdometryHandler odomMsg n this) as [sent s2|sent s2] eqn:E; [|discriminate].
    injection Eh as ->.
    assert (Ht : lidarOdomTime this == -1 \/ ~ lidarOdomTime this == -1).
    { destruct (Qeq_dec (lidarOdomTime this) (-1)); [now left|now right]. }
    destruct Ht as [Ht|Ht].
    + destruct (imuOdometryHandler_outcomes odomMsg n this) as (H1 & _).
      rewrite (H1 Ht) in E. injection E as _ <-. destruct this. split; assumption.
    + destruct (imuOdometryHandler_publishes _ _ _ _ _ Ht E)
        as (front & rest & _ & _ & _ & _ & _ & El & Ep & _).
      unfold path_invariant. rewrite El, Ep.
      destruct (1 # 10 <? ROS_TIME odomMsg - last_path_time this) eqn:Ea; [|now split].
      apply Qltb_lt in Ea. clear Ep El.
      match goal with |- context [erasePath ?t ?ps] =>
        destruct (erasePath_suffix t ps) as (erased & Eq & _);
        generalize dependent (erasePath t ps) end.
      intros kept Eq.
      assert (Hs' : StronglySorted (fun a b => 1 # 10 < ps_stamp b - ps_stamp a)
                      (erased ++ kept)).
      { rewrite <- Eq. clear Eq. revert Hs Hl.
        generalize (poses (imuPath this)). intros ps Hs Hl.
        induction ps as [|p ps IH]; cbn [app].
        - repeat constructor.
        - inversion Hs as [|? ? Hs1 Hf1]; subst. inversion Hl as [|? ? Hp Hl1]; subst.
          constructor; [now apply IH|].
          apply Forall_app. split; [exact Hf1|].
          constructor; [|constructor]. cbn [ps_stamp]. lra. }
      assert (Hl' : Forall (fun a => ps_stamp a <= ROS_TIME odomMsg) (erased ++ kept)).
      { rewrite <- Eq. apply Forall_app. split.
        - eapply Forall_impl; [|exact Hl]. cbn beta. intros a Ha. lra.
        - constructor; [|constructor]. cbn [ps_stamp]. lra. }
      split; [exact (StronglySorted_suffix _ _ _ Hs')|].
      apply Forall_app in Hl'. tauto.
Qed.

Lemma fusion_reachable_path_invariant (this : TransformFusion) :
  fusion_reachable this -> path_invariant this.
Proof.
  intros (a & l & evs & Hrun).
  assert (H0 : path_invariant (TransformFusion_new a l)) by (split; constructor).
  revert Hrun H0. generalize (TransformFusion_new a l).
  induction evs as [|ev evs IH]; intros s Hrun Hs; cbn [fusion_run] in Hrun.
  - now injection Hrun as <-.
  - destruct (fusion_handle ev s) as [s1|] eqn:Eh; [|discriminate].
    exact (IH s1 Hrun (fusion_handle_path_invariant ev s s1 Hs Eh)).
Qed.

(** X15: in every state the display node can reach, each pose of the path
    is stamped more than 0.1 s after every pose before it, and no pose is
    stamped after [last_path_time]. *)
Theorem path_poses_are_spaced (this : TransformFusion) :
  fusion_reachable this ->
  StronglySorted (fun a b => 1 # 10 < ps_stamp b - ps_stamp a) (poses (imuPath this)) /\
  Forall (fun a => ps_stamp a <= last_path_time this) (poses (imuPath this)).
Proof. exact (fusion_reachable_path_invariant this). Qed.


End FusionProperties.

(** * The handlers run on the concrete node

    The statements below are about the node of [Scenario]: configuration
    [Scenario.params] and, unless said otherwise, the stand-in
    [Scenario.gtsam] for GTSAM. *)

#[local] Existing Instance Scenario.params.
#[local] Existing Instance Scenario.gtsam.
#[local] Existing Instance Scenario.eigen.

(** C1: the code does not do what the claim says when the drain empties
    [imuQueImu]; the reset of the forward preintegrator sits inside
    [if (!imuQueImu.empty())] (line 448).  After a sample stamped 1, the
    initialising pose (0.5), a first optimization (0.8) and a sample stamped
    2, the lidar pose stamped 3 is optimized and handed off; both samples
    are older, the queue is left empty, and the forward preintegrator is not
    reset: it keeps the bias of the previous optimization and the two
    measurements integrated under it, while the seed is the new state and
    bias. *)
Lemma handoff_skips_reset_on_empty_queue :
  let st :=
    Scenario.state_after
      [ImuEvent (Scenario.sample 1); OdometryEvent (Scenario.lidar (1 # 2) 0);
       OdometryEvent (Scenario.lidar (8 # 10) 0); ImuEvent (Scenario.sample 2)] in
  let odomMsg := Scenario.lidar 3 0 in
  let st' := final_state (odometryHandler odomMsg st) in
  reachable st /\
  odometryHandler odomMsg st = Returned Optimized st' /\
  imuQueImu st' = [] /\
  imuIntegratorImu_ st' = imuIntegratorImu_ st /\
  biasHat (imuIntegratorImu_ st') <> prevBias_ st' /\
  measurements (imuIntegratorImu_ st') <> [] /\
  imuIntegratorImu_ st' <> mkPreintegrated (prevBias_ st') [].
Proof.
  cbv zeta. split.
  - exists [ImuEvent (Scenario.sample 1); OdometryEvent (Scenario.lidar (1 # 2) 0);
            OdometryEvent (Scenario.lidar (8 # 10) 0); ImuEvent (Scenario.sample 2)].
    vm_compute. reflexivity.
  - split; [vm_compute; reflexivity|].
    split; [vm_compute; reflexivity|].
    split; [vm_compute; reflexivity|].
    split; [vm_compute; congruence|].
    split; vm_compute; congruence.
Qed.

(** Where a sample is left, the forward preintegrator is reset with the new
    bias and re-integrates it: the second lidar pose of the run above. *)
Lemma handoff_resets_and_reintegrates_witness :
  let st :=
    Scenario.state_after
      [ImuEvent (Scenario.sample 1); OdometryEvent (Scenario.lidar (1 # 2) 0)] in
  let odomMsg := Scenario.lidar (8 # 10) 0 in
  let st' := final_state (odometryHandler odomMsg st) in
  odometryHandler odomMsg st = Returned Optimized st' /\
  imuQueImu st' = [Scenario.sample 1] /\
  imuIntegratorOpt_ st' = mkPreintegrated (prevBias_ st') [] /\
  imuIntegratorImu_ st' =
    mkPreintegrated (prevBias_ st')
      [(linear_acceleration (Scenario.sample 1), angular_velocity (Scenario.sample 1),
        1 / 500)].
Proof.
  cbv zeta.
  assert (H : odometryHandler (Scenario.lidar (8 # 10) 0)
                (Scenario.state_after
                   [ImuEvent (Scenario.sample 1); OdometryEvent (Scenario.lidar (1 # 2) 0)])
              = Returned Optimized
                  (final_state
                     (odometryHandler (Scenario.lidar (8 # 10) 0)
                        (Scenario.state_after
                           [ImuEvent (Scenario.sample 1);
                            OdometryEvent (Scenario.lidar (1 # 2) 0)]))))
    by (vm_compute; reflexivity).
  split; [exact H|].
  destruct (handoff_resets_and_reintegrates _ _ _ H) as (Hq & _ & _ & Ho & Hn & _).
  cbv zeta in Hq, Hn.
  split; [rewrite Hq; vm_compute; reflexivity|].
  split; [exact Ho|].
  rewrite Hn by (vm_compute; discriminate). f_equal.
Defined.

(** C2 fails as stated, in both paths.  Forward path: after the run above
    [lastImuT_imu] is 2; a second sample stamped 2 has [dt = 0], and
    [imuHandler] does not drop it with a warning: the exception of
    [integrateMeasurement] leaves the handler, nothing is logged and the
    sample is on the queues.  Drain path: with two samples stamped 1 queued,
    the second has [dt = 0]; [odometryHandler] throws, nothing is logged and
    the sample is still in [imuQueOpt]. *)
Lemma nonpositive_dt_sample_not_dropped :
  let st_forward :=
    Scenario.state_after
      [ImuEvent (Scenario.sample 1); OdometryEvent (Scenario.lidar (1 # 2) 0);
       OdometryEvent (Scenario.lidar (8 # 10) 0); ImuEvent (Scenario.sample 2)] in
  let st_drain :=
    Scenario.state_after
      [ImuEvent (Scenario.sample 1); ImuEvent (Scenario.sample 1);
       OdometryEvent (Scenario.lidar (1 # 2) 0)] in
  let after_imu := imuHandler (Scenario.sample 2) st_forward in
  let after_lidar := odometryHandler (Scenario.lidar 2 0) st_drain in
  (doneFirstOpt st_forward = true /\
   dt_since (lastImuT_imu st_forward) (ROS_TIME (Scenario.sample 2)) == 0 /\
   after_imu = Thrown InvalidTimestepping (final_state after_imu) /\
   rosout (final_state after_imu) = rosout st_forward /\
   imuQueImu (final_state after_imu) = imuQueImu st_forward ++ [Scenario.sample 2]) /\
  (systemInitialized st_drain = true /\
   imuQueOpt st_drain = [Scenario.sample 1; Scenario.sample 1] /\
   after_lidar = Thrown InvalidTimestepping (final_state after_lidar) /\
   rosout (final_state after_lidar) = rosout st_drain /\
   imuQueOpt (final_state after_lidar) = [Scenario.sample 1] /\
   optimizer (final_state after_lidar) = optimizer st_drain).
Proof.
  cbv zeta. split.
  - split; [vm_compute; reflexivity|].
    split; [vm_compute; reflexivity|].
    split; [vm_compute; reflexivity|].
    split; vm_compute; reflexivity.
  - split; [vm_compute; reflexivity|].
    split; [vm_compute; reflexivity|].
    split; [vm_compute; reflexivity|].
    split; [vm_compute; reflexivity|].
    split; vm_compute; reflexivity.
Qed.

(** The amended C2 at the same two inputs, and in the drain of a call that
    starts with [key] at 100: the sample stamped 20 is drained by the first
    optimization ([lastImuT_opt] is 20), the sample stamped 15 arrives next
    and stays queued during 98 lidar poses stamped 12; the lidar pose
    stamped 30 resets the graph and then throws on that sample, leaving the
    new smoother with its one update and [key] at 1. *)
Lemma nonpositive_dt_escapes_as_exception_witness :
  let st_forward :=
    Scenario.state_after
      [ImuEvent (Scenario.sample 1); OdometryEvent (Scenario.lidar (1 # 2) 0);
       OdometryEvent (Scenario.lidar (8 # 10) 0); ImuEvent (Scenario.sample 2)] in
  let st_drain :=
    Scenario.state_after
      [ImuEvent (Scenario.sample 1); ImuEvent (Scenario.sample 1);
       OdometryEvent (Scenario.lidar (1 # 2) 0)] in
  let st_100 :=
    Scenario.state_after
      ([ImuEvent (Scenario.sample 20); OdometryEvent (Scenario.lidar 5 0);
        OdometryEvent (Scenario.lidar 25 0); ImuEvent (Scenario.sample 15)]
       ++ repeat (OdometryEvent (Scenario.lidar 12 0)) 98) in
  (exists st',
     imuHandler (Scenario.sample 2) st_forward = Thrown InvalidTimestepping st' /\
     imuIntegratorImu_ st' = imuIntegratorImu_ st_forward /\
     rosout st' = rosout st_forward) /\
  (exists st',
     odometryHandler (Scenario.lidar 2 0) st_drain = Thrown InvalidTimestepping st' /\
     imuQueOpt st' = [Scenario.sample 1] /\
     rosout st' = rosout st_drain /\
     optimizer st' = optimizer st_drain) /\
  (reachable st_100 /\
   key st_100 = 100%Z /\
   List.length (isam_updates (optimizer st_100)) = 199%nat /\
   exists st',
     odometryHandler (Scenario.lidar 30 0) st_100 = Thrown InvalidTimestepping st' /\
     imuQueOpt st' = [Scenario.sample 15] /\
     List.length (isam_updates (optimizer st')) = 1%nat /\
     key st' = 1%Z).
Proof.
  cbv zeta.
  destruct (@nonpositive_dt_escapes_as_exception Scenario.params Scenario.gtsam Scenario.eigen)
    as [Hforward Hdrain].
  split; [|split].
  - destruct (Hforward (Scenario.sample 2)
                (Scenario.state_after
                   [ImuEvent (Scenario.sample 1); OdometryEvent (Scenario.lidar (1 # 2) 0);
                    OdometryEvent (Scenario.lidar (8 # 10) 0);
                    ImuEvent (Scenario.sample 2)]))
      as (st' & H & Hp & Hr & _).
    + vm_compute. reflexivity.
    + vm_compute. discriminate.
    + exists st'. split; [exact H|]. split; [exact Hp|exact Hr].
  - destruct (Hdrain (Scenario.lidar 2 0)
                (Scenario.state_after
                   [ImuEvent (Scenario.sample 1); ImuEvent (Scenario.sample 1);
                    OdometryEvent (Scenario.lidar (1 # 2) 0)])
                [Scenario.sample 1] (Scenario.sample 1) [])
      as (st' & H & Hq & _ & _ & _ & Hr & Hn & _).
    + vm_compute. reflexivity.
    + vm_compute. reflexivity.
    + constructor; [vm_compute; reflexivity|constructor].
    + constructor; [vm_compute; reflexivity|constructor].
    + vm_compute. reflexivity.
    + vm_compute. discriminate.
    + exists st'. split; [exact H|]. split; [exact Hq|]. split; [exact Hr|].
      apply Hn. vm_compute. discriminate.
  - split.
    { exists ([ImuEvent (Scenario.sample 20); OdometryEvent (Scenario.lidar 5 0);
               OdometryEvent (Scenario.lidar 25 0); ImuEvent (Scenario.sample 15)]
              ++ repeat (OdometryEvent (Scenario.lidar 12 0)) 98).
      vm_compute. reflexivity. }
    split; [vm_compute; reflexivity|]. split; [vm_compute; reflexivity|].
    destruct (Hdrain (Scenario.lidar 30 0)
                (Scenario.state_after
                   ([ImuEvent (Scenario.sample 20); OdometryEvent (Scenario.lidar 5 0);
                     OdometryEvent (Scenario.lidar 25 0); ImuEvent (Scenario.sample 15)]
                    ++ repeat (OdometryEvent (Scenario.lidar 12 0)) 98))
                [] (Scenario.sample 15) [])
      as (st' & H & Hq & _ & _ & _ & _ & _ & H100).
    + vm_compute. reflexivity.
    + vm_compute. reflexivity.
    + constructor.
    + constructor.
    + vm_compute. reflexivity.
    + vm_compute. discriminate.
    + destruct H100 as [Ho Hk]; [vm_compute; reflexivity|].
      exists st'. split; [exact H|]. split; [exact Hq|].
      split; [cbv zeta in Ho; rewrite Ho; reflexivity|exact Hk].
Defined.

(** C6 fails as stated on a queue whose stamps are out of order.  With the
    samples stamped 5 and 3 queued, in that order, the drain for the lidar
    pose stamped 4 stops at the first sample and the sample stamped 3 stays
    in [imuQueOpt]. *)
Lemma unsorted_queue_keeps_older_sample :
  let st :=
    Scenario.state_after [ImuEvent (Scenario.sample 5); ImuEvent (Scenario.sample 3)] in
  let odomMsg := Scenario.lidar 4 0 in
  let st' := final_state (odometryHandler odomMsg st) in
  reachable st /\
  odometryHandler odomMsg st = Returned Initialized st' /\
  imuQueOpt st' = [Scenario.sample 5; Scenario.sample 3] /\
  ROS_TIME (Scenario.sample 3) < ROS_TIME odomMsg /\
  ~ Forall (fun m => ~ ROS_TIME m < ROS_TIME odomMsg) (imuQueOpt st').
Proof.
  cbv zeta. split.
  { exists [ImuEvent (Scenario.sample 5); ImuEvent (Scenario.sample 3)].
    vm_compute. reflexivity. }
  split; [vm_compute; reflexivity|].
  split; [vm_compute; reflexivity|].
  split; [vm_compute; reflexivity|].
  assert (Hq : imuQueOpt
                 (final_state
                    (odometryHandler (Scenario.lidar 4 0)
                       (Scenario.state_after
                          [ImuEvent (Scenario.sample 5); ImuEvent (Scenario.sample 3)])))
               = [Scenario.sample 5; Scenario.sample 3]) by (vm_compute; reflexivity).
  rewrite Hq. intros H. inversion H as [|? ? _ H']. inversion H' as [|? ? H3 _].
  apply H3. vm_compute. reflexivity.
Qed.

(** The amended C6 on a queue in order: the samples stamped 1 and 2, the
    lidar pose stamped 1.5. *)
Lemma queue_hygiene_sorted_witness :
  let st :=
    Scenario.state_after [ImuEvent (Scenario.sample 1); ImuEvent (Scenario.sample 2)] in
  let odomMsg := Scenario.lidar (3 # 2) 0 in
  let st' := final_state (odometryHandler odomMsg st) in
  sorted_stamps (imuQueOpt st) /\
  Forall (fun m => ~ ROS_TIME m < ROS_TIME odomMsg) (imuQueOpt st').
Proof.
  cbv zeta.
  assert (Hs : sorted_stamps
                 (imuQueOpt
                    (Scenario.state_after
                       [ImuEvent (Scenario.sample 1); ImuEvent (Scenario.sample 2)]))).
  { assert (Hq : imuQueOpt
                   (Scenario.state_after
                      [ImuEvent (Scenario.sample 1); ImuEvent (Scenario.sample 2)])
                 = [Scenario.sample 1; Scenario.sample 2]) by (vm_compute; reflexivity).
    rewrite Hq. repeat constructor. vm_compute. discriminate. }
  split; [exact Hs|].
  apply (queue_hygiene_sorted _ _ _ Initialized Hs).
  vm_compute. reflexivity.
Defined.

(** C3 on the state reached after the initialisation and 99 optimizations
    ([key] is 100), with one more sample queued. *)
Lemma graph_reset_at_key_100_witness :
  let st := Scenario.state_after (Scenario.keyframes 100 ++ [ImuEvent (Scenario.sample 101)]) in
  let odomMsg := Scenario.lidar (203 # 2) 0 in
  key st = 100%Z /\
  exists smoother,
    odometryHandler odomMsg st =
      processLidarPose (ROS_TIME odomMsg) (lidarPose_of odomMsg) (degenerate_of odomMsg)
        (set_key 1 (set_graphValues [] (set_graphFactors [] (set_optimizer smoother st)))) /\
    List.length (isam_updates smoother) = 1%nat.
Proof.
  cbv zeta.
  split; [vm_compute; reflexivity|].
  destruct (graph_reset_at_key_100 (Scenario.lidar (203 # 2) 0)
              (Scenario.state_after
                 (Scenario.keyframes 100 ++ [ImuEvent (Scenario.sample 101)])))
    as (_ & Hu & _ & H).
  - exists (Scenario.keyframes 100 ++ [ImuEvent (Scenario.sample 101)]).
    vm_compute. reflexivity.
  - vm_compute. reflexivity.
  - cbv zeta in H, Hu. eexists. split; [apply H; vm_compute; discriminate|].
    rewrite Hu. reflexivity.
Defined.



(** C5 fails as stated on a pose whose components are not floats.  The
    lidar pose stamped 0.8 is at x = 0.1; the handler copies it to a float,
    13421773 / 2^27, so the prior on X(1) is at x = 0.1000000015 + 0.1 (the
    extrinsic translation), not at 0.2 as the pose of the message composed
    with [lidar2Imu] is. *)
Lemma pose_prior_is_not_at_the_message_pose :
  let st :=
    Scenario.state_after
      [ImuEvent (Scenario.sample 1); OdometryEvent (Scenario.lidar (1 # 2) 0)] in
  let odomMsg := Scenario.lidar_at (8 # 10) (1 # 10) in
  let st' := final_state (odometryHandler odomMsg st) in
  let message_pose := mkPose3 (Rot3_Quaternion 1 0 0 0) (mkVector3 (1 # 10) 0 0) in
  let prior :=
    mkPose3 Rot3_identity
      (mkVector3 ((13421773 # 134217728) + (1 # 10)) 0 (- (2 # 10))) in
  odometryHandler odomMsg st = Returned Optimized st' /\
  Pose3_eq (Pose3_compose message_pose lidar2Imu)
    (mkPose3 Rot3_identity (mkVector3 (2 # 10) 0 (- (2 # 10)))) /\
  ~ vx (translation prior) == 2 # 10 /\
  exists imu_factor bias_factor pose values,
    isam_updates (optimizer st') =
      isam_updates (optimizer st) ++
        [([imu_factor; bias_factor;
           PriorFactor (X 1) (Value_Pose3 pose)
             (Diagonal_Sigmas [5 # 100; 5 # 100; 5 # 100; 1 # 10; 1 # 10; 1 # 10])], values);
         ([], [])] /\
    Pose3_eq pose prior.
Proof.
  cbv zeta.
  split; [vm_compute; reflexivity|].
  split; [vm_compute; repeat split; reflexivity|].
  split; [intros H; vm_compute in H; discriminate|].
  destruct (pose_prior_factor (Scenario.lidar_at (8 # 10) (1 # 10))
              (Scenario.state_after
                 [ImuEvent (Scenario.sample 1); OdometryEvent (Scenario.lidar (1 # 2) 0)])
              (final_state
                 (odometryHandler (Scenario.lidar_at (8 # 10) (1 # 10))
                    (Scenario.state_after
                       [ImuEvent (Scenario.sample 1);
                        OdometryEvent (Scenario.lidar (1 # 2) 0)])))
              Optimized)
    as (Hk & Hg & imu_factor & bias_factor & values & H).
  - vm_compute. discriminate.
  - vm_compute. reflexivity.
  - vm_compute. reflexivity.
  - cbv zeta in Hk, H. rewrite Hk in H by (vm_compute; discriminate).
    eexists imu_factor, bias_factor, _, values. split; [exact H|].
    vm_compute. repeat split; reflexivity.
Qed.

(** The amended C5 on a lidar pose at x = 0.1 whose [covariance[0]] is
    1.5: converted to [int] it is 1, the prior has the sigmas 1, and its
    pose is built from the float nearest to 0.1. *)
Lemma pose_prior_factor_witness :
  let st :=
    Scenario.state_after
      [ImuEvent (Scenario.sample 1); OdometryEvent (Scenario.lidar (1 # 2) 0)] in
  let odomMsg :=
    {| odom_stamp := 8 # 10;
       frame_id := "odom";
       child_frame_id := "";
       pose_position := mkVector3 (1 # 10) 0 0;
       pose_orientation := mkQuaternion 1 0 0 0;
       covariance0 := 3 # 2;
       twist_linear := Vector3_zero;
       twist_angular := Vector3_zero |} in
  let st' := final_state (odometryHandler odomMsg st) in
  exists imu_factor bias_factor values,
    isam_updates (optimizer st') =
      isam_updates (optimizer st) ++
        [([imu_factor; bias_factor;
           PriorFactor (X 1)
             (Value_Pose3
                (Pose3_compose
                   (mkPose3 (Rot3_Quaternion 1 0 0 0)
                      (mkVector3 (13421773 # 134217728) 0 0))
                   lidar2Imu))
             (Diagonal_Sigmas [1; 1; 1; 1; 1; 1])], values);
         ([], [])].
Proof.
  cbv zeta.
  destruct (pose_prior_factor
              {| odom_stamp := 8 # 10;
                 frame_id := "odom";
                 child_frame_id := "";
                 pose_position := mkVector3 (1 # 10) 0 0;
                 pose_orientation := mkQuaternion 1 0 0 0;
                 covariance0 := 3 # 2;
                 twist_linear := Vector3_zero;
                 twist_angular := Vector3_zero |}
              (Scenario.state_after
                 [ImuEvent (Scenario.sample 1); OdometryEvent (Scenario.lidar (1 # 2) 0)])
              (final_state
                 (odometryHandler
                    {| odom_stamp := 8 # 10;
                       frame_id := "odom";
                       child_frame_id := "";
                       pose_position := mkVector3 (1 # 10) 0 0;
                       pose_orientation := mkQuaternion 1 0 0 0;
                       covariance0 := 3 # 2;
                       twist_linear := Vector3_zero;
                       twist_angular := Vector3_zero |}
                    (Scenario.state_after
                       [ImuEvent (Scenario.sample 1);
                        OdometryEvent (Scenario.lidar (1 # 2) 0)])))
              Optimized)
    as (Hk & Hg & imu_factor & bias_factor & values & H).
  - vm_compute. discriminate.
  - vm_compute. reflexivity.
  - vm_compute. reflexivity.
  - cbv zeta in Hk, H. rewrite Hk in H by (vm_compute; discriminate).
    exists imu_factor, bias_factor, values. rewrite H. vm_compute. reflexivity.
Defined.

(** C7 on the sample stamped 3 after the run of the first counterexample
    ([lastImuT_imu] is 2, so [dt] is 1). *)
Lemma emitted_twist_witness :
  let st :=
    Scenario.state_after
      [ImuEvent (Scenario.sample 1); OdometryEvent (Scenario.lidar (1 # 2) 0);
       OdometryEvent (Scenario.lidar (8 # 10) 0); ImuEvent (Scenario.sample 2)] in
  exists odometry st',
    imuHandler (Scenario.sample 3) st = Returned (Some odometry) st' /\
    twist_linear odometry =
      velocity (predict (imuIntegratorImu_ st') (prevStateOdom st') (prevBiasOdom st')) /\
    vz (twist_angular odometry)
      = vz (angular_velocity (Scenario.sample 3)) + vz (gyroscope (prevBiasOdom st')).
Proof.
  cbv zeta.
  destruct (emitted_twist (Scenario.sample 3)
              (Scenario.state_after
                 [ImuEvent (Scenario.sample 1); OdometryEvent (Scenario.lidar (1 # 2) 0);
                  OdometryEvent (Scenario.lidar (8 # 10) 0); ImuEvent (Scenario.sample 2)]))
    as (Hreturns & Hmessage).
  - vm_compute. reflexivity.
  - destruct Hreturns as (odometry & st' & H); [vm_compute; reflexivity|].
    destruct (Hmessage _ _ H) as (m & Hm & _ & _ & _ & Hv & _ & _ & Hz).
    injection Hm as <-.
    exists odometry, st'. split; [exact H|]. split; [exact Hv|exact Hz].
Defined.

(** C8 on the failing pass of the witness of C4. *)
Lemma failure_returns_before_handoff_witness :
  let st :=
    Scenario.state_after (g := Scenario.gtsam_diverging)
      [ImuEvent (Scenario.sample 1); OdometryEvent (Scenario.lidar (1 # 2) 0)] in
  let odomMsg := Scenario.lidar 2 0 in
  let st' := final_state (odometryHandler (gtsam := Scenario.gtsam_diverging) odomMsg st) in
  odometryHandler (gtsam := Scenario.gtsam_diverging) odomMsg st = Returned Failed st' /\
  prevStateOdom st' = prevStateOdom st /\
  prevBiasOdom st' = prevBiasOdom st /\
  imuQueImu st' = imuQueImu st /\
  imuIntegratorImu_ st' = imuIntegratorImu_ st /\
  key st' = key st.
Proof.
  cbv zeta.
  assert (H : odometryHandler (gtsam := Scenario.gtsam_diverging) (Scenario.lidar 2 0)
                (Scenario.state_after (g := Scenario.gtsam_diverging)
                   [ImuEvent (Scenario.sample 1); OdometryEvent (Scenario.lidar (1 # 2) 0)])
              = Returned Failed
                  (final_state
                     (odometryHandler (gtsam := Scenario.gtsam_diverging)
                        (Scenario.lidar 2 0)
                        (Scenario.state_after (g := Scenario.gtsam_diverging)
                           [ImuEvent (Scenario.sample 1);
                            OdometryEvent (Scenario.lidar (1 # 2) 0)]))))
    by (vm_compute; reflexivity).
  split; [exact H|].
  destruct (failure_returns_before_handoff _ _ _ H) as (Hs & Hb & Hq & Hp & _ & Hk & _).
  split; [exact Hs|]. split; [exact Hb|]. split; [exact Hq|]. split; [exact Hp|].
  apply Hk. vm_compute. discriminate.
Defined.

(** C10 from the constructor: a sample, the initialising lidar pose and a
    first optimization, then a sample stamped 7, which is integrated with
    [dt = 1/500]. *)
Lemma first_forward_sample_uses_bootstrap_dt_witness :
  let evs :=
    [ImuEvent (Scenario.sample 1); OdometryEvent (Scenario.lidar (1 # 2) 0);
     OdometryEvent (Scenario.lidar (8 # 10) 0)] in
  let st := Scenario.state_after evs in
  exists odometry st',
    imuHandler (Scenario.sample 7) st = Returned (Some odometry) st' /\
    imuIntegratorImu_ st' =
      advanced (imuIntegratorImu_ st)
        [(linear_acceleration (Scenario.sample 7), angular_velocity (Scenario.sample 7),
          1 / 500)].
Proof.
  cbv zeta.
  destruct (@first_forward_sample_uses_bootstrap_dt Scenario.params Scenario.gtsam Scenario.eigen)
    as (_ & _ & Hfirst).
  apply (Hfirst IMUPreintegration_new
           [ImuEvent (Scenario.sample 1); OdometryEvent (Scenario.lidar (1 # 2) 0);
            OdometryEvent (Scenario.lidar (8 # 10) 0)]).
  - left. reflexivity.
  - vm_compute. repeat split.
  - vm_compute. reflexivity.
  - vm_compute. reflexivity.
Defined.

(** ** Further runs of the preintegration node *)

(** X1 on the lidar pose stamped 3 after a run whose second lidar pose
    drained the queue: it is dropped, and the state is unchanged. *)
Lemma drop_iff_queue_empty_witness :
  let st :=
    Scenario.state_after
      [ImuEvent (Scenario.sample 1); OdometryEvent (Scenario.lidar (1 # 2) 0);
       OdometryEvent (Scenario.lidar 2 0)] in
  odometryHandler (Scenario.lidar 3 0) st = Returned Dropped st /\ imuQueOpt st = [].
Proof.
  cbv zeta.
  assert (H : odometryHandler (Scenario.lidar 3 0)
                (Scenario.state_after
                   [ImuEvent (Scenario.sample 1); OdometryEvent (Scenario.lidar (1 # 2) 0);
                    OdometryEvent (Scenario.lidar 2 0)])
              = Returned Dropped
                  (Scenario.state_after
                     [ImuEvent (Scenario.sample 1); OdometryEvent (Scenario.lidar (1 # 2) 0);
                      OdometryEvent (Scenario.lidar 2 0)]))
    by (vm_compute; reflexivity).
  split; [exact H|].
  destruct (drop_iff_queue_empty _ _ _ _ H) as [Hiff _]. apply Hiff. reflexivity.
Defined.

(** X2 on the first lidar pose of a run, after one sample. *)
Lemma initialization_seeds_the_graph_witness :
  let st := Scenario.state_after [ImuEvent (Scenario.sample 1)] in
  let odomMsg := Scenario.lidar (1 # 2) 0 in
  exists st',
    odometryHandler odomMsg st = Returned Initialized st' /\
    systemInitialized st' = true /\
    key st' = 1%Z /\
    List.length (isam_updates (optimizer st')) = 1%nat.
Proof.
  cbv zeta.
  destruct (initialization_seeds_the_graph (Scenario.lidar (1 # 2) 0)
              (Scenario.state_after [ImuEvent (Scenario.sample 1)]))
    as (st' & H & Hi & Hk & _ & _ & _ & _ & Ho & _).
  - vm_compute. discriminate.
  - vm_compute. reflexivity.
  - exists st'. split; [exact H|]. split; [exact Hi|]. split; [exact Hk|].
    rewrite Ho. reflexivity.
Defined.

(** X4 after a run with two samples and two lidar poses. *)
Lemma opt_queue_is_suffix_of_imu_queue_witness :
  let st :=
    Scenario.state_after
      [ImuEvent (Scenario.sample 1); OdometryEvent (Scenario.lidar (1 # 2) 0);
       ImuEvent (Scenario.sample 2); OdometryEvent (Scenario.lidar (3 # 2) 0)] in
  suffix_of (imuQueOpt st) (imuQueImu st).
Proof.
  cbv zeta. apply opt_queue_is_suffix_of_imu_queue.
  exists [ImuEvent (Scenario.sample 1); OdometryEvent (Scenario.lidar (1 # 2) 0);
          ImuEvent (Scenario.sample 2); OdometryEvent (Scenario.lidar (3 # 2) 0)].
  vm_compute. reflexivity.
Defined.

(** X5 on the second lidar pose of a run: it is optimized and [key] goes
    from 1 to 2. *)
Lemma key_counter_steps_witness :
  let st :=
    Scenario.state_after
      [ImuEvent (Scenario.sample 1); OdometryEvent (Scenario.lidar (1 # 2) 0)] in
  let st' := final_state (odometryHandler (Scenario.lidar (8 # 10) 0) st) in
  odometryHandler (Scenario.lidar (8 # 10) 0) st = Returned Optimized st' /\
  key st' = 2%Z.
Proof.
  cbv zeta.
  assert (H : odometryHandler (Scenario.lidar (8 # 10) 0)
                (Scenario.state_after
                   [ImuEvent (Scenario.sample 1); OdometryEvent (Scenario.lidar (1 # 2) 0)])
              = Returned Optimized
                  (final_state
                     (odometryHandler (Scenario.lidar (8 # 10) 0)
                        (Scenario.state_after
                           [ImuEvent (Scenario.sample 1);
                            OdometryEvent (Scenario.lidar (1 # 2) 0)]))))
    by (vm_compute; reflexivity).
  split; [exact H|].
  assert (Hr : reachable
                 (Scenario.state_after
                    [ImuEvent (Scenario.sample 1);
                     OdometryEvent (Scenario.lidar (1 # 2) 0)])).
  { exists [ImuEvent (Scenario.sample 1); OdometryEvent (Scenario.lidar (1 # 2) 0)].
    vm_compute. reflexivity. }
  destruct (key_counter_steps _ _ _ _ Hr H) as (_ & _ & Hk).
  rewrite Hk. vm_compute. reflexivity.
Defined.

(** X6 after the first optimization of a run. *)
Lemma forward_seed_is_last_optimized_witness :
  let st :=
    Scenario.state_after
      [ImuEvent (Scenario.sample 1); OdometryEvent (Scenario.lidar (1 # 2) 0);
       OdometryEvent (Scenario.lidar (8 # 10) 0)] in
  prevStateOdom st = prevState_ st /\ prevBiasOdom st = prevBias_ st.
Proof.
  cbv zeta.
  destruct (forward_seed_is_last_optimized
              (Scenario.state_after
                 [ImuEvent (Scenario.sample 1); OdometryEvent (Scenario.lidar (1 # 2) 0);
                  OdometryEvent (Scenario.lidar (8 # 10) 0)]))
    as (_ & Hs & Hb & _).
  - exists [ImuEvent (Scenario.sample 1); OdometryEvent (Scenario.lidar (1 # 2) 0);
            OdometryEvent (Scenario.lidar (8 # 10) 0)].
    vm_compute. reflexivity.
  - vm_compute. reflexivity.
  - split; [exact Hs|exact Hb].
Defined.

(** X7 on a lidar pose stamped 2 after the sample stamped 1 and the
    initialising pose: the preintegration of the IMU factor holds that one
    sample, with the bootstrap [dt]. *)
Lemma keyframe_update_contents_witness :
  let st :=
    Scenario.state_after
      [ImuEvent (Scenario.sample 1); OdometryEvent (Scenario.lidar (1 # 2) 0)] in
  let st' := final_state (odometryHandler (Scenario.lidar 2 0) st) in
  let k := key (afterResetGraph st) in
  exists pim bias_factor prior values,
    isam_updates (optimizer st') =
      isam_updates (optimizer (afterResetGraph st)) ++
        [([ImuFactor (X (k - 1)) (V (k - 1)) (X k) (V k) (B (k - 1)) pim;
           bias_factor; prior], values);
         ([], [])] /\
    k = 1%Z /\
    measurements pim =
      [(linear_acceleration (Scenario.sample 1), angular_velocity (Scenario.sample 1),
        1 / 500)].
Proof.
  cbv zeta.
  destruct (keyframe_update_contents (Scenario.lidar 2 0)
              (Scenario.state_after
                 [ImuEvent (Scenario.sample 1); OdometryEvent (Scenario.lidar (1 # 2) 0)])
              (final_state
                 (odometryHandler (Scenario.lidar 2 0)
                    (Scenario.state_after
                       [ImuEvent (Scenario.sample 1);
                        OdometryEvent (Scenario.lidar (1 # 2) 0)])))
              Optimized)
    as (H & _).
  - exists [ImuEvent (Scenario.sample 1); OdometryEvent (Scenario.lidar (1 # 2) 0)].
    vm_compute. reflexivity.
  - vm_compute. discriminate.
  - vm_compute. reflexivity.
  - vm_compute. reflexivity.
  - cbv zeta in H. eexists _, _, _, _. split; [exact H|].
    split; vm_compute; reflexivity.
Defined.

(** X8 on the same call: the sample stamped 1 is removed and
    [lastImuT_opt] becomes 1. *)
Lemma lastImuT_opt_follows_the_drain_witness :
  let st :=
    Scenario.state_after
      [ImuEvent (Scenario.sample 1); OdometryEvent (Scenario.lidar (1 # 2) 0)] in
  let st' := final_state (odometryHandler (Scenario.lidar 2 0) st) in
  imuQueOpt st = [Scenario.sample 1] ++ imuQueOpt st' /\ lastImuT_opt st' = 1.
Proof.
  cbv zeta.
  destruct (lastImuT_opt_follows_the_drain (Scenario.lidar 2 0)
              (Scenario.state_after
                 [ImuEvent (Scenario.sample 1); OdometryEvent (Scenario.lidar (1 # 2) 0)])
              (final_state
                 (odometryHandler (Scenario.lidar 2 0)
                    (Scenario.state_after
                       [ImuEvent (Scenario.sample 1);
                        OdometryEvent (Scenario.lidar (1 # 2) 0)])))
              Optimized)
    as (Hq & _ & Hl & _).
  - vm_compute. reflexivity.
  - split; [exact Hq|exact Hl].
Defined.


(** X11 on a run in which two samples carry the same stamp; both are
    popped by the initialising lidar pose. *)
Lemma ordered_run_keeps_queues_sorted_witness :
  let evs :=
    [ImuEvent (Scenario.sample 1); ImuEvent (Scenario.sample 1);
     OdometryEvent (Scenario.lidar 2 0); ImuEvent (Scenario.sample 4);
     OdometryEvent (Scenario.lidar 5 0); ImuEvent (Scenario.sample 6)] in
  let st := Scenario.state_after evs in
  run evs IMUPreintegration_new = Some st /\
  sorted_stamps (imuQueImu st) /\ sorted_stamps (imuQueOpt st).
Proof.
  cbv zeta.
  assert (Hrun : run [ImuEvent (Scenario.sample 1); ImuEvent (Scenario.sample 1);
                      OdometryEvent (Scenario.lidar 2 0); ImuEvent (Scenario.sample 4);
                      OdometryEvent (Scenario.lidar 5 0); ImuEvent (Scenario.sample 6)]
                   IMUPreintegration_new
                 = Some (Scenario.state_after
                           [ImuEvent (Scenario.sample 1); ImuEvent (Scenario.sample 1);
                            OdometryEvent (Scenario.lidar 2 0);
                            ImuEvent (Scenario.sample 4);
                            OdometryEvent (Scenario.lidar 5 0);
                            ImuEvent (Scenario.sample 6)]))
    by (vm_compute; reflexivity).
  split; [exact Hrun|].
  assert (Hs : StronglySorted Qle
                 (imu_stamps
                    [ImuEvent (Scenario.sample 1); ImuEvent (Scenario.sample 1);
                     OdometryEvent (Scenario.lidar 2 0); ImuEvent (Scenario.sample 4);
                     OdometryEvent (Scenario.lidar 5 0); ImuEvent (Scenario.sample 6)]))
    by (cbn [imu_stamps]; repeat constructor; vm_compute; discriminate).
  destruct (ordered_run_keeps_queues_sorted _ _ Hs Hrun) as (Hi & Ho & _).
  split; [exact Hi|exact Ho].
Defined.

(** X12 on a run of three samples and three lidar poses. *)
Lemma increasing_stamps_never_throw_witness :
  exists st,
    run [ImuEvent (Scenario.sample 1); OdometryEvent (Scenario.lidar (1 # 2) 0);
         OdometryEvent (Scenario.lidar (8 # 10) 0); ImuEvent (Scenario.sample 2);
         OdometryEvent (Scenario.lidar (5 # 2) 0); ImuEvent (Scenario.sample 3)]
        IMUPreintegration_new = Some st.
Proof.
  apply increasing_stamps_never_throw.
  cbn [imu_stamps]. repeat constructor; vm_compute; reflexivity.
Defined.

(** * The display node run on concrete messages

    The statements below are about the display node of [FusionScenario]. *)

#[local] Existing Instance FusionScenario.frames.
#[local] Existing Instance FusionScenario.transforms.

(** X14 on the message stamped 2 at x = 1, after the message stamped 1 at
    x = 0 and a lidar odometry stamped 3/2 at the origin: the older message
    is pruned, and the message is published with its own stamp and twist. *)
Lemma published_odometry_is_the_incoming_message_witness :
  let this :=
    FusionScenario.state_after
      [ImuOdometryEvent (FusionScenario.imuOdom 1 0) 0;
       LidarOdometryEvent (Scenario.lidar (3 # 2) 0)] in
  let odomMsg := FusionScenario.imuOdom 2 1 in
  let out := imuOdometryHandler odomMsg 1 this in
  exists laserOdometry t2 more,
    fusion_sent out =
      map2odom odomMsg :: pubImuOdometry_publish laserOdometry
        :: tfOdom2BaseLink_sendTransform t2 :: more /\
    odom_stamp laserOdometry = 2 /\
    twist_linear laserOdometry = mkVector3 1 0 0 /\
    imuOdomQueue (fusion_state out) = [odomMsg].
Proof.
  cbv zeta.
  assert (Hne : ~ lidarOdomTime
                    (FusionScenario.state_after
                       [ImuOdometryEvent (FusionScenario.imuOdom 1 0) 0;
                        LidarOdometryEvent (Scenario.lidar (3 # 2) 0)]) == -1)
    by (intros H; vm_compute in H; discriminate).
  assert (E : imuOdometryHandler (FusionScenario.imuOdom 2 1) 1
                (FusionScenario.state_after
                   [ImuOdometryEvent (FusionScenario.imuOdom 1 0) 0;
                    LidarOdometryEvent (Scenario.lidar (3 # 2) 0)])
              = Finished
                  (fusion_sent
                     (imuOdometryHandler (FusionScenario.imuOdom 2 1) 1
                        (FusionScenario.state_after
                           [ImuOdometryEvent (FusionScenario.imuOdom 1 0) 0;
                            LidarOdometryEvent (Scenario.lidar (3 # 2) 0)])))
                  (fusion_state
                     (imuOdometryHandler (FusionScenario.imuOdom 2 1) 1
                        (FusionScenario.state_after
                           [ImuOdometryEvent (FusionScenario.imuOdom 1 0) 0;
                            LidarOdometryEvent (Scenario.lidar (3 # 2) 0)]))))
    by (vm_compute; reflexivity).
  destruct (published_odometry_is_the_incoming_message _ _ _ _ _ Hne E)
    as (older & front & rest & laserOdometry & t2 & more & _ & _ & _ & _ & _ & Hs & Hst
        & _ & _ & _ & Htw & _).
  exists laserOdometry, t2, more.
  split; [exact Hs|]. split; [exact Hst|]. split; [exact Htw|].
  vm_compute. reflexivity.
Defined.

(** X15 after five messages, of which the third, stamped 2.05, is too close
    to the second to be added to the path. *)
Lemma path_poses_are_spaced_witness :
  let this :=
    FusionScenario.state_after
      [ImuOdometryEvent (FusionScenario.imuOdom 1 0) 0;
       LidarOdometryEvent (Scenario.lidar (3 # 2) 0);
       ImuOdometryEvent (FusionScenario.imuOdom 2 1) 1;
       ImuOdometryEvent (FusionScenario.imuOdom (205 # 100) 1) 1;
       ImuOdometryEvent (FusionScenario.imuOdom (22 # 10) 1) 1] in
  List.length (poses (imuPath this)) = 2%nat /\
  StronglySorted (fun a b => 1 # 10 < ps_stamp b - ps_stamp a) (poses (imuPath this)) /\
  Forall (fun a => ps_stamp a <= last_path_time this) (poses (imuPath this)).
Proof.
  cbv zeta. split; [vm_compute; reflexivity|].
  apply (path_poses_are_spaced (params := Scenario.params)).
  exists Vector3_zero, Vector3_zero,
    [ImuOdometryEvent (FusionScenario.imuOdom 1 0) 0;
     LidarOdometryEvent (Scenario.lidar (3 # 2) 0);
     ImuOdometryEvent (FusionScenario.imuOdom 2 1) 1;
     ImuOdometryEvent (FusionScenario.imuOdom (205 # 100) 1) 1;
     ImuOdometryEvent (FusionScenario.imuOdom (22 # 10) 1) 1].
  vm_compute. reflexivity.
Defined.

